(** * FlinkTableBuilder: a shallow embedding of
      [feathub/processors/flink/table_builder/flink_table_builder.py]

    The builder turns a Feathub [TableDescriptor] into a (lazy) native Flink
    table.  Native tables are modelled by the plan term that the Table API
    calls build up, the session cache [_built_tables] by a finite map, and
    Python exceptions by an error result that keeps the mutated session
    state. *)

From stdpp Require Import gmap strings list.

Set Default Proof Using "Type".
Set Warnings "-register-all".
Open Scope string_scope.
Open Scope list_scope.

(** ** Descriptor and feature model *)

(** Feathub [DType]; only its name matters to the builder. *)
Definition DType := string.

(** [timedelta], in microseconds. *)
Definition timedelta := Z.

(** Modelled from the spec: [OverWindowDescriptor] is the value-equality key
    derived from the shape parameters of an over-window transform
    (partition keys and order key; the bound is always unbounded-preceding).
    The class itself lives in [over_window_utils], outside this file. *)
Record OverWindowDescriptor := mkOverWindowDescriptor {
  partition_keys : list string;
  order_key : string
}.

(** Modelled from the spec: [SlidingWindowDescriptor], the shape of a sliding
    window.  The class itself lives in [sliding_window_utils]. *)
Record SlidingWindowDescriptor := mkSlidingWindowDescriptor {
  group_by_keys : list string;
  window_size : timedelta;
  step_size : timedelta
}.

Inductive Transform :=
| ExpressionTransform (expr : string)
| OverWindowTransform (expr agg_func : string) (window : OverWindowDescriptor)
| SlidingWindowTransform (expr agg_func : string)
    (window : SlidingWindowDescriptor)
| JoinTransform (table_name feature_name : string)
| OtherTransform (type_name : string).

Inductive Feature := mkFeature {
  name : string;
  dtype : DType;
  transform : Transform;
  keys : option (list string);
  input_features : list Feature
}.

#[global] Instance OverWindowDescriptor_eq_dec : EqDecision OverWindowDescriptor.
Proof. solve_decision. Defined.
#[global] Instance SlidingWindowDescriptor_eq_dec :
  EqDecision SlidingWindowDescriptor.
Proof. solve_decision. Defined.
#[global] Instance Transform_eq_dec : EqDecision Transform.
Proof. solve_decision. Defined.

(** Structural equality of features ([Feature.__eq__]); the nested list of
    input features needs the recursion spelled out. *)
Fixpoint Feature_eqb (f g : Feature) {struct f} : bool :=
  bool_decide (name f = name g)
  && bool_decide (dtype f = dtype g)
  && bool_decide (transform f = transform g)
  && bool_decide (keys f = keys g)
  && (fix all2 (l m : list Feature) {struct l} : bool :=
        match l, m with
        | [], [] => true
        | a :: l', b :: m' => Feature_eqb a b && all2 l' m'
        | _, _ => false
        end) (input_features f) (input_features g).

Fixpoint Feature_size (f : Feature) : nat :=
  S (list_sum (map Feature_size (input_features f))).

Section Feature_induction.
Variable P : Feature → Prop.
Hypothesis step : ∀ n d t k l, Forall P l → P (mkFeature n d t k l).

Fixpoint Feature_nested_ind (f : Feature) : P f :=
  match f with
  | mkFeature n d t k l =>
      step n d t k l
        ((fix go (l : list Feature) : Forall P l :=
            match l with
            | [] => Forall_nil_2 P
            | a :: l' => Forall_cons_2 P a l' (Feature_nested_ind a) (go l')
            end) l)
  end.
End Feature_induction.

Lemma Feature_eqb_eq (f g : Feature) : Feature_eqb f g = true ↔ f = g.
Proof.
  revert g. induction f as [n d t k l IH] using Feature_nested_ind.
  intros [n' d' t' k' l']. cbn [Feature_eqb name dtype transform keys input_features].
  rewrite !andb_true_iff, !bool_decide_eq_true.
  match goal with |- context [(fix all2 l m {struct l} := _) l l'] =>
    set (all2 := (fix all2 (l m : list Feature) {struct l} : bool := _)) end.
  assert (Hl : ∀ m, all2 l m = true ↔ l = m).
  { clear -IH. induction IH as [|a l' Ha _ IHl]; intros [|b m]; cbn;
      try (split; [discriminate|discriminate || congruence]); [done|].
    rewrite andb_true_iff, Ha, IHl. split; [intros [-> ->]; done|].
    intros [= -> ->]; done. }
  rewrite Hl. split; [intros [[[[-> ->] ->] ->] ->]; done|].
  intros [= -> -> -> -> ->]; done.
Qed.

#[global] Instance Feature_eq_dec : EqDecision Feature.
Proof.
  intros f g. destruct (Feature_eqb f g) eqn:E.
  - left. by apply Feature_eqb_eq.
  - right. intros H. apply Feature_eqb_eq in H. congruence.
Defined.

(** ** Dependency resolution *)

(** [if x not in l: l.append(x)] *)
Definition append_if_absent (l : list Feature) (x : Feature) : list Feature :=
  if decide (x ∈ l) then l else l ++ [x].

(** One iteration of the outer loop of [_get_dependent_features]: the inputs
    of [feature] in order, then [feature] itself. *)
Definition add_feature (dependent_features : list Feature) (feature : Feature)
  : list Feature :=
  append_if_absent
    (foldl append_if_absent dependent_features (input_features feature))
    feature.

(** [FlinkTableBuilder._get_dependent_features], on the list returned by
    [feature_view.get_resolved_features()]. *)
Definition _get_dependent_features (resolved_features : list Feature)
  : list Feature :=
  foldl add_feature [] resolved_features.

(** [a] occurs at a smaller index than [b]. *)
Definition precedes (l : list Feature) (a b : Feature) : Prop :=
  ∃ i j, l !! i = Some a ∧ l !! j = Some b ∧ i < j.

(** Every input of an input of a declared feature, at any depth. *)
Inductive transitive_input : Feature → Feature → Prop :=
| ti_direct f g : g ∈ input_features f → transitive_input f g
| ti_step f g h :
    g ∈ input_features f → transitive_input g h → transitive_input f h.

Module DependencyExamples.
Definition leaf (n : string) : Feature :=
  mkFeature n "Int64" (ExpressionTransform "x") None [].
Definition h := leaf "h".
Definition g := mkFeature "g" "Int64" (ExpressionTransform "h + 1") None [h].
Definition f := mkFeature "f" "Int64" (ExpressionTransform "g + 1") None [g].
(** [e] reads [f]; [f] reads [g]; both [e] and [f] are declared. *)
Definition e := mkFeature "e" "Int64" (ExpressionTransform "f + 1") None [f].
End DependencyExamples.


(** ** Table descriptors *)

(** The [TableDescriptor] hierarchy.  [FeatureTable] is a physical source;
    [DerivedFeatureView] and [SlidingFeatureView] are the two [FeatureView]
    subclasses the builder compiles; [OtherTableDescriptor] stands for any
    other subclass ([feature_view] tells whether it derives from
    [FeatureView]).  [unresolved] is the answer of [is_unresolved()]. *)
Inductive TableDescriptor :=
| FeatureTable (table_name : string) (schema : list string)
    (timestamp_field : option string) (timestamp_format : string)
| DerivedFeatureView (view_name : string) (view_source : TableDescriptor)
    (features : list Feature) (keep_source_fields : bool)
    (timestamp_field : option string) (timestamp_format : string)
    (unresolved : bool)
| SlidingFeatureView (view_name : string) (view_source : TableDescriptor)
    (features : list Feature) (keep_source_fields : bool)
    (timestamp_field : option string) (timestamp_format : string)
    (unresolved : bool)
| OtherTableDescriptor (type_name : string) (descriptor_name : string)
    (timestamp_field : option string) (feature_view : bool)
    (unresolved : bool).

#[global] Instance TableDescriptor_eq_dec : EqDecision TableDescriptor.
Proof. solve_decision. Defined.

(** [features.name] *)
Definition descriptor_name (d : TableDescriptor) : string :=
  match d with
  | FeatureTable n _ _ _ => n
  | DerivedFeatureView n _ _ _ _ _ _ => n
  | SlidingFeatureView n _ _ _ _ _ _ => n
  | OtherTableDescriptor _ n _ _ _ => n
  end.

(** [features.timestamp_field] *)
Definition timestamp_field (d : TableDescriptor) : option string :=
  match d with
  | FeatureTable _ _ ts _ => ts
  | DerivedFeatureView _ _ _ _ ts _ _ => ts
  | SlidingFeatureView _ _ _ _ ts _ _ => ts
  | OtherTableDescriptor _ _ ts _ _ => ts
  end.

(** [feature_view.timestamp_format] *)
Definition timestamp_format (d : TableDescriptor) : string :=
  match d with
  | FeatureTable _ _ _ fmt => fmt
  | DerivedFeatureView _ _ _ _ _ fmt _ => fmt
  | SlidingFeatureView _ _ _ _ _ fmt _ => fmt
  | OtherTableDescriptor _ _ _ _ _ => "epoch"
  end.

(** [isinstance(features, FeatureView)] *)
Definition is_feature_view (d : TableDescriptor) : bool :=
  match d with
  | FeatureTable _ _ _ _ => false
  | DerivedFeatureView _ _ _ _ _ _ _ => true
  | SlidingFeatureView _ _ _ _ _ _ _ => true
  | OtherTableDescriptor _ _ _ fv _ => fv
  end.

(** [features.is_unresolved()] *)
Definition is_unresolved (d : TableDescriptor) : bool :=
  match d with
  | FeatureTable _ _ _ _ => false
  | DerivedFeatureView _ _ _ _ _ _ u => u
  | SlidingFeatureView _ _ _ _ _ _ u => u
  | OtherTableDescriptor _ _ _ _ u => u
  end.

(** [feature_view.get_resolved_features()], of a resolved view.  Only
    [build] reads [unresolved]: below it, the views are taken as resolved
    (the method raises on an unresolved one). *)
Definition get_resolved_features (d : TableDescriptor) : list Feature :=
  match d with
  | DerivedFeatureView _ _ fs _ _ _ _ => fs
  | SlidingFeatureView _ _ fs _ _ _ _ => fs
  | _ => []
  end.

(** [feature_view.source]; only views have one, and that of a resolved
    view is a descriptor. *)
Definition source (d : TableDescriptor) : option TableDescriptor :=
  match d with
  | DerivedFeatureView _ src _ _ _ _ _ => Some src
  | SlidingFeatureView _ src _ _ _ _ _ => Some src
  | _ => None
  end.

(** [pd.DataFrame]: column names and rows of cells. *)
Record DataFrame := mkDataFrame {
  columns : list string;
  values : list (list string)
}.

(** What [_get_table] accepts: [Union[TableDescriptor, pd.DataFrame]]. *)
Inductive Features :=
| DataFrameInput (df : DataFrame)
| DescriptorInput (d : TableDescriptor).

(** ** Field descriptors of the batching maps *)

(** Modelled from the spec: [AggregationFieldDescriptor], derived from a
    windowed feature by [from_feature]: the output field name and type, the
    aggregated expression and the aggregation function.  The class lives in
    [aggregation_utils]. *)
Record AggregationFieldDescriptor := mkAggregationFieldDescriptor {
  field_name : string;
  field_data_type : DType;
  agg_expr : string;
  aggregation_function : string
}.

Definition AggregationFieldDescriptor_from_feature (feature : Feature)
  : AggregationFieldDescriptor :=
  match transform feature with
  | OverWindowTransform e a _ | SlidingWindowTransform e a _ =>
      mkAggregationFieldDescriptor (name feature) (dtype feature) e a
  | _ => mkAggregationFieldDescriptor (name feature) (dtype feature) "" ""
  end.

(** [OverWindowDescriptor.from_over_window_transform] and
    [SlidingWindowDescriptor.from_sliding_window_transform]: the shape of the
    transform. *)
Definition from_over_window_transform (w : OverWindowDescriptor)
  : OverWindowDescriptor := w.
Definition from_sliding_window_transform (w : SlidingWindowDescriptor)
  : SlidingWindowDescriptor := w.

(** Modelled from the spec: [JoinFieldDescriptor], the role of one right-table
    field in a join batch: a passthrough field ([from_field_name]) or a pulled
    value carrying an optional valid time.  The class lives in [join_utils]. *)
Record JoinFieldDescriptor := mkJoinFieldDescriptor {
  join_field_name : string;
  valid_time : option timedelta
}.

Definition JoinFieldDescriptor_from_field_name (field : string)
  : JoinFieldDescriptor := mkJoinFieldDescriptor field None.

(** [FlinkTableBuilder._get_feature_valid_time]: the step size of the sliding
    window that computes [feature_name] in a [SlidingFeatureView]. *)
Definition _get_feature_valid_time (table_descriptor : TableDescriptor)
    (feature_name : string) : option timedelta :=
  match table_descriptor with
  | SlidingFeatureView _ _ fs _ _ _ _ =>
      match list_find (λ f, name f = feature_name) fs with
      | Some (_, f) =>
          match transform f with
          | SlidingWindowTransform _ _ w => Some (step_size w)
          | _ => None
          end
      | None => None
      end
  | _ => None
  end.

Definition JoinFieldDescriptor_from_table_descriptor_and_field_name
    (table_descriptor : TableDescriptor) (field : string)
  : JoinFieldDescriptor :=
  mkJoinFieldDescriptor field (_get_feature_valid_time table_descriptor field).

(** ** Datetimes and the formatting of range bounds *)

(** Python [datetime]: calendar fields down to the microsecond. *)
Record datetime := mkDatetime {
  year : nat; month : nat; day : nat;
  hour : nat; minute : nat; second : nat;
  microsecond : nat
}.

(** The bounds the range filter is studied for: the fields within the
    limits Python guarantees, and a year of four digits.  [strftime] writes
    an earlier year with fewer digits; how the engine reads such a literal
    is not modelled. *)
Definition valid_datetime (d : datetime) : Prop :=
  (10 * 100 ≤ year d ∧ year d < 100 * 100 ∧ month d ≤ 12 ∧ day d ≤ 31
   ∧ hour d ≤ 23 ∧ minute d ≤ 59 ∧ second d ≤ 59
   ∧ microsecond d < 1000 * 1000)%nat.

Definition digit_char (n : nat) : Ascii.ascii :=
  Ascii.ascii_of_nat (48 + n `mod` 10)%nat.

(** Zero-padded decimal of fixed width, as [%m], [%d], [%H], [%M] and [%S]
    (width 2) print. *)
Fixpoint zero_padded (width n : nat) : string :=
  match width with
  | 0 => ""
  | S w => zero_padded w (n `div` 10)%nat +:+ String (digit_char n) ""
  end.

(** Decimal without padding, of at most [fuel] digits. *)
Fixpoint decimal (fuel n : nat) : string :=
  match fuel with
  | 0 => ""
  | S fuel' =>
      (if decide (n < 10)%nat then "" else decimal fuel' (n `div` 10)%nat)
      +:+ String (digit_char n) ""
  end.

(** [%Y]: the year as the C library prints it, without padding, so with
    fewer than four digits before the year 1000. *)
Definition unpadded_year (n : nat) : string := decimal (S n) n.

(** [d.strftime("%Y-%m-%d %H:%M:%S")] *)
Definition strftime (d : datetime) : string :=
  unpadded_year (year d) +:+ "-" +:+ zero_padded 2 (month d) +:+ "-"
  +:+ zero_padded 2 (day d) +:+ " " +:+ zero_padded 2 (hour d) +:+ ":"
  +:+ zero_padded 2 (minute d) +:+ ":" +:+ zero_padded 2 (second d).

(** The same instant with the sub-second part cleared. *)
Definition truncate_to_second (d : datetime) : datetime :=
  mkDatetime (year d) (month d) (day d) (hour d) (minute d) (second d) 0.

(** ** Native Flink tables as plan terms *)

(** Table API expressions the builder creates. *)
Inductive Expr :=
| col (field : string)
| lit (value : string)
| to_timestamp (e : Expr)
| ge (a b : Expr)
| lt (a b : Expr)
| call_sql (sql : string)
| cast (e : Expr) (flink_type : string).

(** A [NativeFlinkTable] is a lazy plan.  The first group of constructors are
    methods of the Table API; the second group are the results of the Feathub
    helpers the builder calls ([get_table_from_source], [join_table_on_key],
    [evaluate_over_window_transform], [temporal_join],
    [evaluate_sliding_window_transform],
    [full_outer_join_on_key_with_default_value]). *)
Inductive Table :=
| from_pandas (df : DataFrame)
| select (t : Table) (fields : list string)
| filter_rows (t : Table) (predicate : Expr)
| drop_columns (t : Table) (field : string)
| add_columns (t : Table) (e : Expr) (alias : string)
| add_or_replace_columns (t : Table) (e : Expr) (alias : string)
| get_table_from_source (d : TableDescriptor)
| join_table_on_key (key_table t : Table) (key_fields : list string)
| evaluate_over_window_transform (t : Table) (w : OverWindowDescriptor)
    (aggs : list AggregationFieldDescriptor)
| temporal_join (left right : Table) (key_fields : list string)
    (right_fields : list (string * JoinFieldDescriptor))
| evaluate_sliding_window_transform (t : Table) (w : SlidingWindowDescriptor)
    (aggs : list AggregationFieldDescriptor)
| full_outer_join_on_key_with_default_value (left right : Table)
    (key_fields : list string)
    (field_default_value : list (string * (string * string))).

(** ** Collaborators outside this file *)

(** What the builder needs from code that is not part of this file: the
    constant naming the internal event-time column, the registry, the views'
    own [get_output_fields], the type and date-format translations, the
    default values of aggregations, and the schemas of the tables the Feathub
    helpers return. *)
Class Collaborators := {
  EVENT_TIME_ATTRIBUTE_NAME : string;
  registry_get_features : string → option TableDescriptor;
  get_output_fields : TableDescriptor → list string → list string;
  to_flink_type : DType → string;
  to_java_date_format : string → string;
  get_default_value_and_type : AggregationFieldDescriptor → string * string;
  helper_field_names : Table → list string
}.

(** ** Ordered dictionaries *)

(** Python dicts keep insertion order, and the join and window batches are
    iterated in that order; they are modelled by association lists without
    duplicate keys. *)
Section dict.
Context {K V : Type} `{EqDecision K}.

(** [d.get(k)] *)
Fixpoint dict_get (d : list (K * V)) (k : K) : option V :=
  match d with
  | [] => None
  | (k', v) :: d' => if decide (k = k') then Some v else dict_get d' k
  end.

(** [d[k] = v]: overwrite in place, or append a new entry. *)
Fixpoint dict_set (d : list (K * V)) (k : K) (v : V) : list (K * V) :=
  match d with
  | [] => [(k, v)]
  | (k', v') :: d' =>
      if decide (k = k') then (k, v) :: d' else (k', v') :: dict_set d' k v
  end.

(** [d.keys()] *)
Definition dict_keys (d : list (K * V)) : list K := d.*1.
End dict.

(** ** Session state and exceptions *)

(** One constructor per [raise] of the builder, plus the failures of the
    lookups it performs ([registry.get_features], [descriptors_by_names[..]],
    [feature_view.source]), Python's recursion limit, and the refusal by
    the Table API of an added column whose name the table already has. *)
Inductive Error :=
| UnresolvedFeatureView
| MissingTimestampField
| KeyNotInTableFields (field : string)
| DifferentTableDescriptorSameName (descriptor : string)
| UnsupportedType (type_name : string)
| OverWindowWithoutTimestampField
| JoinWithoutKey (feature : string)
| SourceTableWithoutJoinKeys (join_keys : list string)
| JoinWithoutTimestampField (right_table : string)
| UnsupportedTransformation (feature : string)
| SlidingWindowWithoutTimestampField
| RegistryLookupError (descriptor : string)
| KeyError (key : string)
| AttributeError (attribute : string)
| RecursionError
| AmbiguousColumnName (field : string).

Inductive result (A : Type) :=
| Raise (e : Error)
| Return (a : A).
Arguments Raise {A} e.
Arguments Return {A} a.

(** The mutable part of a [FlinkTableBuilder]: the cache [_built_tables] and,
    to count what was compiled, the log of helper calls issued so far. *)
Record BuilderState := mkBuilderState {
  _built_tables : gmap string (TableDescriptor * Table);
  helper_calls : list Table
}.

(** A builder method: it may raise, and the state it has mutated up to that
    point survives the exception. *)
Definition M (A : Type) : Type := BuilderState → result A * BuilderState.

Definition ret {A} (a : A) : M A := λ st, (Return a, st).
Definition raise {A} (e : Error) : M A := λ st, (Raise e, st).
Definition bind {A B} (m : M A) (k : A → M B) : M B :=
  λ st, match m st with
        | (Return a, st') => k a st'
        | (Raise e, st') => (Raise e, st')
        end.
Definition lift {A} (r : result A) : M A := λ st, (r, st).

Notation "x ←M m ; k" := (bind m (λ x, k))
  (at level 100, m at next level, right associativity,
   format "x  ←M  m ;  '/' k").

(** Call a Feathub helper: the plan node it returns is logged. *)
Definition call_helper (t : Table) : M Table :=
  λ st, (Return t, mkBuilderState (_built_tables st) (helper_calls st ++ [t])).

(** [self._built_tables[name] = (descriptor, table)] *)
Definition cache_store (d : TableDescriptor) (t : Table) : M unit :=
  λ st, (Return (),
         mkBuilderState (<[descriptor_name d := (d, t)]> (_built_tables st))
                        (helper_calls st)).

(** A [for] loop whose body may raise. *)
Fixpoint for_each {S A} (body : S → A → result S) (s : S) (l : list A)
  : result S :=
  match l with
  | [] => Return s
  | a :: l' =>
      match body s a with
      | Raise e => Raise e
      | Return s' => for_each body s' l'
      end
  end.

(** A [for] loop whose body may raise and mutate the builder. *)
Fixpoint for_each_M {S A} (body : S → A → M S) (s : S) (l : list A) : M S :=
  match l with
  | [] => ret s
  | a :: l' => s' ←M body s a; for_each_M body s' l'
  end.

(** State of the dispatch loop of [_get_table_from_derived_feature_view]. *)
Record DerivedLoopState := mkDerivedLoopState {
  tmp_table : Table;
  window_agg_map :
    list (OverWindowDescriptor * list AggregationFieldDescriptor);
  right_tables :
    list ((string * list string) * list (string * JoinFieldDescriptor))
}.

(** State of the dispatch loop of [_get_table_from_sliding_feature_view]. *)
Record SlidingLoopState := mkSlidingLoopState {
  sliding_tmp_table : Table;
  sliding_window_agg_map :
    list (SlidingWindowDescriptor * list AggregationFieldDescriptor)
}.

(** [s.replace("'", "''")] *)
Fixpoint escape_single_quote (s : string) : string :=
  match s with
  | EmptyString => EmptyString
  | String c s' =>
      if decide (c = Ascii.ascii_of_nat 39) then String c (String c (escape_single_quote s'))
      else String c (escape_single_quote s')
  end.

(** [JoinTransform.table_name] of the join features of a list. *)
Definition join_table_names (fs : list Feature) : list string :=
  omap (λ f, match transform f with
             | JoinTransform table_name _ => Some table_name
             | _ => None
             end) fs.

(** ** The builder *)

Section Builder.
Context `{env : Collaborators}.

(** [table.get_schema().get_field_names()] *)
Fixpoint get_field_names (t : Table) : list string :=
  match t with
  | from_pandas df => columns df
  | select _ fields => fields
  | filter_rows t' _ => get_field_names t'
  | drop_columns t' field =>
      filter (λ f, f ≠ field) (get_field_names t')
  | add_columns t' _ alias => get_field_names t' ++ [alias]
  | add_or_replace_columns t' _ alias =>
      if decide (alias ∈ get_field_names t') then get_field_names t'
      else get_field_names t' ++ [alias]
  | _ => helper_field_names t
  end.

(** [FlinkTableBuilder._evaluate_expression_transform] *)
Definition _evaluate_expression_transform (source_table : Table)
    (transform_expr : string) (result_field_name : string)
    (result_type : DType) : Table :=
  let result_type := to_flink_type result_type in
  add_or_replace_columns source_table
    (cast (call_sql transform_expr) result_type) result_field_name.

(** [FlinkTableBuilder._range_table_by_time] *)
Definition _range_table_by_time (table : Table)
    (start_datetime end_datetime : option datetime) : Table :=
  let table :=
    match start_datetime with
    | Some start_datetime =>
        filter_rows table
          (ge (col EVENT_TIME_ATTRIBUTE_NAME)
              (to_timestamp (lit (strftime start_datetime))))
    | None => table
    end in
  match end_datetime with
  | Some end_datetime =>
      filter_rows table
        (lt (col EVENT_TIME_ATTRIBUTE_NAME)
            (to_timestamp (lit (strftime end_datetime))))
  | None => table
  end.

(** [FlinkTableBuilder._get_output_fields] *)
Definition _get_output_fields (feature_view : TableDescriptor)
    (source_fields : list string) : list string :=
  let output_fields := get_output_fields feature_view source_fields in
  if decide (EVENT_TIME_ATTRIBUTE_NAME ∈ output_fields) then output_fields
  else output_fields ++ [EVENT_TIME_ATTRIBUTE_NAME].

(** The [OverWindowTransform] branch of the dispatch loop:
    [window_agg_map.setdefault(descriptor, []).append(...)]. *)
Definition add_window_agg
    (window_agg_map :
       list (OverWindowDescriptor * list AggregationFieldDescriptor))
    (feature : Feature) (w : OverWindowDescriptor)
  : list (OverWindowDescriptor * list AggregationFieldDescriptor) :=
  let key := from_over_window_transform w in
  let window_aggs := default [] (dict_get window_agg_map key) in
  dict_set window_agg_map key
    (window_aggs ++ [AggregationFieldDescriptor_from_feature feature]).

(** The [JoinTransform] branch of the dispatch loop, after its checks: the
    batch [(table_name, tuple(feature.keys))] receives the descriptors of
    the keys, of the right timestamp field, of the event-time column and of
    the requested field. *)
Definition add_join_fields
    (right_tables :
       list ((string * list string) * list (string * JoinFieldDescriptor)))
    (feature_keys : list string) (table_name feature_name : string)
    (right_table_descriptor : TableDescriptor)
    (right_timestamp_field : string)
  : list ((string * list string) * list (string * JoinFieldDescriptor)) :=
  let batch := (table_name, feature_keys) in
  let fds := default [] (dict_get right_tables batch) in
  let fds := foldl
    (λ d key, dict_set d key (JoinFieldDescriptor_from_field_name key))
    fds feature_keys in
  let fds := dict_set fds right_timestamp_field
    (JoinFieldDescriptor_from_field_name right_timestamp_field) in
  let fds := dict_set fds EVENT_TIME_ATTRIBUTE_NAME
    (JoinFieldDescriptor_from_field_name EVENT_TIME_ATTRIBUTE_NAME) in
  let fds := dict_set fds feature_name
    (JoinFieldDescriptor_from_table_descriptor_and_field_name
       right_table_descriptor feature_name) in
  dict_set right_tables batch fds.

(** Body of the dispatch loop of [_get_table_from_derived_feature_view]. *)
Definition derived_dispatch (feature_view : TableDescriptor)
    (source_table : Table)
    (descriptors_by_names : list (string * TableDescriptor))
    (s : DerivedLoopState) (feature : Feature) : result DerivedLoopState :=
  if decide (name feature ∈ get_field_names (tmp_table s)) then Return s
  else
    match transform feature with
    | ExpressionTransform e =>
        Return (mkDerivedLoopState
          (_evaluate_expression_transform (tmp_table s) e (name feature)
             (dtype feature))
          (window_agg_map s) (right_tables s))
    | OverWindowTransform _ _ w =>
        match timestamp_field feature_view with
        | None => Raise OverWindowWithoutTimestampField
        | Some _ =>
            Return (mkDerivedLoopState (tmp_table s)
              (add_window_agg (window_agg_map s) feature w)
              (right_tables s))
        end
    | JoinTransform table_name feature_name =>
        match keys feature with
        | None => Raise (JoinWithoutKey (name feature))
        | Some feature_keys =>
            if forallb
                 (λ key, bool_decide (key ∈ get_field_names source_table))
                 feature_keys
            then
              match dict_get descriptors_by_names table_name with
              | None => Raise (KeyError table_name)
              | Some right_table_descriptor =>
                  match timestamp_field right_table_descriptor with
                  | None =>
                      Raise (JoinWithoutTimestampField
                               (descriptor_name right_table_descriptor))
                  | Some right_timestamp_field =>
                      Return (mkDerivedLoopState (tmp_table s)
                        (window_agg_map s)
                        (add_join_fields (right_tables s) feature_keys
                           table_name feature_name right_table_descriptor
                           right_timestamp_field))
                  end
              end
            else Raise (SourceTableWithoutJoinKeys feature_keys)
        end
    | _ => Raise (UnsupportedTransformation (name feature))
    end.

(** The loop over [window_agg_map.items()]: one
    [evaluate_over_window_transform] per entry. *)
Definition evaluate_over_windows (tmp : Table)
    (window_agg_map :
       list (OverWindowDescriptor * list AggregationFieldDescriptor))
  : M Table :=
  for_each_M
    (λ tmp '(over_window_descriptor, agg_descriptor),
       call_helper (evaluate_over_window_transform tmp
                      over_window_descriptor agg_descriptor))
    tmp window_agg_map.

(** The loop over [right_tables.items()]: the right table is projected to
    the keys of the batch's field-descriptor map, then one [temporal_join]
    is issued. *)
Definition evaluate_temporal_joins (table_by_names : list (string * Table))
    (tmp : Table)
    (right_tables :
       list ((string * list string) * list (string * JoinFieldDescriptor)))
  : M Table :=
  for_each_M
    (λ tmp '((right_table_name, join_keys), field_descriptors),
       match dict_get table_by_names right_table_name with
       | None => raise (KeyError right_table_name)
       | Some t =>
           let right_table := select t (dict_keys field_descriptors) in
           call_helper (temporal_join tmp right_table join_keys
                          field_descriptors)
       end)
    tmp right_tables.

(** The loop [for name in table_names]: look each joined table up in the
    registry and compile it.  [table_names] is a Python [set]; its
    iteration order is unspecified, and one order without repetition is
    taken here. *)
Definition compile_join_tables (_get_table : Features → M Table)
    (table_names : list string)
  : M (list (string * TableDescriptor) * list (string * Table)) :=
  for_each_M
    (λ '(descriptors_by_names, table_by_names) table_name,
       match registry_get_features table_name with
       | None => raise (RegistryLookupError table_name)
       | Some descriptor =>
           t ←M _get_table (DescriptorInput descriptor);
           ret (dict_set descriptors_by_names table_name descriptor,
                dict_set table_by_names table_name t)
       end)
    ([], []) table_names.

(** [FlinkTableBuilder._get_table_from_derived_feature_view]; the recursive
    calls to [self._get_table] go through the first argument. *)
Definition _get_table_from_derived_feature_view
    (_get_table : Features → M Table) (feature_view : TableDescriptor)
  : M Table :=
  match source feature_view with
  | None => raise (AttributeError "source")
  | Some view_source =>
      source_table ←M _get_table (DescriptorInput view_source);
      let source_fields := get_field_names source_table in
      let dependent_features :=
        _get_dependent_features (get_resolved_features feature_view) in
      let table_names :=
        remove_dups (join_table_names (get_resolved_features feature_view)) in
      compiled ←M compile_join_tables _get_table table_names;
      let '(descriptors_by_names, table_by_names) := compiled in
      s ←M lift (for_each
                   (derived_dispatch feature_view source_table
                      descriptors_by_names)
                   (mkDerivedLoopState source_table [] [])
                   dependent_features);
      tmp ←M evaluate_over_windows (tmp_table s) (window_agg_map s);
      tmp ←M evaluate_temporal_joins table_by_names tmp (right_tables s);
      let output_fields := _get_output_fields feature_view source_fields in
      ret (select tmp output_fields)
  end.

(** Body of the dispatch loop of [_get_table_from_sliding_feature_view]. *)
Definition sliding_dispatch (feature_view : TableDescriptor)
    (s : SlidingLoopState) (feature : Feature) : result SlidingLoopState :=
  if decide (name feature ∈ get_field_names (sliding_tmp_table s))
  then Return s
  else
    match transform feature with
    | ExpressionTransform e =>
        Return (mkSlidingLoopState
          (_evaluate_expression_transform (sliding_tmp_table s) e
             (name feature) (dtype feature))
          (sliding_window_agg_map s))
    | SlidingWindowTransform _ _ w =>
        match timestamp_field feature_view with
        | None => Raise SlidingWindowWithoutTimestampField
        | Some _ =>
            let key := from_sliding_window_transform w in
            let window_aggs :=
              default [] (dict_get (sliding_window_agg_map s) key) in
            Return (mkSlidingLoopState (sliding_tmp_table s)
              (dict_set (sliding_window_agg_map s) key
                 (window_aggs
                    ++ [AggregationFieldDescriptor_from_feature feature])))
        end
    | _ => Raise (UnsupportedTransformation (name feature))
    end.

(** The loop over [sliding_window_agg_map.items()]: one aggregate table per
    window descriptor, merged by full outer joins with default values. *)
Definition evaluate_sliding_windows (tmp_table : Table)
    (sliding_window_agg_map :
       list (SlidingWindowDescriptor * list AggregationFieldDescriptor))
  : M (option Table * list (string * (string * string))) :=
  for_each_M
    (λ '(agg_table, field_default_value) '(window_descriptor, agg_descriptors),
       let field_default_value :=
         foldl (λ d agg_descriptor,
                  dict_set d (field_name agg_descriptor)
                    (get_default_value_and_type agg_descriptor))
               field_default_value agg_descriptors in
       tmp_agg_table ←M call_helper
         (evaluate_sliding_window_transform tmp_table window_descriptor
            agg_descriptors);
       match agg_table with
       | None => ret (Some tmp_agg_table, field_default_value)
       | Some agg_table =>
           let join_keys :=
             group_by_keys window_descriptor ++ [EVENT_TIME_ATTRIBUTE_NAME] in
           joined ←M call_helper
             (full_outer_join_on_key_with_default_value agg_table
                tmp_agg_table join_keys field_default_value);
           ret (Some joined, field_default_value)
       end)
    (None, []) sliding_window_agg_map.

(** [table.add_columns(e.alias(name))]: the Table API adds a new column,
    and raises when the table already has a column of that name. *)
Definition Table_add_columns (table : Table) (e : Expr) (alias : string)
  : result Table :=
  if decide (alias ∈ get_field_names table)
  then Raise (AmbiguousColumnName alias)
  else Return (add_columns table e alias).

(** The expression that derives the timestamp field of a sliding view from
    the event time, according to the timestamp format of the view. *)
Definition timestamp_field_expr (feature_view : TableDescriptor) : Expr :=
  if decide (timestamp_format feature_view = "epoch") then
    call_sql ("UNIX_TIMESTAMP(CAST(`" +:+ EVENT_TIME_ATTRIBUTE_NAME
              +:+ "` AS STRING))")
  else
    let java_datetime_format :=
      escape_single_quote
        (to_java_date_format (timestamp_format feature_view)) in
    call_sql ("DATE_FORMAT(`" +:+ EVENT_TIME_ATTRIBUTE_NAME +:+ "`, '"
              +:+ java_datetime_format +:+ "')").

(** The timestamp field of a sliding view, added as a column. *)
Definition add_timestamp_field (feature_view : TableDescriptor)
    (tmp_table : Table) : result Table :=
  match timestamp_field feature_view with
  | None => Return tmp_table
  | Some ts =>
      Table_add_columns tmp_table (timestamp_field_expr feature_view) ts
  end.

(** [FlinkTableBuilder._get_table_from_sliding_feature_view] *)
Definition _get_table_from_sliding_feature_view
    (_get_table : Features → M Table) (feature_view : TableDescriptor)
  : M Table :=
  match source feature_view with
  | None => raise (AttributeError "source")
  | Some view_source =>
      source_table ←M _get_table (DescriptorInput view_source);
      let source_fields := get_field_names source_table in
      let dependent_features :=
        _get_dependent_features (get_resolved_features feature_view) in
      s ←M lift (for_each (sliding_dispatch feature_view)
                   (mkSlidingLoopState source_table [])
                   dependent_features);
      merged ←M evaluate_sliding_windows (sliding_tmp_table s)
                  (sliding_window_agg_map s);
      let tmp_table := default (sliding_tmp_table s) merged.1 in
      tmp_table ←M lift (add_timestamp_field feature_view tmp_table);
      let output_fields := _get_output_fields feature_view source_fields in
      ret (select tmp_table output_fields)
  end.

(** [FlinkTableBuilder._get_table].  [fuel] bounds the depth of the nested
    compilations, as Python's recursion limit does; a cache hit needs
    none. *)
Fixpoint _get_table (fuel : nat) (features : Features) : M Table :=
  match features with
  | DataFrameInput df => call_helper (from_pandas df)
  | DescriptorInput d =>
      λ st,
        match _built_tables st !! descriptor_name d with
        | Some (cached, table) =>
            if decide (d = cached) then (Return table, st)
            else (Raise (DifferentTableDescriptorSameName
                           (descriptor_name d)), st)
        | None =>
            match fuel with
            | 0 => (Raise RecursionError, st)
            | S fuel' =>
                (match d with
                 | FeatureTable _ _ _ _ =>
                     t ←M call_helper (get_table_from_source d);
                     _ ←M cache_store d t; ret t
                 | DerivedFeatureView _ _ _ _ _ _ _ =>
                     t ←M _get_table_from_derived_feature_view
                            (_get_table fuel') d;
                     _ ←M cache_store d t; ret t
                 | SlidingFeatureView _ _ _ _ _ _ _ =>
                     t ←M _get_table_from_sliding_feature_view
                            (_get_table fuel') d;
                     _ ←M cache_store d t; ret t
                 | OtherTableDescriptor type_name _ _ _ _ =>
                     raise (UnsupportedType type_name)
                 end) st
            end
        end
  end.

(** [FlinkTableBuilder._filter_table_by_keys] *)
Definition _filter_table_by_keys (fuel : nat) (table : Table)
    (keys : option Features) : M Table :=
  match keys with
  | None => ret table
  | Some keys =>
      key_table ←M _get_table fuel keys;
      match list_find (λ field_name, field_name ∉ get_field_names table)
              (get_field_names key_table) with
      | Some (_, field_name) => raise (KeyNotInTableFields field_name)
      | None =>
          call_helper (join_table_on_key key_table table
                         (get_field_names key_table))
      end
  end.

(** [FlinkTableBuilder.build] *)
Definition build (fuel : nat) (features : TableDescriptor)
    (keys : option Features) (start_datetime end_datetime : option datetime)
  : M Table :=
  if is_feature_view features && is_unresolved features
  then raise UnresolvedFeatureView
  else
    table ←M _get_table fuel (DescriptorInput features);
    table ←M match keys with
             | Some _ => _filter_table_by_keys fuel table keys
             | None => ret table
             end;
    table ←M (if bool_decide (start_datetime ≠ None ∨ end_datetime ≠ None)
              then match timestamp_field features with
                   | None => raise MissingTimestampField
                   | Some _ =>
                       ret (_range_table_by_time table start_datetime
                              end_datetime)
                   end
              else ret table);
    ret (if decide (EVENT_TIME_ATTRIBUTE_NAME ∈ get_field_names table)
         then drop_columns table EVENT_TIME_ATTRIBUTE_NAME
         else table).

End Builder.

(** Python exception classes raised by the builder, and the class of the
    errors that come from the Table API. *)
Inductive ExceptionClass :=
| FeathubException
| FeathubTransformationException
| PythonBuiltinException
| TableApiException.

Definition exception_class (e : Error) : ExceptionClass :=
  match e with
  | UnsupportedTransformation _ => FeathubTransformationException
  | RegistryLookupError _ | KeyError _ | AttributeError _ | RecursionError =>
      PythonBuiltinException
  | AmbiguousColumnName _ => TableApiException
  | _ => FeathubException
  end.

(** ** A concrete environment

    One instance of the collaborators, used to run the builder on concrete
    descriptors. *)
Module Examples.
Definition event_time : string := "__event_time_attribute__".

(** Schemas of the helper results: a source scan yields the declared
    schema plus the event-time column, aggregations and joins add their
    output columns. *)
Fixpoint field_names (t : Table) : list string :=
  match t with
  | from_pandas df => columns df
  | select _ fields => fields
  | filter_rows t' _ => field_names t'
  | drop_columns t' field => filter (λ f, f ≠ field) (field_names t')
  | add_columns t' _ alias => field_names t' ++ [alias]
  | add_or_replace_columns t' _ alias =>
      if decide (alias ∈ field_names t') then field_names t'
      else field_names t' ++ [alias]
  | get_table_from_source d =>
      match d with
      | FeatureTable _ schema _ _ => schema ++ [event_time]
      | _ => [event_time]
      end
  | join_table_on_key _ t' _ => field_names t'
  | evaluate_over_window_transform t' _ aggs =>
      field_names t' ++ (field_name <$> aggs)
  | temporal_join l _ _ right_fields =>
      field_names l
      ++ filter (λ f, f ∉ field_names l) (dict_keys right_fields)
  | evaluate_sliding_window_transform _ w aggs =>
      group_by_keys w ++ (field_name <$> aggs) ++ [event_time]
  | full_outer_join_on_key_with_default_value l r _ _ =>
      field_names l ++ filter (λ f, f ∉ field_names l) (field_names r)
  end.

Definition users : TableDescriptor :=
  FeatureTable "users" ["user_id"; "spend"; "time"] (Some "time")
    "%Y-%m-%d %H:%M:%S".
Definition items : TableDescriptor :=
  FeatureTable "items" ["item_id"; "price"; "time"] (Some "time")
    "%Y-%m-%d %H:%M:%S".
(** Same name as [users], different schema. *)
Definition users' : TableDescriptor :=
  FeatureTable "users" ["user_id"; "time"] (Some "time")
    "%Y-%m-%d %H:%M:%S".
(** A table of user profiles, keyed by [user_id]. *)
Definition profiles : TableDescriptor :=
  FeatureTable "profiles" ["user_id"; "age"; "city"; "time"] (Some "time")
    "%Y-%m-%d %H:%M:%S".

Definition registry : list (string * TableDescriptor) :=
  [("users", users); ("items", items); ("profiles", profiles)].

#[export] Instance env : Collaborators := {|
  EVENT_TIME_ATTRIBUTE_NAME := event_time;
  registry_get_features := dict_get registry;
  get_output_fields := λ view source_fields,
    match view with
    | DerivedFeatureView _ _ fs true _ _ _
    | SlidingFeatureView _ _ fs true _ _ _ =>
        source_fields
        ++ filter (λ f, f ∉ source_fields) (remove_dups (name <$> fs))
    | _ => remove_dups (name <$> get_resolved_features view)
    end;
  to_flink_type := λ t, t;
  to_java_date_format := λ fmt, fmt;
  get_default_value_and_type := λ agg, ("0", field_data_type agg);
  helper_field_names := field_names
|}.

Definition empty_state : BuilderState := mkBuilderState ∅ [].

Definition total_spend : Feature :=
  mkFeature "total_spend" "Int64"
    (OverWindowTransform "spend" "SUM"
       (mkOverWindowDescriptor ["user_id"] "time"))
    (Some ["user_id"]) [].
Definition max_spend : Feature :=
  mkFeature "max_spend" "Int64"
    (OverWindowTransform "spend" "MAX"
       (mkOverWindowDescriptor ["user_id"] "time"))
    (Some ["user_id"]) [].
Definition age : Feature :=
  mkFeature "age" "Int64" (JoinTransform "profiles" "age")
    (Some ["user_id"]) [].
Definition city : Feature :=
  mkFeature "city" "String" (JoinTransform "profiles" "city")
    (Some ["user_id"]) [].
Definition double_spend : Feature :=
  mkFeature "double_spend" "Int64" (ExpressionTransform "spend * 2") None [].

Definition user_view : TableDescriptor :=
  DerivedFeatureView "user_view" users
    [double_spend; total_spend; max_spend; age; city] true (Some "time")
    "%Y-%m-%d %H:%M:%S" false.
(** Join features that declare no key, an empty key list, and a key the
    source lacks. *)
Definition age_without_key : Feature :=
  mkFeature "age" "Int64" (JoinTransform "profiles" "age") None [].
Definition age_empty_keys : Feature :=
  mkFeature "age" "Int64" (JoinTransform "profiles" "age") (Some []) [].
Definition age_by_item : Feature :=
  mkFeature "age" "Int64" (JoinTransform "profiles" "age")
    (Some ["item_id"]) [].
Definition empty_keys_view : TableDescriptor :=
  DerivedFeatureView "empty_keys_view" users [age_empty_keys] true
    (Some "time") "%Y-%m-%d %H:%M:%S" false.

Definition unresolved_view : TableDescriptor :=
  DerivedFeatureView "pending_view" users [] true (Some "time")
    "%Y-%m-%d %H:%M:%S" true.
(** The same view once resolved. *)
Definition resolved_view : TableDescriptor :=
  DerivedFeatureView "pending_view" users [] true (Some "time")
    "%Y-%m-%d %H:%M:%S" false.
(** A view that bears the name of its own source. *)
Definition users_view : TableDescriptor :=
  DerivedFeatureView "users" users [double_spend] true (Some "time")
    "%Y-%m-%d %H:%M:%S" false.

(** Two features named like the column [spend] of the source: an
    over-window feature on the window of [total_spend], and a join feature
    in the batch of [age]. *)
Definition spend_sum : Feature :=
  mkFeature "spend" "Int64"
    (OverWindowTransform "spend" "SUM"
       (mkOverWindowDescriptor ["user_id"] "time"))
    (Some ["user_id"]) [].
Definition spend_city : Feature :=
  mkFeature "spend" "String" (JoinTransform "profiles" "city")
    (Some ["user_id"]) [].
Definition window_view : TableDescriptor :=
  DerivedFeatureView "window_view" users [total_spend; spend_sum] true
    (Some "time") "%Y-%m-%d %H:%M:%S" false.
Definition join_view : TableDescriptor :=
  DerivedFeatureView "join_view" users [age; spend_city] true
    (Some "time") "%Y-%m-%d %H:%M:%S" false.

(** A source without timestamp field, and a descriptor of a class the
    builder does not know. *)
Definition untimed : TableDescriptor :=
  FeatureTable "untimed" ["user_id"] None "%Y-%m-%d %H:%M:%S".
Definition other_descriptor : TableDescriptor :=
  OtherTableDescriptor "OnDemandFeatureView" "on_demand" None true false.

(** Keys as a data frame, and as a view that keeps no field of its own. *)
Definition key_frame : DataFrame := mkDataFrame ["user_id"] [["1"]; ["2"]].
Definition key_view : TableDescriptor :=
  DerivedFeatureView "key_view" users [] false (Some "time")
    "%Y-%m-%d %H:%M:%S" false.

(** Two sliding-window features on one window, a third on another. *)
Definition five_minutes : SlidingWindowDescriptor :=
  mkSlidingWindowDescriptor ["user_id"] 300000000%Z 60000000%Z.
Definition one_hour : SlidingWindowDescriptor :=
  mkSlidingWindowDescriptor ["user_id"] 3600000000%Z 60000000%Z.
Definition spend_5m : Feature :=
  mkFeature "spend_5m" "Int64" (SlidingWindowTransform "spend" "SUM" five_minutes)
    (Some ["user_id"]) [].
Definition max_spend_5m : Feature :=
  mkFeature "max_spend_5m" "Int64"
    (SlidingWindowTransform "spend" "MAX" five_minutes) (Some ["user_id"]) [].
Definition spend_1h : Feature :=
  mkFeature "spend_1h" "Int64" (SlidingWindowTransform "spend" "SUM" one_hour)
    (Some ["user_id"]) [].
Definition sliding_view : TableDescriptor :=
  SlidingFeatureView "sliding_view" users
    [double_spend; spend_5m; spend_1h; max_spend_5m] false
    (Some "window_time") "%Y-%m-%d %H:%M:%S" false.
End Examples.

(** ** What the range filter keeps

    The predicates built by [_range_table_by_time] are evaluated by the
    engine; this is the meaning of the Table API operations they use:
    [col] reads a field of the row, [lit(s).to_timestamp] parses
    ["yyyy-MM-dd HH:mm:ss"], and [>=], [<] compare timestamps. *)

Inductive Value :=
| TimestampValue (t : datetime)
| StringValue (s : string)
| BoolValue (b : bool).

Definition Row := list (string * Value).

Fixpoint lex_compare (a b : list nat) : comparison :=
  match a, b with
  | [], [] => Eq
  | [], _ :: _ => Lt
  | _ :: _, [] => Gt
  | x :: a', y :: b' =>
      match Nat.compare x y with
      | Eq => lex_compare a' b'
      | c => c
      end
  end.

Definition datetime_fields (d : datetime) : list nat :=
  [year d; month d; day d; hour d; minute d; second d; microsecond d].

(** [a <= b] and [a < b] on datetimes. *)
Definition datetime_le (a b : datetime) : bool :=
  match lex_compare (datetime_fields a) (datetime_fields b) with
  | Gt => false
  | _ => true
  end.
Definition datetime_lt (a b : datetime) : bool :=
  match lex_compare (datetime_fields a) (datetime_fields b) with
  | Lt => true
  | _ => false
  end.

Definition digit_value (c : Ascii.ascii) : option nat :=
  let n := Ascii.nat_of_ascii c in
  if decide (48 ≤ n ∧ n ≤ 57)%nat then Some (n - 48)%nat else None.

(** The number written by a string of decimal digits. *)
Fixpoint parse_digits (acc : nat) (s : string) : option nat :=
  match s with
  | EmptyString => Some acc
  | String c s' =>
      match digit_value c with
      | Some v => parse_digits (10 * acc + v)%nat s'
      | None => None
      end
  end.

Definition parse_field (s : string) (start len : nat) : option nat :=
  let field := String.substring start len s in
  if decide (String.length field = len) then parse_digits 0 field else None.

Definition separator_at (s : string) (i : nat) (sep : string) : bool :=
  bool_decide (String.substring i 1 s = sep).

(** [to_timestamp] of a literal in the format ["yyyy-MM-dd HH:mm:ss"]. *)
Definition parse_timestamp (s : string) : option datetime :=
  if separator_at s 4 "-" && separator_at s 7 "-" && separator_at s 10 " "
     && separator_at s 13 ":" && separator_at s 16 ":"
     && bool_decide (String.length s = 19)
  then
    y ← parse_field s 0 4; mo ← parse_field s 5 2; d ← parse_field s 8 2;
    h ← parse_field s 11 2; mi ← parse_field s 14 2; sec ← parse_field s 17 2;
    Some (mkDatetime y mo d h mi sec 0)
  else None.

Fixpoint eval_expr (row : Row) (e : Expr) : option Value :=
  match e with
  | col field => dict_get row field
  | lit s => Some (StringValue s)
  | to_timestamp e' =>
      match eval_expr row e' with
      | Some (StringValue s) => TimestampValue <$> parse_timestamp s
      | _ => None
      end
  | ge a b =>
      match eval_expr row a, eval_expr row b with
      | Some (TimestampValue x), Some (TimestampValue y) =>
          Some (BoolValue (datetime_le y x))
      | _, _ => None
      end
  | lt a b =>
      match eval_expr row a, eval_expr row b with
      | Some (TimestampValue x), Some (TimestampValue y) =>
          Some (BoolValue (datetime_lt x y))
      | _, _ => None
      end
  | call_sql _ | cast _ _ => None
  end.

(** A row passes a filter when the predicate evaluates to true. *)
Definition passes (predicate : Expr) (row : Row) : bool :=
  match eval_expr row predicate with
  | Some (BoolValue true) => true
  | _ => false
  end.

(** [drop_columns] on one row. *)
Definition drop_field (field : string) (row : Row) : Row :=
  filter (λ cell, cell.1 ≠ field) row.

(** Rows of a table: [filter] keeps the rows that pass, [drop_columns]
    removes the field from every row; the rows of any other plan are
    whatever the engine produces for it. *)
Fixpoint table_rows (engine_rows : Table → list Row) (t : Table) : list Row :=
  match t with
  | filter_rows t' predicate =>
      List.filter (passes predicate) (table_rows engine_rows t')
  | drop_columns t' field => drop_field field <$> table_rows engine_rows t'
  | _ => engine_rows t
  end.

Section RangeSemantics.
Context `{env : Collaborators}.

(** The event time of a row, when the internal column holds a timestamp. *)
Definition event_time_of (row : Row) : option datetime :=
  match dict_get row EVENT_TIME_ATTRIBUTE_NAME with
  | Some (TimestampValue t) => Some t
  | _ => None
  end.

(** [bound <= event_time] for a given lower bound, [event_time < bound] for
    a given upper bound; no condition for an omitted bound. *)
Definition not_before (bound : option datetime) (row : Row) : bool :=
  match bound with
  | None => true
  | Some d =>
      match event_time_of row with
      | Some t => datetime_le d t
      | None => false
      end
  end.
Definition before (bound : option datetime) (row : Row) : bool :=
  match bound with
  | None => true
  | Some d =>
      match event_time_of row with
      | Some t => datetime_lt t d
      | None => false
      end
  end.
End RangeSemantics.

(** ** Batches of the dispatch loop *)

Section Batches.
Context `{env : Collaborators}.

(** The features the dispatch loop handles: those it does not skip for
    being already a field of the accumulating table. *)
Fixpoint dispatched (feature_view : TableDescriptor) (source_table : Table)
    (descriptors_by_names : list (string * TableDescriptor))
    (s : DerivedLoopState) (l : list Feature) : list Feature :=
  match l with
  | [] => []
  | feature :: l' =>
      match derived_dispatch feature_view source_table descriptors_by_names
              s feature with
      | Raise _ => []
      | Return s' =>
          (if decide (name feature ∈ get_field_names (tmp_table s))
           then [] else [feature])
          ++ dispatched feature_view source_table descriptors_by_names s' l'
      end
  end.

(** The batch a feature belongs to. *)
Definition over_window_of (feature : Feature) : option OverWindowDescriptor :=
  match transform feature with
  | OverWindowTransform _ _ w => Some (from_over_window_transform w)
  | _ => None
  end.
Definition join_batch_of (feature : Feature)
  : option (string * list string) :=
  match transform feature, keys feature with
  | JoinTransform table_name _, Some feature_keys =>
      Some (table_name, feature_keys)
  | _, _ => None
  end.
Definition joined_field_of (feature : Feature) : option string :=
  match transform feature with
  | JoinTransform _ feature_name => Some feature_name
  | _ => None
  end.

(** The timestamp field of a joined table. *)
Definition right_timestamp_field_of
    (descriptors_by_names : list (string * TableDescriptor))
    (table_name : string) : option string :=
  d ← dict_get descriptors_by_names table_name; timestamp_field d.

(** What one dispatched feature adds to the two batching maps. *)
Definition window_step
    (window_agg_map :
       list (OverWindowDescriptor * list AggregationFieldDescriptor))
    (feature : Feature) :=
  match transform feature with
  | OverWindowTransform _ _ w => add_window_agg window_agg_map feature w
  | _ => window_agg_map
  end.
Definition join_step (descriptors_by_names : list (string * TableDescriptor))
    (right_tables :
       list ((string * list string) * list (string * JoinFieldDescriptor)))
    (feature : Feature) :=
  match transform feature, keys feature with
  | JoinTransform table_name feature_name, Some feature_keys =>
      match dict_get descriptors_by_names table_name with
      | Some d =>
          match timestamp_field d with
          | Some ts =>
              add_join_fields right_tables feature_keys table_name
                feature_name d ts
          | None => right_tables
          end
      | None => right_tables
      end
  | _, _ => right_tables
  end.

(** The helper calls issued for the over-window batches and for the join
    batches, in order. *)
Fixpoint over_window_calls (tmp : Table)
    (window_agg_map :
       list (OverWindowDescriptor * list AggregationFieldDescriptor))
  : list Table :=
  match window_agg_map with
  | [] => []
  | (w, aggs) :: rest =>
      let call := evaluate_over_window_transform tmp w aggs in
      call :: over_window_calls call rest
  end.
Fixpoint temporal_join_calls (table_by_names : list (string * Table))
    (tmp : Table)
    (right_tables :
       list ((string * list string) * list (string * JoinFieldDescriptor)))
  : list Table :=
  match right_tables with
  | [] => []
  | ((table_name, join_keys), fds) :: rest =>
      match dict_get table_by_names table_name with
      | None => []
      | Some t =>
          let call :=
            temporal_join tmp (select t (dict_keys fds)) join_keys fds in
          call :: temporal_join_calls table_by_names call rest
      end
  end.

(** The fields a join batch asks of its right table: the join keys, the
    right timestamp field, the event-time column and the requested fields
    of the features of the batch. *)
Definition batch_field
    (descriptors_by_names : list (string * TableDescriptor))
    (table_name : string) (join_keys : list string) (batch : list Feature)
    (x : string) : Prop :=
  x ∈ join_keys
  ∨ right_timestamp_field_of descriptors_by_names table_name = Some x
  ∨ x = EVENT_TIME_ATTRIBUTE_NAME
  ∨ ∃ f, f ∈ batch ∧ joined_field_of f = Some x.

(** The window descriptor an over-window call was issued for. *)
Definition call_window (call : Table) : option OverWindowDescriptor :=
  match call with
  | evaluate_over_window_transform _ w _ => Some w
  | _ => None
  end.

(** A dispatched join feature passed all the checks of its branch. *)
Definition join_checked
    (descriptors_by_names : list (string * TableDescriptor)) f : Prop :=
  ∀ table_name feature_name,
    transform f = JoinTransform table_name feature_name →
    is_Some (keys f)
    ∧ is_Some (right_timestamp_field_of descriptors_by_names table_name).
End Batches.

(** ** Sessions *)

Section Session.
Context `{env : Collaborators}.

(** Every entry of the cache of [st] is an entry of the cache of [st'],
    with the same descriptor and table. *)
Definition cache_preserved (st st' : BuilderState) : Prop :=
  ∀ n v, _built_tables st !! n = Some v → _built_tables st' !! n = Some v.

Definition preserving {A} (m : M A) : Prop :=
  ∀ st r st', m st = (r, st') → cache_preserved st st'.

(** The states a session goes through: every further call to [_get_table]
    or [build], whether it returns or raises, moves the session on. *)
Inductive later_in_session : BuilderState → BuilderState → Prop :=
| session_now st : later_in_session st st
| session_get_table st st1 st2 fuel features r :
    later_in_session st st1 →
    _get_table fuel features st1 = (r, st2) →
    later_in_session st st2
| session_build st st1 st2 fuel features keys start_datetime end_datetime r :
    later_in_session st st1 →
    build fuel features keys start_datetime end_datetime st1 = (r, st2) →
    later_in_session st st2.
End Session.

(** Bounds and rows used to run the range filter. *)
Module RangeExamples.
(** Half a millisecond past midnight, and a row 0.2 ms past midnight. *)
Definition start : datetime := mkDatetime 2022 1 1 0 0 0 500.
Definition early : datetime := mkDatetime 2022 1 1 0 0 0 200.
(** Later than [start], within the same second. *)
Definition same_second : datetime := mkDatetime 2022 1 1 0 0 0 900.
Definition late : datetime := mkDatetime 2022 1 2 0 0 0 0.
Definition row (user_id : string) (t : datetime) : Row :=
  [("user_id", StringValue user_id);
   (Examples.event_time, TimestampValue t)].
Definition scan : Table := get_table_from_source Examples.users.
(** The rows the engine reads: user 1 at [early], user 2 at [late]. *)
Definition engine_rows (t : Table) : list Row :=
  [row "1" early; row "2" late].
End RangeExamples.

(** ** Relations and invariants of the session state *)

(** The state after a helper call was logged, and after a cache write. *)
Definition logged (t : Table) (st : BuilderState) : BuilderState :=
  mkBuilderState (_built_tables st) (helper_calls st ++ [t]).
Definition stored (d : TableDescriptor) (t : Table) (st : BuilderState)
  : BuilderState :=
  mkBuilderState (<[descriptor_name d := (d, t)]> (_built_tables st))
    (helper_calls st).

(** [m] relates the state it stops in, returning or raising, to the state
    it started from. *)
Definition respects (R : relation BuilderState) {A} (m : M A) : Prop :=
  ∀ st r st', m st = (r, st') → R st st'.

(** The relation of an invariant: once it holds, it still holds. *)
Definition keeps (I : BuilderState → Prop) : relation BuilderState :=
  λ st st', I st → I st'.

(** [m] raises only errors that satisfy [P]. *)
Definition raises_only (P : Error → Prop) {A} (m : M A) : Prop :=
  ∀ st e st', m st = (Raise e, st') → P e.

(** The descriptors [_get_table] has a branch for. *)
Definition is_compilable (d : TableDescriptor) : bool :=
  match d with
  | OtherTableDescriptor _ _ _ _ _ => false
  | _ => true
  end.

(** The name of the source a helper call scans, for a call of
    [get_table_from_source]. *)
Definition scanned_name (t : Table) : option string :=
  match t with
  | get_table_from_source d => Some (descriptor_name d)
  | _ => None
  end.

(** The log of helper calls only grows. *)
Definition log_extended (st st' : BuilderState) : Prop :=
  helper_calls st `prefix_of` helper_calls st'.

(** Every entry of the cache sits under the name of its descriptor, and the
    descriptor is one [_get_table] compiles. *)
Definition cache_well_formed (st : BuilderState) : Prop :=
  ∀ n d t, _built_tables st !! n = Some (d, t) →
    descriptor_name d = n ∧ is_compilable d = true.

(** The scans of sources named [n] among the helper calls. *)
Definition scans_of_name (n : string) (calls : list Table) : list Table :=
  filter (λ t, scanned_name t = Some n) calls.

(** No name was scanned twice, and every scanned name is in the cache. *)
Definition scanned_once (st : BuilderState) : Prop :=
  ∀ n, (length (scans_of_name n (helper_calls st)) ≤ 1)%nat
       ∧ (_built_tables st !! n = None →
          scans_of_name n (helper_calls st) = []).

(** [FlinkTableBuilder.__init__]: a new builder has an empty cache and has
    called no helper. *)
Definition __init__ : BuilderState := mkBuilderState ∅ [].

(** The errors raised by [build] itself and by [_filter_table_by_keys]. *)
Definition raised_outside_compilation (e : Error) : bool :=
  match e with
  | UnresolvedFeatureView | MissingTimestampField | KeyNotInTableFields _ =>
      true
  | _ => false
  end.

(** ** What the dispatch loops do to the accumulating table *)

Section DispatchSteps.
Context `{env : Collaborators}.

(** The expression of an expression feature. *)
Definition expression_of (feature : Feature) : option string :=
  match transform feature with
  | ExpressionTransform e => Some e
  | _ => None
  end.

(** What one dispatched feature does to [tmp_table]: an expression feature
    is evaluated on it, any other feature leaves it alone. *)
Definition table_step (tmp_table : Table) (feature : Feature) : Table :=
  match transform feature with
  | ExpressionTransform e =>
      _evaluate_expression_transform tmp_table e (name feature)
        (dtype feature)
  | _ => tmp_table
  end.

(** A join feature that passes every check of its branch: keys declared and
    all of them fields of the source table, joined table known and with a
    timestamp field. *)
Definition join_accepted (source_table : Table)
    (descriptors_by_names : list (string * TableDescriptor))
    (feature : Feature) : Prop :=
  ∃ table_name feature_name feature_keys right_table_descriptor,
    transform feature = JoinTransform table_name feature_name
    ∧ keys feature = Some feature_keys
    ∧ (∀ key, key ∈ feature_keys → key ∈ get_field_names source_table)
    ∧ dict_get descriptors_by_names table_name = Some right_table_descriptor
    ∧ is_Some (timestamp_field right_table_descriptor).

(** Every field descriptor of the map sits under its own field name. *)
Definition keyed_by_name (fds : list (string * JoinFieldDescriptor)) : Prop :=
  ∀ field fd, (field, fd) ∈ fds → join_field_name fd = field.
End DispatchSteps.

(** ** Batches of sliding views *)

Section SlidingBatches.
Context `{env : Collaborators}.

(** The features the dispatch loop of a sliding view handles: those it does
    not skip for being already a field of the accumulating table. *)
Fixpoint sliding_dispatched (feature_view : TableDescriptor)
    (s : SlidingLoopState) (l : list Feature) : list Feature :=
  match l with
  | [] => []
  | feature :: l' =>
      match sliding_dispatch feature_view s feature with
      | Raise _ => []
      | Return s' =>
          (if decide (name feature ∈ get_field_names (sliding_tmp_table s))
           then [] else [feature])
          ++ sliding_dispatched feature_view s' l'
      end
  end.

(** The batch a sliding-window feature belongs to. *)
Definition sliding_window_of (feature : Feature)
  : option SlidingWindowDescriptor :=
  match transform feature with
  | SlidingWindowTransform _ _ w => Some (from_sliding_window_transform w)
  | _ => None
  end.

(** What one dispatched feature adds to [sliding_window_agg_map]. *)
Definition sliding_window_step
    (sliding_window_agg_map :
       list (SlidingWindowDescriptor * list AggregationFieldDescriptor))
    (feature : Feature) :=
  match transform feature with
  | SlidingWindowTransform _ _ w =>
      let key := from_sliding_window_transform w in
      dict_set sliding_window_agg_map key
        (default [] (dict_get sliding_window_agg_map key)
         ++ [AggregationFieldDescriptor_from_feature feature])
  | _ => sliding_window_agg_map
  end.

(** The aggregation calls among the helper calls of the merge loop; the
    others are its full outer joins. *)
Definition is_sliding_window_call (call : Table) : bool :=
  match call with
  | evaluate_sliding_window_transform _ _ _ => true
  | _ => false
  end.

(** The window descriptor a sliding-window call was issued for. *)
Definition call_sliding_window (call : Table)
  : option SlidingWindowDescriptor :=
  match call with
  | evaluate_sliding_window_transform _ w _ => Some w
  | _ => None
  end.

(** Body of the merge loop of [_get_table_from_sliding_feature_view], as in
    [evaluate_sliding_windows]. *)
Definition merge_step (tmp_table : Table)
    (acc : option Table * list (string * (string * string)))
    (entry : SlidingWindowDescriptor * list AggregationFieldDescriptor)
  : M (option Table * list (string * (string * string))) :=
  let '(agg_table, field_default_value) := acc in
  let '(window_descriptor, agg_descriptors) := entry in
  let field_default_value :=
    foldl (λ d agg_descriptor,
             dict_set d (field_name agg_descriptor)
               (get_default_value_and_type agg_descriptor))
          field_default_value agg_descriptors in
  tmp_agg_table ←M call_helper
    (evaluate_sliding_window_transform tmp_table window_descriptor
       agg_descriptors);
  match agg_table with
  | None => ret (Some tmp_agg_table, field_default_value)
  | Some agg_table =>
      let join_keys :=
        group_by_keys window_descriptor ++ [EVENT_TIME_ATTRIBUTE_NAME] in
      joined ←M call_helper
        (full_outer_join_on_key_with_default_value agg_table
           tmp_agg_table join_keys field_default_value);
      ret (Some joined, field_default_value)
  end.

(** The aggregation descriptors of a list of batches. *)
Definition batch_aggregations
    (batches : list (SlidingWindowDescriptor * list AggregationFieldDescriptor))
  : list AggregationFieldDescriptor :=
  batches ≫= snd.
End SlidingBatches.

(** ** What the cache holds *)

Section CacheContents.
Context `{env : Collaborators}.

(** For a source, the scan of its descriptor; for a view, a projection
    that keeps the event-time column. *)
Definition compiled_shape (d : TableDescriptor) (t : Table) : Prop :=
  match source d with
  | None => t = get_table_from_source d
  | Some _ =>
      ∃ tmp fields,
        t = select tmp fields ∧ EVENT_TIME_ATTRIBUTE_NAME ∈ fields
  end.

Definition cache_contents (st : BuilderState) : Prop :=
  ∀ n d t, _built_tables st !! n = Some (d, t) → compiled_shape d t.
End CacheContents.

(** How deep the sources of a descriptor are nested. *)
Fixpoint source_depth (d : TableDescriptor) : nat :=
  match d with
  | DerivedFeatureView _ view_source _ _ _ _ _
  | SlidingFeatureView _ view_source _ _ _ _ _ =>
      S (source_depth view_source)
  | _ => 0
  end.

(** * Verified properties *)

(** ** Dependency resolution *)

Lemma elem_of_append_if_absent l x y :
  y ∈ append_if_absent l x ↔ y ∈ l ∨ y = x.
Proof.
  unfold append_if_absent. case_decide as Hx.
  - split; [auto|]. intros [?| ->]; done.
  - rewrite elem_of_app, list_elem_of_singleton. done.
Qed.

Lemma NoDup_append_if_absent l x : NoDup l → NoDup (append_if_absent l x).
Proof.
  intros Hl. unfold append_if_absent. case_decide as Hx; [done|].
  apply NoDup_app. split_and!; [done| |apply NoDup_singleton].
  intros y Hy ->%list_elem_of_singleton. done.
Qed.

Lemma prefix_append_if_absent l x : l `prefix_of` append_if_absent l x.
Proof.
  unfold append_if_absent. case_decide; [done|]. by apply prefix_app_r.
Qed.

Lemma elem_of_foldl_append_if_absent xs l y :
  y ∈ foldl append_if_absent l xs ↔ y ∈ l ∨ y ∈ xs.
Proof.
  revert l. induction xs as [|x xs IH]; intros l; cbn.
  - rewrite elem_of_nil. tauto.
  - rewrite IH, elem_of_append_if_absent, elem_of_cons. tauto.
Qed.

Lemma NoDup_foldl_append_if_absent xs l :
  NoDup l → NoDup (foldl append_if_absent l xs).
Proof.
  revert l. induction xs as [|x xs IH]; intros l Hl; cbn; [done|].
  by apply IH, NoDup_append_if_absent.
Qed.

Lemma prefix_foldl_append_if_absent xs l :
  l `prefix_of` foldl append_if_absent l xs.
Proof.
  revert l. induction xs as [|x xs IH]; intros l; cbn; [done|].
  etrans; [apply prefix_append_if_absent|apply IH].
Qed.

Lemma elem_of_add_feature l f y :
  y ∈ add_feature l f ↔ y ∈ l ∨ y ∈ input_features f ∨ y = f.
Proof.
  unfold add_feature.
  rewrite elem_of_append_if_absent, elem_of_foldl_append_if_absent. tauto.
Qed.

Lemma NoDup_add_feature l f : NoDup l → NoDup (add_feature l f).
Proof.
  intros. by apply NoDup_append_if_absent, NoDup_foldl_append_if_absent.
Qed.

Lemma prefix_add_feature l f : l `prefix_of` add_feature l f.
Proof.
  unfold add_feature.
  etrans; [apply prefix_foldl_append_if_absent|apply prefix_append_if_absent].
Qed.

Lemma elem_of_foldl_add_feature fs l y :
  y ∈ foldl add_feature l fs
  ↔ y ∈ l ∨ y ∈ fs ∨ ∃ f, f ∈ fs ∧ y ∈ input_features f.
Proof.
  revert l. induction fs as [|f fs IH]; intros l; cbn.
  - split; [auto|]. intros [?|[?%elem_of_nil|(?&?%elem_of_nil&?)]]; done.
  - rewrite IH, elem_of_add_feature. set_solver.
Qed.

Lemma NoDup_foldl_add_feature fs l :
  NoDup l → NoDup (foldl add_feature l fs).
Proof.
  revert l. induction fs as [|f fs IH]; intros l Hl; cbn; [done|].
  by apply IH, NoDup_add_feature.
Qed.

Lemma prefix_foldl_add_feature fs l : l `prefix_of` foldl add_feature l fs.
Proof.
  revert l. induction fs as [|f fs IH]; intros l; cbn; [done|].
  etrans; [apply prefix_add_feature|apply IH].
Qed.

Lemma precedes_prefix l l' a b :
  l `prefix_of` l' → precedes l a b → precedes l' a b.
Proof.
  intros Hp (i & j & Hi & Hj & Hij). exists i, j.
  eauto using prefix_lookup_Some.
Qed.

Lemma precedes_snoc l a b : a ∈ l → b ∉ l → precedes (l ++ [b]) a b.
Proof.
  intros [i Hi]%list_elem_of_lookup Hb. exists i, (length l).
  split_and!.
  - by apply lookup_app_l_Some.
  - by rewrite list_lookup_middle.
  - by eapply lookup_lt_Some.
Qed.

(** A feature is strictly larger than each of its inputs, so it is never
    one of its own inputs. *)
Lemma Feature_size_input f g :
  g ∈ input_features f → Feature_size g < Feature_size f.
Proof.
  destruct f as [n d t k l]. cbn [input_features].
  change (Feature_size (mkFeature n d t k l))
    with (S (list_sum (map Feature_size l))).
  induction l as [|a l IH]; intros Hg; [by apply elem_of_nil in Hg|].
  rewrite map_cons. change (list_sum (?x :: ?r)) with (x + list_sum r).
  apply elem_of_cons in Hg as [->|Hg]; [lia|].
  specialize (IH Hg). lia.
Qed.

Lemma Feature_not_own_input f : f ∉ input_features f.
Proof. intros Hf%Feature_size_input. lia. Qed.

Lemma add_feature_precedes l f g :
  f ∉ l → g ∈ input_features f → precedes (add_feature l f) g f.
Proof.
  intros Hf Hg. unfold add_feature, append_if_absent.
  case_decide as Hin.
  - apply elem_of_foldl_append_if_absent in Hin as [?|?]; [done|].
    by apply Feature_not_own_input in H.
  - apply precedes_snoc; [|done].
    apply elem_of_foldl_append_if_absent. auto.
Qed.

Lemma _get_dependent_features_app pre f post :
  _get_dependent_features (pre ++ f :: post)
  = foldl add_feature (add_feature (_get_dependent_features pre) f) post.
Proof. unfold _get_dependent_features. by rewrite foldl_app. Qed.

(** C1 (counterexample).  [f] is the only declared feature, [g] is its input
    and [h] is the input of [g]: [h] is a transitive input of a declared
    feature and is absent from the resolved sequence [[g; f]].  With [e]
    (reading [f]) declared before [f] (reading [g]), the input [g] is placed
    after [f]. *)
Lemma get_dependent_features_not_transitive :
  let f := DependencyExamples.f in
  let g := DependencyExamples.g in
  let h := DependencyExamples.h in
  let e := DependencyExamples.e in
  (f ∈ [f] ∧ transitive_input f h ∧ h ∉ _get_dependent_features [f])
  ∧ (f ∈ [e; f] ∧ g ∈ input_features f
     ∧ ¬ precedes (_get_dependent_features [e; f]) g f).
Proof.
  intros f g h e. split; split_and!.
  - apply list_elem_of_here.
  - apply ti_step with g; [|apply ti_direct]; apply list_elem_of_here.
  - apply (bool_decide_unpack _). vm_compute. exact I.
  - apply list_elem_of_further, list_elem_of_here.
  - apply list_elem_of_here.
  - assert (E : _get_dependent_features [e; f] = [f; e; g])
      by (vm_compute; reflexivity).
    rewrite E. intros (i & j & Hi & Hj & Hij).
    destruct i as [|[|[|i]]]; cbn in Hi; try discriminate.
    destruct j as [|[|[|j]]]; cbn in Hj; try discriminate. lia.
Qed.

(** C1 (amended).  The resolved sequence has no repetition (by structural
    equality), contains every declared feature and every direct input of a
    declared feature, and nothing else; inputs of inputs are not traversed.
    The direct inputs of a declared feature precede it whenever that feature
    was not already placed while an earlier declared feature was handled. *)
Theorem get_dependent_features_direct_inputs (fs : list Feature) :
  NoDup (_get_dependent_features fs)
  ∧ (∀ x, x ∈ _get_dependent_features fs
          ↔ x ∈ fs ∨ ∃ f, f ∈ fs ∧ x ∈ input_features f)
  ∧ (∀ pre f post g,
       fs = pre ++ f :: post →
       f ∉ _get_dependent_features pre →
       g ∈ input_features f →
       precedes (_get_dependent_features fs) g f).
Proof.
  split_and!.
  - apply NoDup_foldl_add_feature, NoDup_nil_2.
  - intros x. unfold _get_dependent_features.
    rewrite elem_of_foldl_add_feature, elem_of_nil. tauto.
  - intros pre f post g -> Hf Hg. rewrite _get_dependent_features_app.
    eapply precedes_prefix; [apply prefix_foldl_add_feature|].
    by apply add_feature_precedes.
Qed.

Lemma get_dependent_features_direct_inputs_witness :
  precedes (_get_dependent_features [DependencyExamples.f])
    DependencyExamples.g DependencyExamples.f.
Proof.
  apply (proj2 (proj2 (get_dependent_features_direct_inputs
                         [DependencyExamples.f]))
           [] DependencyExamples.f [] DependencyExamples.g).
  - reflexivity.
  - apply (bool_decide_unpack _). vm_compute. exact I.
  - apply list_elem_of_here.
Defined.

Example build_user_view_runs :
  ∃ t st, build (env := Examples.env) 3 Examples.user_view None None None
            Examples.empty_state = (Return t, st)
          ∧ Examples.event_time ∉ get_field_names (env := Examples.env) t
          ∧ length (helper_calls st) = 4.
Proof.
  eexists _, _. split_and!.
  - vm_compute. reflexivity.
  - apply (bool_decide_unpack _). vm_compute. exact I.
  - vm_compute. reflexivity.
Qed.

(** ** The table build cache *)

Section CacheProperties.
Context `{env : Collaborators}.

Lemma _get_table_hit fuel d cached table st :
  _built_tables st !! descriptor_name d = Some (cached, table) →
  _get_table fuel (DescriptorInput d) st
  = if decide (d = cached) then (Return table, st)
    else (Raise (DifferentTableDescriptorSameName (descriptor_name d)), st).
Proof. intros Hhit. destruct fuel; cbn; rewrite Hhit; done. Qed.

Lemma bind_Return {A B} (m : M A) (k : A → M B) st b st' :
  bind m k st = (Return b, st') →
  ∃ a st1, m st = (Return a, st1) ∧ k a st1 = (Return b, st').
Proof.
  unfold bind. destruct (m st) as [[e|a] st1]; [discriminate|]. eauto.
Qed.

Lemma cache_store_lookup d t st u st' :
  cache_store d t st = (Return u, st') →
  _built_tables st' !! descriptor_name d = Some (d, t)
  ∧ helper_calls st' = helper_calls st.
Proof. intros [= _ <-]. cbn. by rewrite lookup_insert_eq. Qed.

(** A successful compilation leaves the descriptor and its table in the
    cache under the descriptor's name. *)
Lemma _get_table_cached fuel d t st st' :
  _get_table fuel (DescriptorInput d) st = (Return t, st') →
  _built_tables st' !! descriptor_name d = Some (d, t).
Proof.
  destruct (_built_tables st !! descriptor_name d) as [[cached table]|]
    eqn:Hlook.
  - rewrite (_get_table_hit _ _ _ _ _ Hlook). case_decide; [|discriminate].
    intros [= -> <-]. by subst.
  - destruct fuel as [|fuel]; cbn; rewrite Hlook; [discriminate|].
    destruct d; try discriminate;
      intros (t1 & st1 & _ & (u & st2 & Hstore & [= -> ->])%bind_Return)
               %bind_Return;
      by apply cache_store_lookup in Hstore as [? _].
Qed.


Lemma cache_preserved_refl st : cache_preserved st st.
Proof. by intros n v. Qed.

Lemma cache_preserved_trans st1 st2 st3 :
  cache_preserved st1 st2 → cache_preserved st2 st3 →
  cache_preserved st1 st3.
Proof. intros H12 H23 n v Hn. eauto. Qed.

Lemma preserving_ret {A} (a : A) : preserving (ret a).
Proof. intros st r st' [= _ <-]. apply cache_preserved_refl. Qed.

Lemma preserving_raise {A} e : preserving (raise (A := A) e).
Proof. intros st r st' [= _ <-]. apply cache_preserved_refl. Qed.

Lemma preserving_lift {A} (x : result A) : preserving (lift x).
Proof. intros st r st' [= _ <-]. apply cache_preserved_refl. Qed.

Lemma preserving_call_helper t : preserving (call_helper t).
Proof. intros st r st' [= _ <-]. by intros n v. Qed.

Lemma preserving_bind {A B} (m : M A) (k : A → M B) :
  preserving m → (∀ a, preserving (k a)) → preserving (bind m k).
Proof.
  intros Hm Hk st r st'. unfold bind.
  destruct (m st) as [[e|a] st1] eqn:Em.
  - intros [= _ <-]. eauto.
  - intros Ek. eapply cache_preserved_trans; [eapply Hm|eapply Hk]; eauto.
Qed.

Lemma preserving_for_each_M {S A} (body : S → A → M S) l :
  (∀ s a, preserving (body s a)) → ∀ s, preserving (for_each_M body s l).
Proof.
  intros Hbody. induction l as [|a l IH]; intros s; cbn.
  - apply preserving_ret.
  - apply preserving_bind; auto.
Qed.

Create HintDb preserving.
#[local] Hint Resolve preserving_ret preserving_raise preserving_lift
  preserving_call_helper : preserving.

Ltac preserving_step :=
  first
    [ apply preserving_bind; [|intros ?]
    | apply preserving_for_each_M; intros ? ?
    | progress auto with preserving
    | match goal with
      | |- preserving (match ?x with _ => _ end) => destruct x
      | |- preserving (let '(_, _) := ?x in _) => destruct x
      | |- preserving ((let '(_, _) := ?x in _) _) => destruct x
      | |- preserving (if ?b then _ else _) => destruct b
      end ].

Lemma preserving_derived rec feature_view :
  (∀ f, preserving (rec f)) →
  preserving (_get_table_from_derived_feature_view rec feature_view).
Proof.
  intros Hrec.
  unfold _get_table_from_derived_feature_view, compile_join_tables,
    evaluate_over_windows, evaluate_temporal_joins.
  repeat preserving_step.
Qed.

Lemma preserving_sliding rec feature_view :
  (∀ f, preserving (rec f)) →
  preserving (_get_table_from_sliding_feature_view rec feature_view).
Proof.
  intros Hrec.
  unfold _get_table_from_sliding_feature_view, evaluate_sliding_windows.
  repeat preserving_step.
Qed.

Lemma preserving_cache_store_fresh d t st0 :
  _built_tables st0 !! descriptor_name d = None →
  ∀ st u st', cache_preserved st0 st →
    cache_store d t st = (Return u, st') → cache_preserved st0 st'.
Proof.
  intros Hfresh st u st' Hpres [= _ <-] n v Hn. cbn.
  rewrite lookup_insert_ne; [by apply Hpres|]. intros <-. congruence.
Qed.

(** Compiling never removes nor replaces an entry that was in the cache
    when the call started. *)
Lemma preserving__get_table fuel features :
  preserving (_get_table fuel features).
Proof.
  revert features. induction fuel as [|fuel IH]; intros [df|d] st r st';
    cbn; try apply preserving_call_helper.
  - destruct (_built_tables st !! descriptor_name d) as [[cached table]|];
      [case_decide|]; intros [= _ <-]; apply cache_preserved_refl.
  - destruct (_built_tables st !! descriptor_name d) as [[cached table]|]
      eqn:Hlook; [case_decide; intros [= _ <-]; apply cache_preserved_refl|].
    assert (Hstore : ∀ (m : M Table),
      preserving m →
      (t ←M m; _ ←M cache_store d t; ret t) st = (r, st') →
      cache_preserved st st').
    { intros m Hm. unfold bind at 1.
      destruct (m st) as [[e|t] st1] eqn:Em; [intros [= _ <-]; eauto|].
      unfold bind, ret. cbn. intros [= _ <-].
      eapply preserving_cache_store_fresh; eauto. }
    destruct d; try (apply Hstore; auto using preserving_call_helper,
      preserving_derived, preserving_sliding).
    intros [= _ <-]; apply cache_preserved_refl.
Qed.

Lemma preserving_build fuel features keys start_datetime end_datetime :
  preserving (build fuel features keys start_datetime end_datetime).
Proof.
  unfold build, _filter_table_by_keys.
  destruct (is_feature_view features && is_unresolved features);
    [apply preserving_raise|].
  repeat first [ apply preserving__get_table | preserving_step ].
Qed.


Lemma later_in_session_preserved st st' :
  later_in_session st st' → cache_preserved st st'.
Proof.
  induction 1 as [st|st st1 st2 fuel features r _ IH Hcall
                    |st st1 st2 fuel features ks s e r _ IH Hcall].
  - apply cache_preserved_refl.
  - eapply cache_preserved_trans; [exact IH|].
    eapply preserving__get_table, Hcall.
  - eapply cache_preserved_trans; [exact IH|].
    eapply preserving_build, Hcall.
Qed.

(** C2 (amended).  When the name of the descriptor is cached with a
    structurally different descriptor, [_get_table] raises the same-name
    conflict and leaves the whole session state, hence that cache entry, as
    it was.  [build] leaves the state as it was too; it raises the same
    conflict, unless the descriptor is an unresolved feature view: its own
    guard then raises the unresolved-view error before the cache is
    read. *)
Theorem _get_table_conflict fuel d cached table st :
  _built_tables st !! descriptor_name d = Some (cached, table) →
  d ≠ cached →
  _get_table fuel (DescriptorInput d) st
  = (Raise (DifferentTableDescriptorSameName (descriptor_name d)), st)
  ∧ ∀ keys start_datetime end_datetime,
      build fuel d keys start_datetime end_datetime st
      = (Raise (if is_feature_view d && is_unresolved d
                then UnresolvedFeatureView
                else DifferentTableDescriptorSameName (descriptor_name d)),
         st).
Proof.
  intros Hhit Hne.
  assert (Hget : _get_table fuel (DescriptorInput d) st
    = (Raise (DifferentTableDescriptorSameName (descriptor_name d)), st)).
  { rewrite (_get_table_hit _ _ _ _ _ Hhit). by rewrite decide_False. }
  split; [done|]. intros ks s e. unfold build.
  destruct (is_feature_view d && is_unresolved d); [done|].
  unfold bind at 1. by rewrite Hget.
Qed.

(** Once a call of [_get_table] for a descriptor has returned, the
    descriptor is the one cached under its name: asking for it again at any
    later point of the session returns that same table from the cache and
    changes nothing.  A descriptor compiled within such a call, as the
    source of a view, has no such guarantee. *)
Lemma _get_table_idempotent fuel d t st st1 :
  _get_table fuel (DescriptorInput d) st = (Return t, st1) →
  ∀ st2 fuel', later_in_session st1 st2 →
    _get_table fuel' (DescriptorInput d) st2 = (Return t, st2).
Proof.
  intros Hfirst st2 fuel' Hlater.
  apply _get_table_cached in Hfirst.
  apply later_in_session_preserved in Hlater.
  rewrite (_get_table_hit _ _ _ _ _ (Hlater _ _ Hfirst)).
  by rewrite decide_True.
Qed.

(** C9.  [build] on an unresolved feature view raises immediately: the
    session state (cache and helper calls) is exactly what it was, and no
    table is returned. *)
Theorem build_unresolved fuel features keys start_datetime end_datetime st :
  is_feature_view features = true →
  is_unresolved features = true →
  build fuel features keys start_datetime end_datetime st
  = (Raise UnresolvedFeatureView, st).
Proof. intros Hview Hun. unfold build. by rewrite Hview, Hun. Qed.
End CacheProperties.

Lemma _get_table_conflict_witness :
  let st := (_get_table (env := Examples.env) 1
               (DescriptorInput Examples.users) __init__).2 in
  _get_table (env := Examples.env) 1 (DescriptorInput Examples.users') st
  = (Raise (DifferentTableDescriptorSameName "users"), st)
  ∧ build (env := Examples.env) 1 Examples.users' None None None st
    = (Raise (DifferentTableDescriptorSameName "users"), st).
Proof.
  intros st.
  assert (Hhit : _built_tables st !! descriptor_name Examples.users'
                 = Some (Examples.users, get_table_from_source Examples.users))
    by (vm_compute; reflexivity).
  assert (Hne : Examples.users' ≠ Examples.users) by discriminate.
  destruct (_get_table_conflict (env := Examples.env) 1 Examples.users'
              Examples.users (get_table_from_source Examples.users) st
              Hhit Hne) as [Hget Hbuild].
  split; [exact Hget|exact (Hbuild None None None)].
Defined.

(** C2 (counterexample).  The cache holds the resolved view under the name
    ["pending_view"], and [build] is given the unresolved view of that
    name, which differs from the cached descriptor: the call raises the
    unresolved-view error, and not the conflict. *)
Lemma build_unresolved_not_conflict :
  let st := (build (env := Examples.env) 2 Examples.resolved_view None None
               None __init__).2 in
  (∃ table,
     _built_tables st !! descriptor_name Examples.unresolved_view
     = Some (Examples.resolved_view, table))
  ∧ Examples.unresolved_view ≠ Examples.resolved_view
  ∧ build (env := Examples.env) 2 Examples.unresolved_view None None None st
    = (Raise UnresolvedFeatureView, st)
  ∧ ∀ st',
      build (env := Examples.env) 2 Examples.unresolved_view None None None
        st
      ≠ (Raise (DifferentTableDescriptorSameName
                  (descriptor_name Examples.unresolved_view)), st').
Proof.
  intros st.
  assert (Hbuild :
    build (env := Examples.env) 2 Examples.unresolved_view None None None st
    = (Raise UnresolvedFeatureView, st)) by reflexivity.
  split_and!; [|discriminate|exact Hbuild|].
  - eexists. vm_compute. reflexivity.
  - intros st'. rewrite Hbuild. discriminate.
Qed.

(** C3.  The view [users_view] bears the name of its source [users].
    Compiling the view compiles the source, whose scan is the one helper
    call of the session, and caches it under ["users"]; the view is then
    stored under the same name, over the source.  Asked again for the
    source, a descriptor already compiled in this session, [_get_table]
    does not return the compiled table: it raises the same-name
    conflict. *)
Theorem same_named_source_not_served_from_cache :
  let scan := get_table_from_source Examples.users in
  ∃ t st0 st1,
    _get_table_from_derived_feature_view (env := Examples.env)
      (_get_table (env := Examples.env) 1) Examples.users_view __init__
    = (Return t, st0)
    ∧ _built_tables st0 !! "users" = Some (Examples.users, scan)
    ∧ _get_table (env := Examples.env) 2
        (DescriptorInput Examples.users_view) __init__ = (Return t, st1)
    ∧ helper_calls st1 = [scan]
    ∧ _built_tables st1 !! "users" = Some (Examples.users_view, t)
    ∧ ∀ fuel,
        _get_table (env := Examples.env) fuel
          (DescriptorInput Examples.users) st1
        = (Raise (DifferentTableDescriptorSameName "users"), st1).
Proof.
  intros scan. eexists _, _, _. split_and!.
  - vm_compute. reflexivity.
  - vm_compute. reflexivity.
  - vm_compute. reflexivity.
  - vm_compute. reflexivity.
  - vm_compute. reflexivity.
  - intros fuel.
    erewrite (_get_table_hit (env := Examples.env) fuel Examples.users);
      [|vm_compute; reflexivity].
    reflexivity.
Qed.

Lemma build_unresolved_witness :
  build (env := Examples.env) 3 Examples.unresolved_view None None None
    Examples.empty_state
  = (Raise UnresolvedFeatureView, Examples.empty_state).
Proof.
  apply (build_unresolved (env := Examples.env)); reflexivity.
Defined.

(** ** Formatting and parsing of the range bounds *)

Lemma digit_value_digit_char n : digit_value (digit_char n) = Some (n `mod` 10).
Proof.
  unfold digit_value, digit_char.
  assert (Hlt : (n `mod` 10 < 10)%nat) by (apply Nat.mod_upper_bound; lia).
  rewrite Ascii.nat_ascii_embedding by lia.
  rewrite decide_True by lia. f_equal. lia.
Qed.

Lemma zero_padded_2 n :
  zero_padded 2 n = String (digit_char (n `div` 10)) (String (digit_char n) "").
Proof. reflexivity. Qed.

Lemma zero_padded_4 n :
  zero_padded 4 n
  = String (digit_char (((n `div` 10) `div` 10) `div` 10))
      (String (digit_char ((n `div` 10) `div` 10))
         (String (digit_char (n `div` 10)) (String (digit_char n) ""))).
Proof. reflexivity. Qed.

Section parse.
#[local] Opaque digit_value.
Let dash := Ascii.ascii_of_nat 45.
Let space := Ascii.ascii_of_nat 32.
Let colon := Ascii.ascii_of_nat 58.

Lemma parse_timestamp_digits
    (y1 y2 y3 y4 m1 m2 d1 d2 h1 h2 i1 i2 s1 s2 : Ascii.ascii)
    (vy1 vy2 vy3 vy4 vm1 vm2 vd1 vd2 vh1 vh2 vi1 vi2 vs1 vs2 : nat) :
  digit_value y1 = Some vy1 → digit_value y2 = Some vy2 →
  digit_value y3 = Some vy3 → digit_value y4 = Some vy4 →
  digit_value m1 = Some vm1 → digit_value m2 = Some vm2 →
  digit_value d1 = Some vd1 → digit_value d2 = Some vd2 →
  digit_value h1 = Some vh1 → digit_value h2 = Some vh2 →
  digit_value i1 = Some vi1 → digit_value i2 = Some vi2 →
  digit_value s1 = Some vs1 → digit_value s2 = Some vs2 →
  parse_timestamp
    (String y1 (String y2 (String y3 (String y4 (String dash
      (String m1 (String m2 (String dash (String d1 (String d2 (String space
        (String h1 (String h2 (String colon (String i1 (String i2
          (String colon (String s1 (String s2 "")))))))))))))))))))
  = Some (mkDatetime
            (10 * (10 * (10 * (10 * 0 + vy1) + vy2) + vy3) + vy4)
            (10 * (10 * 0 + vm1) + vm2) (10 * (10 * 0 + vd1) + vd2)
            (10 * (10 * 0 + vh1) + vh2) (10 * (10 * 0 + vi1) + vi2)
            (10 * (10 * 0 + vs1) + vs2) 0).
Proof.
  intros Hy1 Hy2 Hy3 Hy4 Hm1 Hm2 Hd1 Hd2 Hh1 Hh2 Hi1 Hi2 Hs1 Hs2.
  unfold parse_timestamp, separator_at, parse_field.
  cbn -[Nat.mul Nat.add dash space colon].
  rewrite !bool_decide_eq_true_2 by reflexivity.
  cbn -[Nat.mul Nat.add dash space colon].
  rewrite Hy1, Hy2, Hy3, Hy4. cbn -[Nat.mul Nat.add].
  rewrite Hm1, Hm2. cbn -[Nat.mul Nat.add].
  rewrite Hd1, Hd2. cbn -[Nat.mul Nat.add].
  rewrite Hh1, Hh2. cbn -[Nat.mul Nat.add].
  rewrite Hi1, Hi2. cbn -[Nat.mul Nat.add].
  rewrite Hs1, Hs2. reflexivity.
Qed.
End parse.

(** A year of four digits is printed as it would be with padding. *)
Lemma decimal_four_digits fuel n :
  (10 * 100 ≤ n)%nat → (n < 100 * 100)%nat →
  decimal (4 + fuel) n = zero_padded 4 n.
Proof.
  intros Hlow Hhigh.
  pose proof (Nat.div_mod_eq n 10).
  pose proof (Nat.mod_upper_bound n 10).
  pose proof (Nat.div_mod_eq (n `div` 10) 10).
  pose proof (Nat.mod_upper_bound (n `div` 10) 10).
  pose proof (Nat.div_mod_eq ((n `div` 10) `div` 10) 10).
  pose proof (Nat.mod_upper_bound ((n `div` 10) `div` 10) 10).
  cbn [Nat.add decimal zero_padded].
  rewrite (decide_False (P := (n < 10)%nat)) by lia.
  rewrite (decide_False (P := (n `div` 10 < 10)%nat)) by lia.
  rewrite (decide_False (P := ((n `div` 10) `div` 10 < 10)%nat)) by lia.
  rewrite (decide_True (P := (((n `div` 10) `div` 10) `div` 10 < 10)%nat))
    by lia.
  reflexivity.
Qed.

Lemma unpadded_year_four_digits n :
  (10 * 100 ≤ n)%nat → (n < 100 * 100)%nat →
  unpadded_year n = zero_padded 4 n.
Proof.
  intros Hlow Hhigh. unfold unpadded_year.
  destruct n as [|[|[|n]]]; [lia..|].
  by apply (decimal_four_digits n).
Qed.

(** Formatting a bound and parsing it back clears the microseconds and
    keeps every other field. *)
Lemma parse_timestamp_strftime d :
  valid_datetime d →
  parse_timestamp (strftime d) = Some (truncate_to_second d).
Proof.
  intros (Hy0 & Hy & Hmo & Hd & Hh & Hmi & Hs & _).
  unfold strftime. rewrite (unpadded_year_four_digits _ Hy0 Hy).
  rewrite zero_padded_4, !zero_padded_2.
  etrans; [apply parse_timestamp_digits; apply digit_value_digit_char|].
  unfold truncate_to_second. f_equal.
  assert (Htwo : ∀ n, (n < 100)%nat →
    (10 * (10 * 0 + (n `div` 10) `mod` 10) + n `mod` 10 = n)%nat).
  { intros n Hn. pose proof (Nat.div_mod_eq n 10).
    pose proof (Nat.mod_upper_bound n 10).
    assert (n `div` 10 < 10)%nat by (apply Nat.Div0.div_lt_upper_bound; lia).
    rewrite (Nat.mod_small (n `div` 10)) by lia. lia. }
  assert (Hfour : ∀ n, (n < 100 * 100)%nat →
    (10 * (10 * (10 * (10 * 0 + (((n `div` 10) `div` 10) `div` 10) `mod` 10)
                 + ((n `div` 10) `div` 10) `mod` 10)
           + (n `div` 10) `mod` 10) + n `mod` 10 = n)%nat).
  { intros n Hn. pose proof (Nat.div_mod_eq n 10).
    pose proof (Nat.mod_upper_bound n 10).
    pose proof (Nat.div_mod_eq (n `div` 10) 10).
    pose proof (Nat.mod_upper_bound (n `div` 10) 10).
    pose proof (Nat.div_mod_eq ((n `div` 10) `div` 10) 10).
    pose proof (Nat.mod_upper_bound ((n `div` 10) `div` 10) 10).
    assert (((n `div` 10) `div` 10) `div` 10 < 10)%nat
      by (repeat apply Nat.Div0.div_lt_upper_bound; lia).
    rewrite (Nat.mod_small (((n `div` 10) `div` 10) `div` 10)) by lia. lia. }
  rewrite Hfour, !Htwo by lia. reflexivity.
Qed.

(** ** Range filter and the event-time column *)

Lemma filter_twice {A} (f g : A → bool) l :
  List.filter f (List.filter g l) = List.filter (λ x, g x && f x) l.
Proof.
  induction l as [|x l IH]; [done|]. cbn.
  destruct (g x); cbn; [destruct (f x)|]; by rewrite IH.
Qed.

Section RangeProperties.
Context `{env : Collaborators}.

Lemma passes_ge_bound d row :
  valid_datetime d →
  passes (ge (col EVENT_TIME_ATTRIBUTE_NAME) (to_timestamp (lit (strftime d))))
    row
  = not_before (Some (truncate_to_second d)) row.
Proof.
  intros Hd. unfold passes, not_before, event_time_of.
  cbn [eval_expr]. rewrite (parse_timestamp_strftime d Hd). cbn.
  destruct (dict_get row EVENT_TIME_ATTRIBUTE_NAME) as [[t|s|b]|]; try done.
  by destruct (datetime_le _ _).
Qed.

Lemma passes_lt_bound d row :
  valid_datetime d →
  passes (lt (col EVENT_TIME_ATTRIBUTE_NAME) (to_timestamp (lit (strftime d))))
    row
  = before (Some (truncate_to_second d)) row.
Proof.
  intros Hd. unfold passes, before, event_time_of.
  cbn [eval_expr]. rewrite (parse_timestamp_strftime d Hd). cbn.
  destruct (dict_get row EVENT_TIME_ATTRIBUTE_NAME) as [[t|s|b]|]; try done.
  by destruct (datetime_lt _ _).
Qed.

Lemma strftime_truncate d : strftime (truncate_to_second d) = strftime d.
Proof. reflexivity. Qed.

(** What [build] returns: the compiled and key-filtered table, ranged by
    time, without the event-time column. *)
Lemma build_Return fuel features keys start_datetime end_datetime st t st' :
  build fuel features keys start_datetime end_datetime st = (Return t, st') →
  ∃ compiled st1 table,
    _get_table fuel (DescriptorInput features) st = (Return compiled, st1)
    ∧ _filter_table_by_keys fuel compiled keys st1 = (Return table, st')
    ∧ let ranged := _range_table_by_time table start_datetime end_datetime in
      t = (if decide (EVENT_TIME_ATTRIBUTE_NAME ∈ get_field_names ranged)
           then drop_columns ranged EVENT_TIME_ATTRIBUTE_NAME else ranged).
Proof.
  unfold build.
  destruct (is_feature_view features && is_unresolved features);
    [discriminate|].
  intros (t1 & st1 & Hget & (t2 & st2 & Hkeys & (t3 & st3 & Hrange & [= <- <-])
    %bind_Return)%bind_Return)%bind_Return.
  assert (t3 = _range_table_by_time t2 start_datetime end_datetime
          ∧ st3 = st2) as [-> ->].
  { case_bool_decide as Hgiven.
    - destruct (timestamp_field features); [|discriminate].
      by injection Hrange as <- <-.
    - injection Hrange as <- <-.
      destruct start_datetime, end_datetime; try done; destruct Hgiven; auto. }
  exists t1, st1, t2. split_and!; [done| |done].
  by destruct keys.
Qed.




(** C8.  [_get_output_fields] always contains the event-time column,
    appended at the end when the view's own output fields lack it; the
    table compiled for a derived or sliding view is a projection on exactly
    these fields, so it carries the column; and the table returned by
    [build] never has it. *)
Theorem event_time_column_internal :
  (∀ feature_view source_fields,
     EVENT_TIME_ATTRIBUTE_NAME
       ∈ _get_output_fields feature_view source_fields
     ∧ (EVENT_TIME_ATTRIBUTE_NAME
          ∉ get_output_fields feature_view source_fields →
        _get_output_fields feature_view source_fields
        = get_output_fields feature_view source_fields
          ++ [EVENT_TIME_ATTRIBUTE_NAME]))
  ∧ (∀ rec feature_view st t st',
       _get_table_from_derived_feature_view rec feature_view st
         = (Return t, st')
       ∨ _get_table_from_sliding_feature_view rec feature_view st
         = (Return t, st') →
       EVENT_TIME_ATTRIBUTE_NAME ∈ get_field_names t)
  ∧ (∀ fuel features keys start_datetime end_datetime st t st',
       build fuel features keys start_datetime end_datetime st
         = (Return t, st') →
       EVENT_TIME_ATTRIBUTE_NAME ∉ get_field_names t).
Proof.
  assert (Hout : ∀ feature_view source_fields,
    EVENT_TIME_ATTRIBUTE_NAME ∈ _get_output_fields feature_view source_fields).
  { intros. unfold _get_output_fields. case_decide; [done|].
    apply elem_of_app. right. apply list_elem_of_here. }
  split_and!.
  - intros feature_view source_fields. split; [apply Hout|].
    intros Habsent. unfold _get_output_fields. by rewrite decide_False.
  - intros rec feature_view st t st' [Hcompiled|Hcompiled].
    + unfold _get_table_from_derived_feature_view in Hcompiled.
      destruct (source feature_view); [|discriminate].
      apply bind_Return in Hcompiled as (t1 & st1 & _ & Hcompiled).
      apply bind_Return in Hcompiled as ([dbn tbn] & st2 & _ & Hcompiled).
      apply bind_Return in Hcompiled as (s & st3 & _ & Hcompiled).
      apply bind_Return in Hcompiled as (t4 & st4 & _ & Hcompiled).
      apply bind_Return in Hcompiled as (t5 & st5 & _ & [= <- _]).
      apply Hout.
    + unfold _get_table_from_sliding_feature_view in Hcompiled.
      destruct (source feature_view); [|discriminate].
      apply bind_Return in Hcompiled as (t1 & st1 & _ & Hcompiled).
      apply bind_Return in Hcompiled as (s & st2 & _ & Hcompiled).
      apply bind_Return in Hcompiled as (m & st3 & _ & Hcompiled).
      apply bind_Return in Hcompiled as (t4 & st4 & _ & [= <- _]).
      apply Hout.
  - intros fuel features keys s e st t st'
      (compiled & st1 & table & _ & _ & ->)%build_Return.
    cbn zeta. case_decide as Hin; [|done].
    cbn [get_field_names]. rewrite list_elem_of_filter. tauto.
Qed.
End RangeProperties.


Lemma valid_start : valid_datetime RangeExamples.start.
Proof.
  unfold valid_datetime, RangeExamples.start.
  cbn [year month day hour minute second microsecond]. lia.
Defined.



(** C7.  The source [users] holds the row of user 1 at 00:00:00.000200 and
    the row of user 2 a day later.  [build] with the start bound
    00:00:00.000500 returns both rows, without their event-time column,
    although the row of user 1 lies before the bound: the bound is compared
    as 00:00:00.  With the same datetime as end bound, [build] returns no
    row, although the row of user 1 lies before the bound. *)
Theorem build_range_ignores_microseconds :
  let rows_of t := table_rows RangeExamples.engine_rows t in
  RangeExamples.engine_rows RangeExamples.scan
  = [RangeExamples.row "1" RangeExamples.early;
     RangeExamples.row "2" RangeExamples.late]
  ∧ datetime_le RangeExamples.start RangeExamples.early = false
  ∧ datetime_lt RangeExamples.early RangeExamples.start = true
  ∧ (∃ t st',
       build (env := Examples.env) 1 Examples.users None
         (Some RangeExamples.start) None __init__ = (Return t, st')
       ∧ rows_of t = [[("user_id", StringValue "1")];
                      [("user_id", StringValue "2")]])
  ∧ (∃ t st',
       build (env := Examples.env) 1 Examples.users None None
         (Some RangeExamples.start) __init__ = (Return t, st')
       ∧ rows_of t = []).
Proof.
  intros rows_of. split_and!; [reflexivity..| |];
    eexists _, _; split; vm_compute; reflexivity.
Qed.

Lemma event_time_column_internal_witness :
  ∃ t st,
    build (env := Examples.env) 3 Examples.user_view None None None
      Examples.empty_state = (Return t, st)
    ∧ Examples.event_time ∉ get_field_names (env := Examples.env) t.
Proof.
  eexists _, _. split; [vm_compute; reflexivity|].
  eapply (proj2 (proj2 (event_time_column_internal (env := Examples.env)))
            3 Examples.user_view None None None Examples.empty_state).
  vm_compute. reflexivity.
Defined.

(** ** The dispatch loop of derived feature views *)

Lemma for_each_app {S A} (body : S → A → result S) s l1 l2 :
  for_each body s (l1 ++ l2)
  = match for_each body s l1 with
    | Raise e => Raise e
    | Return s' => for_each body s' l2
    end.
Proof.
  revert s. induction l1 as [|a l1 IH]; intros s; cbn; [done|].
  destruct (body s a); [done|apply IH].
Qed.

Section DispatchProperties.
Context `{env : Collaborators}.

(** The phases of [_get_table_from_derived_feature_view] once the source
    and the joined tables are compiled: the dispatch loop, then the
    over-window batches, then the join batches, then the projection. *)
Lemma derived_view_phases rec feature_view view_source st source_table st1
    descriptors_by_names table_by_names st2 :
  source feature_view = Some view_source →
  rec (DescriptorInput view_source) st = (Return source_table, st1) →
  compile_join_tables rec
    (remove_dups (join_table_names (get_resolved_features feature_view))) st1
  = (Return (descriptors_by_names, table_by_names), st2) →
  _get_table_from_derived_feature_view rec feature_view st
  = match for_each
            (derived_dispatch feature_view source_table descriptors_by_names)
            (mkDerivedLoopState source_table [] [])
            (_get_dependent_features (get_resolved_features feature_view))
    with
    | Raise e => (Raise e, st2)
    | Return s =>
        (tmp ←M evaluate_over_windows (tmp_table s) (window_agg_map s);
         tmp ←M evaluate_temporal_joins table_by_names tmp (right_tables s);
         ret (select tmp
                (_get_output_fields feature_view
                   (get_field_names source_table)))) st2
    end.
Proof.
  intros Hsource Hsrc Hjoin. unfold _get_table_from_derived_feature_view.
  rewrite Hsource. unfold bind at 1. rewrite Hsrc.
  unfold bind at 1. rewrite Hjoin. unfold bind at 1, lift.
  by destruct (for_each _ _ _).
Qed.

(** C4 (amended).  A dispatched join feature makes the compilation fail
    when it declares no keys at all ([keys] is [None]) or when one of its
    keys is not a field of the source table; otherwise (an empty key list
    included) the key check passes and only the later lookups of the right
    table can fail.  An error of the loop is the error of the whole
    compilation of the view. *)
Theorem join_key_check feature_view source_table descriptors_by_names s
    feature table_name feature_name :
  transform feature = JoinTransform table_name feature_name →
  name feature ∉ get_field_names (tmp_table s) →
  let dispatch :=
    derived_dispatch feature_view source_table descriptors_by_names in
  (keys feature = None →
   dispatch s feature = Raise (JoinWithoutKey (name feature)))
  ∧ (∀ ks k, keys feature = Some ks →
       k ∈ ks → k ∉ get_field_names source_table →
       dispatch s feature = Raise (SourceTableWithoutJoinKeys ks))
  ∧ (∀ ks, keys feature = Some ks →
       (∀ k, k ∈ ks → k ∈ get_field_names source_table) →
       ∀ e, dispatch s feature = Raise e →
            e = KeyError table_name ∨ ∃ n, e = JoinWithoutTimestampField n)
  ∧ (∀ rec view_source st st1 table_by_names st2 pre post e,
       source feature_view = Some view_source →
       rec (DescriptorInput view_source) st = (Return source_table, st1) →
       compile_join_tables rec
         (remove_dups
            (join_table_names (get_resolved_features feature_view))) st1
       = (Return (descriptors_by_names, table_by_names), st2) →
       _get_dependent_features (get_resolved_features feature_view)
       = pre ++ feature :: post →
       for_each dispatch (mkDerivedLoopState source_table [] []) pre
       = Return s →
       dispatch s feature = Raise e →
       _get_table_from_derived_feature_view rec feature_view st
       = (Raise e, st2)).
Proof.
  intros Htransform Hfresh dispatch. subst dispatch.
  assert (Hstep : derived_dispatch feature_view source_table
                    descriptors_by_names s feature
    = match keys feature with
      | None => Raise (JoinWithoutKey (name feature))
      | Some ks =>
          if forallb (λ key, bool_decide (key ∈ get_field_names source_table))
               ks
          then
            match dict_get descriptors_by_names table_name with
            | None => Raise (KeyError table_name)
            | Some d =>
                match timestamp_field d with
                | None => Raise (JoinWithoutTimestampField (descriptor_name d))
                | Some ts =>
                    Return (mkDerivedLoopState (tmp_table s)
                      (window_agg_map s)
                      (add_join_fields (right_tables s) ks table_name
                         feature_name d ts))
                end
            end
          else Raise (SourceTableWithoutJoinKeys ks)
      end).
  { unfold derived_dispatch. rewrite decide_False by done.
    by rewrite Htransform. }
  split_and!.
  - intros Hkeys. by rewrite Hstep, Hkeys.
  - intros ks k Hkeys Hk Hmissing. rewrite Hstep, Hkeys.
    destruct (forallb _ ks) eqn:Hall; [|done].
    rewrite forallb_forall in Hall.
    apply list_elem_of_In, Hall, bool_decide_eq_true in Hk. done.
  - intros ks Hkeys Hall e. rewrite Hstep, Hkeys.
    destruct (forallb _ ks) eqn:Hcheck.
    + destruct (dict_get _ _) as [d|]; [|intros [= <-]; auto].
      destruct (timestamp_field d); [discriminate|]. intros [= <-]. eauto.
    + apply not_true_iff_false in Hcheck. destruct Hcheck.
      apply forallb_forall. intros k Hk. apply bool_decide_eq_true.
      by apply Hall, list_elem_of_In.
  - intros rec view_source st st1 table_by_names st2 pre post e Hsource
      Hsrc Hjoin Hdeps Hpre Hraise.
    rewrite (derived_view_phases _ _ _ _ _ _ _ _ _ Hsource Hsrc Hjoin).
    rewrite Hdeps, for_each_app, Hpre. cbn [for_each].
    by rewrite Hraise.
Qed.
End DispatchProperties.

(** C4 (counterexample).  A join feature whose key list is empty passes the
    key check: the dispatch returns, and the view that declares it
    compiles. *)
Lemma join_with_empty_keys_passes :
  keys Examples.age_empty_keys = Some []
  ∧ (∃ s, derived_dispatch (env := Examples.env) Examples.empty_keys_view
            (get_table_from_source Examples.users)
            [("profiles", Examples.profiles)]
            (mkDerivedLoopState (get_table_from_source Examples.users) [] [])
            Examples.age_empty_keys = Return s)
  ∧ ∃ t st, build (env := Examples.env) 3 Examples.empty_keys_view None None
              None Examples.empty_state = (Return t, st).
Proof.
  split_and!; [reflexivity| |]; eexists; [|eexists]; vm_compute; reflexivity.
Qed.

Lemma join_key_check_witness :
  derived_dispatch (env := Examples.env) Examples.user_view
    (get_table_from_source Examples.users) [("profiles", Examples.profiles)]
    (mkDerivedLoopState (get_table_from_source Examples.users) [] [])
    Examples.age_without_key
  = Raise (JoinWithoutKey "age").
Proof.
  refine (proj1 (join_key_check (env := Examples.env) Examples.user_view
                   (get_table_from_source Examples.users)
                   [("profiles", Examples.profiles)]
                   (mkDerivedLoopState (get_table_from_source Examples.users)
                      [] [])
                   Examples.age_without_key "profiles" "age" eq_refl _)
            eq_refl).
  apply (bool_decide_unpack _). vm_compute. exact I.
Defined.

(** ** Ordered dictionaries *)

Section dict_properties.
Context {K V : Type} `{EqDecision K}.
Implicit Types (d : list (K * V)) (k : K) (v : V).

Lemma dict_get_set d k v k' :
  dict_get (dict_set d k v) k'
  = if decide (k' = k) then Some v else dict_get d k'.
Proof.
  induction d as [|[k0 v0] d IH]; cbn.
  - by destruct (decide (k' = k)).
  - destruct (decide (k = k0)) as [->|Hne]; cbn.
    + by destruct (decide (k' = k0)).
    + destruct (decide (k' = k0)) as [->|]; [|done].
      by rewrite decide_False by done.
Qed.

Lemma dict_keys_set d k v :
  dict_keys (dict_set d k v)
  = if decide (k ∈ dict_keys d) then dict_keys d else dict_keys d ++ [k].
Proof.
  unfold dict_keys. induction d as [|[k0 v0] d IH]; cbn; [done|].
  destruct (decide (k = k0)) as [->|Hne]; cbn.
  - rewrite decide_True; [done|]. apply list_elem_of_here.
  - rewrite IH. destruct (decide (k ∈ d.*1)) as [Hin|Hout].
    + rewrite decide_True; [done|]. by apply list_elem_of_further.
    + rewrite decide_False; [done|].
      intros [?|?]%elem_of_cons; done.
Qed.

Lemma elem_of_dict_keys_set d k v x :
  x ∈ dict_keys (dict_set d k v) ↔ x ∈ dict_keys d ∨ x = k.
Proof.
  rewrite dict_keys_set. case_decide.
  - split; [auto|]. intros [?| ->]; done.
  - by rewrite elem_of_app, list_elem_of_singleton.
Qed.

Lemma NoDup_dict_keys_set d k v :
  NoDup (dict_keys d) → NoDup (dict_keys (dict_set d k v)).
Proof.
  intros Hd. rewrite dict_keys_set. case_decide; [done|].
  apply NoDup_app. split_and!; [done| |apply NoDup_singleton].
  intros x Hx ->%list_elem_of_singleton. done.
Qed.

Lemma dict_get_None d k : dict_get d k = None ↔ k ∉ dict_keys d.
Proof.
  unfold dict_keys. induction d as [|[k0 v0] d IH]; cbn.
  - split; [intros _ []%elem_of_nil|done].
  - destruct (decide (k = k0)) as [->|Hne].
    + split; [done|]. intros []. apply list_elem_of_here.
    + rewrite IH, not_elem_of_cons. tauto.
Qed.

Lemma dict_get_Some_elem_of d k v :
  dict_get d k = Some v → (k, v) ∈ d.
Proof.
  induction d as [|[k0 v0] d IH]; cbn; [done|].
  destruct (decide (k = k0)) as [->|Hne].
  - intros [= ->]. apply list_elem_of_here.
  - intros Hget. by apply list_elem_of_further, IH.
Qed.

Lemma elem_of_foldl_dict_set (F : K → V) ks d x :
  x ∈ dict_keys (foldl (λ d k, dict_set d k (F k)) d ks)
  ↔ x ∈ dict_keys d ∨ x ∈ ks.
Proof.
  revert d. induction ks as [|k ks IH]; intros d; cbn [foldl].
  - rewrite elem_of_nil. tauto.
  - rewrite IH, elem_of_dict_keys_set, elem_of_cons. tauto.
Qed.

Lemma NoDup_foldl_dict_set (F : K → V) ks d :
  NoDup (dict_keys d) →
  NoDup (dict_keys (foldl (λ d k, dict_set d k (F k)) d ks)).
Proof.
  revert d. induction ks as [|k ks IH]; intros d Hd; cbn [foldl]; [done|].
  by apply IH, NoDup_dict_keys_set.
Qed.
End dict_properties.

(** ** Batching of over-window aggregations and temporal joins *)

Lemma last_cons_default {A} (l : list A) c d :
  List.last (c :: l) d = List.last l c.
Proof.
  revert c d. induction l as [|a l IH]; intros c d; [done|].
  change (List.last (c :: a :: l) d) with (List.last (a :: l) d).
  by rewrite !IH.
Qed.

Section BatchProperties.
Context `{env : Collaborators}.
Implicit Types (s : DerivedLoopState) (f : Feature).


Lemma dispatch_Return view src dbn s f s1 :
  derived_dispatch view src dbn s f = Return s1 →
  if decide (name f ∈ get_field_names (tmp_table s)) then s1 = s
  else window_agg_map s1 = window_step (window_agg_map s) f
       ∧ right_tables s1 = join_step dbn (right_tables s) f
       ∧ join_checked dbn f.
Proof.
  unfold derived_dispatch, window_step, join_step, join_checked,
    right_timestamp_field_of.
  case_decide; [by intros [= <-]|].
  destruct (transform f) as [e|e a w|e a w|tn fn|ty]; try discriminate.
  - intros [= <-]. by split_and!.
  - destruct (timestamp_field view); [|discriminate].
    intros [= <-]. by split_and!.
  - destruct (keys f) as [ks|]; [|discriminate].
    destruct (forallb _ ks); [|discriminate].
    destruct (dict_get dbn tn) as [d|] eqn:Hd; [|discriminate].
    destruct (timestamp_field d) as [ts|] eqn:Hts; [|discriminate].
    intros [= <-]. split_and!; [done..|].
    intros tn' fn' [= <- <-]. rewrite Hd. cbn. rewrite Hts. eauto.
Qed.

(** The maps at the end of the loop are what the dispatched features,
    taken in order, add to the maps at its start. *)
Lemma loop_fold view src dbn l s s' :
  for_each (derived_dispatch view src dbn) s l = Return s' →
  window_agg_map s'
  = foldl window_step (window_agg_map s) (dispatched view src dbn s l)
  ∧ right_tables s'
    = foldl (join_step dbn) (right_tables s) (dispatched view src dbn s l)
  ∧ Forall (join_checked dbn) (dispatched view src dbn s l).
Proof.
  revert s. induction l as [|f l IH]; intros s; cbn [for_each dispatched].
  - intros [= <-]. by split_and!.
  - destruct (derived_dispatch view src dbn s f) as [e|s1] eqn:Hstep;
      [discriminate|].
    intros Hrest. destruct (IH _ Hrest) as (Hw & Hj & Hall).
    apply dispatch_Return in Hstep. case_decide.
    + subst s1. by split_and!.
    + destruct Hstep as (Hw1 & Hj1 & Hok). cbn [app foldl].
      rewrite <-Hw1, <-Hj1. split_and!; [done..|by constructor].
Qed.

Lemma window_step_get m f w :
  dict_get (window_step m f) w
  = if decide (over_window_of f = Some w)
    then Some (default [] (dict_get m w)
               ++ [AggregationFieldDescriptor_from_feature f])
    else dict_get m w.
Proof.
  unfold window_step, over_window_of, add_window_agg,
    from_over_window_transform.
  destruct (transform f) as [e|e a w0|e a w0|tn fn|ty];
    try by rewrite decide_False.
  rewrite dict_get_set. destruct (decide (w = w0)) as [->|Hne].
  - by rewrite decide_True.
  - rewrite decide_False; [done|]. by intros [= ->].
Qed.

Lemma NoDup_window_step m f :
  NoDup (dict_keys m) → NoDup (dict_keys (window_step m f)).
Proof.
  intros Hm. unfold window_step, add_window_agg.
  destruct (transform f); try done. by apply NoDup_dict_keys_set.
Qed.

Lemma foldl_window_step_get D m w :
  dict_get (foldl window_step m D) w
  = match filter (λ f, over_window_of f = Some w) D with
    | [] => dict_get m w
    | batch =>
        Some (default [] (dict_get m w)
              ++ (AggregationFieldDescriptor_from_feature <$> batch))
    end.
Proof.
  revert m. induction D as [|f D IH]; intros m; cbn [foldl]; [done|].
  rewrite IH, window_step_get, filter_cons. case_decide as Hf.
  - destruct (filter _ D) as [|g batch]; [done|].
    rewrite (fmap_cons _ f). f_equal.
    change (default [] (Some ?x)) with x. by rewrite <-app_assoc.
  - done.
Qed.

Lemma NoDup_foldl_window_step D m :
  NoDup (dict_keys m) → NoDup (dict_keys (foldl window_step m D)).
Proof.
  revert m. induction D as [|f D IH]; intros m Hm; cbn [foldl]; [done|].
  by apply IH, NoDup_window_step.
Qed.

Lemma evaluate_over_windows_calls wam tmp st :
  evaluate_over_windows tmp wam st
  = (Return (List.last (over_window_calls tmp wam) tmp),
     mkBuilderState (_built_tables st)
       (helper_calls st ++ over_window_calls tmp wam)).
Proof.
  unfold evaluate_over_windows.
  revert tmp st. induction wam as [|[w aggs] wam IH]; intros tmp st.
  - cbn. rewrite app_nil_r. by destruct st.
  - cbn [for_each_M over_window_calls]. unfold bind, call_helper at 1.
    rewrite IH. cbn [_built_tables helper_calls]. rewrite <-app_assoc.
    by rewrite last_cons_default.
Qed.

Lemma over_window_calls_other wam tmp w :
  w ∉ dict_keys wam →
  filter (λ c, call_window c = Some w) (over_window_calls tmp wam) = [].
Proof.
  revert tmp. induction wam as [|[w0 aggs] wam IH]; intros tmp; [done|].
  cbn [over_window_calls]. unfold dict_keys. cbn [fmap list_fmap fst].
  intros [Hne Hout]%not_elem_of_cons. rewrite filter_cons.
  cbn [call_window]. rewrite decide_False by congruence. by apply IH.
Qed.

Lemma over_window_calls_one wam tmp w aggs :
  NoDup (dict_keys wam) → dict_get wam w = Some aggs →
  ∃ input,
    filter (λ c, call_window c = Some w) (over_window_calls tmp wam)
    = [evaluate_over_window_transform input w aggs].
Proof.
  revert tmp. induction wam as [|[w0 aggs0] wam IH]; intros tmp; [done|].
  unfold dict_keys. cbn [fmap list_fmap fst dict_get over_window_calls].
  intros [Hout Hnodup]%NoDup_cons. rewrite filter_cons. cbn [call_window].
  destruct (decide (w = w0)) as [->|Hne].
  - intros [= ->]. rewrite decide_True by done.
    rewrite over_window_calls_other by done. eauto.
  - intros Hget. rewrite decide_False by congruence. by apply IH.
Qed.

(** The over-window batches the dispatch loop leaves: the keys of
    [window_agg_map] are distinct, and the calls issued for its entries
    serve each window descriptor by one call, which receives the
    aggregation descriptors of the dispatched features of that descriptor,
    in order. *)
Lemma dispatch_over_window_batches view src dbn deps s :
  for_each (derived_dispatch view src dbn) (mkDerivedLoopState src [] [])
    deps = Return s →
  let D := dispatched view src dbn (mkDerivedLoopState src [] []) deps in
  let calls := over_window_calls (tmp_table s) (window_agg_map s) in
  NoDup (dict_keys (window_agg_map s))
  ∧ ∀ w,
      match filter (λ f, over_window_of f = Some w) D with
      | [] => filter (λ c, call_window c = Some w) calls = []
      | batch =>
          ∃ input,
            filter (λ c, call_window c = Some w) calls
            = [evaluate_over_window_transform input w
                 (AggregationFieldDescriptor_from_feature <$> batch)]
      end.
Proof.
  intros Hloop D calls. subst D calls.
  destruct (loop_fold _ _ _ _ _ _ Hloop) as (Hw & _ & _).
  cbn [window_agg_map] in Hw.
  assert (Hnodup : NoDup (dict_keys (window_agg_map s))).
  { rewrite Hw. apply NoDup_foldl_window_step, NoDup_nil_2. }
  split; [done|]. intros w.
  pose proof (foldl_window_step_get
                (dispatched view src dbn (mkDerivedLoopState src [] []) deps)
                [] w) as Hget.
  rewrite <-Hw in Hget.
  destruct (filter _ (dispatched _ _ _ _ _)) as [|f batch].
  - apply over_window_calls_other. by apply dict_get_None.
  - by apply over_window_calls_one.
Qed.

Lemma add_join_fields_get m ks tn fn d ts b :
  dict_get (add_join_fields m ks tn fn d ts) b
  = if decide (b = (tn, ks))
    then dict_get (add_join_fields m ks tn fn d ts) (tn, ks)
    else dict_get m b.
Proof.
  case_decide as Hb; [by subst|].
  unfold add_join_fields. rewrite dict_get_set. by rewrite decide_False.
Qed.

Lemma add_join_fields_new m ks tn fn d ts :
  ∃ fds,
    dict_get (add_join_fields m ks tn fn d ts) (tn, ks) = Some fds
    ∧ (NoDup (dict_keys (default [] (dict_get m (tn, ks)))) →
       NoDup (dict_keys fds))
    ∧ ∀ x, x ∈ dict_keys fds
           ↔ x ∈ dict_keys (default [] (dict_get m (tn, ks)))
             ∨ x ∈ ks ∨ x = ts ∨ x = EVENT_TIME_ATTRIBUTE_NAME ∨ x = fn.
Proof.
  unfold add_join_fields. eexists. rewrite dict_get_set, decide_True by done.
  split_and!; [done| |].
  - intros Hold.
    by do 3 apply NoDup_dict_keys_set; apply NoDup_foldl_dict_set.
  - intros x. rewrite !elem_of_dict_keys_set, elem_of_foldl_dict_set. tauto.
Qed.

Lemma join_step_other dbn m f b :
  join_batch_of f ≠ Some b →
  dict_get (join_step dbn m f) b = dict_get m b.
Proof.
  unfold join_step, join_batch_of.
  destruct (transform f) as [e|e a w|e a w|tn fn|ty]; try done.
  destruct (keys f) as [ks|]; [|done]. intros Hne.
  destruct (dict_get dbn tn) as [d|]; [|done].
  destruct (timestamp_field d) as [ts|]; [|done].
  rewrite add_join_fields_get. rewrite decide_False; [done|]. congruence.
Qed.

Lemma join_step_batch dbn m f tn ks :
  join_checked dbn f → join_batch_of f = Some (tn, ks) →
  ∃ fds,
    dict_get (join_step dbn m f) (tn, ks) = Some fds
    ∧ (NoDup (dict_keys (default [] (dict_get m (tn, ks)))) →
       NoDup (dict_keys fds))
    ∧ ∀ x, x ∈ dict_keys fds
           ↔ x ∈ dict_keys (default [] (dict_get m (tn, ks)))
             ∨ batch_field dbn tn ks [f] x.
Proof.
  intros Hchecked Hbatch. unfold join_batch_of in Hbatch.
  destruct (transform f) as [e|e a w|e a w|tn0 fn|ty] eqn:Htr; try done.
  destruct (Hchecked _ _ Htr) as [_ [ts Hts]].
  destruct (keys f) as [ks0|] eqn:Hkeys; [|done].
  injection Hbatch as -> ->.
  assert (Hfield : joined_field_of f = Some fn)
    by (unfold joined_field_of; by rewrite Htr).
  unfold join_step. rewrite Htr, Hkeys.
  unfold right_timestamp_field_of in Hts.
  destruct (dict_get dbn tn) as [d|] eqn:Hd; [|done]. cbn in Hts.
  rewrite Hts.
  destruct (add_join_fields_new m ks tn fn d ts) as (fds & Hget & Hnd & Hin).
  exists fds. split_and!; [done..|]. intros x. rewrite Hin.
  assert (Hts' : right_timestamp_field_of dbn tn = Some ts)
    by (unfold right_timestamp_field_of; by rewrite Hd).
  unfold batch_field. rewrite Hts'. split.
  - intros [?|[?|[->|[->| ->]]]]; eauto 6.
    right. right. right. right. exists f.
    split; [apply list_elem_of_here|done].
  - intros [?|[?|[Hx|[->|(f' & ->%list_elem_of_singleton & Hf')]]]];
      eauto 6.
    + injection Hx as <-. eauto 6.
    + rewrite Hfield in Hf'. injection Hf' as <-. eauto 6.
Qed.

Lemma NoDup_join_step dbn m f :
  NoDup (dict_keys m) → NoDup (dict_keys (join_step dbn m f)).
Proof.
  intros Hm. unfold join_step, add_join_fields.
  destruct (transform f); try done. destruct (keys f); [|done].
  destruct (dict_get dbn _) as [d|]; [|done].
  destruct (timestamp_field d); [|done]. by apply NoDup_dict_keys_set.
Qed.

Lemma NoDup_foldl_join_step dbn D m :
  NoDup (dict_keys m) → NoDup (dict_keys (foldl (join_step dbn) m D)).
Proof.
  revert m. induction D as [|f D IH]; intros m Hm; cbn [foldl]; [done|].
  by apply IH, NoDup_join_step.
Qed.

Lemma batch_field_cons dbn tn ks f batch x :
  batch_field dbn tn ks (f :: batch) x
  ↔ batch_field dbn tn ks [f] x ∨ batch_field dbn tn ks batch x.
Proof.
  unfold batch_field. setoid_rewrite elem_of_cons.
  setoid_rewrite elem_of_nil. naive_solver.
Qed.

Lemma foldl_join_step_get dbn D m tn ks :
  Forall (join_checked dbn) D →
  match filter (λ f, join_batch_of f = Some (tn, ks)) D with
  | [] => dict_get (foldl (join_step dbn) m D) (tn, ks) = dict_get m (tn, ks)
  | batch =>
      ∃ fds,
        dict_get (foldl (join_step dbn) m D) (tn, ks) = Some fds
        ∧ (NoDup (dict_keys (default [] (dict_get m (tn, ks)))) →
           NoDup (dict_keys fds))
        ∧ ∀ x, x ∈ dict_keys fds
               ↔ x ∈ dict_keys (default [] (dict_get m (tn, ks)))
                 ∨ batch_field dbn tn ks batch x
  end.
Proof.
  intros HD. revert m.
  induction HD as [|f D Hf HD IH]; intros m; cbn [foldl]; [done|].
  rewrite filter_cons. specialize (IH (join_step dbn m f)).
  case_decide as Hbatch.
  - destruct (join_step_batch dbn m f tn ks Hf Hbatch)
      as (fds1 & Hget1 & Hnd1 & Hin1).
    destruct (filter _ D) as [|g batch].
    + exists fds1. by rewrite IH.
    + destruct IH as (fds & Hget & Hnd & Hin). rewrite Hget1 in Hnd, Hin.
      exists fds. split_and!; [done|auto|].
      intros x. rewrite Hin. change (default [] (Some fds1)) with fds1.
      rewrite Hin1, (batch_field_cons _ _ _ f (g :: batch)). tauto.
  - rewrite (join_step_other _ _ _ _ Hbatch) in IH. exact IH.
Qed.

Lemma evaluate_temporal_joins_calls tbn rt tmp st t st' :
  evaluate_temporal_joins tbn tmp rt st = (Return t, st') →
  st' = mkBuilderState (_built_tables st)
          (helper_calls st ++ temporal_join_calls tbn tmp rt)
  ∧ t = List.last (temporal_join_calls tbn tmp rt) tmp
  ∧ Forall2
      (λ call '((table_name, join_keys), fds),
         ∃ input right,
           dict_get tbn table_name = Some right
           ∧ call = temporal_join input (select right (dict_keys fds))
                      join_keys fds)
      (temporal_join_calls tbn tmp rt) rt.
Proof.
  unfold evaluate_temporal_joins.
  revert tmp st. induction rt as [|[[tn ks] fds] rt IH]; intros tmp st.
  - cbn. intros [= <- <-]. rewrite app_nil_r. split_and!; [by destruct st|done|].
    constructor.
  - cbn [for_each_M temporal_join_calls].
    destruct (dict_get tbn tn) as [right|] eqn:Hright; [|discriminate].
    unfold bind at 1, call_helper at 1. intros Hrest.
    apply IH in Hrest as (-> & -> & Hall). cbn [_built_tables helper_calls].
    rewrite <-app_assoc, last_cons_default. split_and!; [done..|].
    constructor; [|done]. eauto.
Qed.

(** The join batches the dispatch loop leaves: the keys of [right_tables]
    are distinct; the dispatched join features of a pair
    [(table_name, keys)] share one entry, whose map has distinct fields,
    namely the join keys, the right timestamp field, the event-time column
    and the requested field of each of these features; a pair that no
    dispatched feature has gets no entry. *)
Lemma dispatch_join_batches view src dbn deps s :
  for_each (derived_dispatch view src dbn) (mkDerivedLoopState src [] [])
    deps = Return s →
  let D := dispatched view src dbn (mkDerivedLoopState src [] []) deps in
  NoDup (dict_keys (right_tables s))
  ∧ ∀ table_name join_keys,
      match filter (λ f, join_batch_of f = Some (table_name, join_keys)) D
      with
      | [] => dict_get (right_tables s) (table_name, join_keys) = None
      | batch =>
          ∃ fds,
            dict_get (right_tables s) (table_name, join_keys) = Some fds
            ∧ NoDup (dict_keys fds)
            ∧ ∀ x, x ∈ dict_keys fds
                   ↔ batch_field dbn table_name join_keys batch x
      end.
Proof.
  intros Hloop D. subst D.
  destruct (loop_fold _ _ _ _ _ _ Hloop) as (_ & Hrt & Hchecked).
  cbn [right_tables] in Hrt. split.
  - rewrite Hrt. apply NoDup_foldl_join_step, NoDup_nil_2.
  - intros tn ks.
    pose proof (foldl_join_step_get dbn _ [] tn ks Hchecked) as Hget.
    rewrite <-Hrt in Hget.
    destruct (filter _ (dispatched _ _ _ _ _)) as [|f batch]; [done|].
    destruct Hget as (fds & Hfds & Hnd & Hin). exists fds.
    split_and!; [done|apply Hnd, NoDup_nil_2|].
    intros x. rewrite Hin.
    change (dict_keys (default [] (dict_get [] (tn, ks))))
      with (@nil string).
    rewrite elem_of_nil. tauto.
Qed.

Lemma over_window_calls_windows tmp wam :
  Forall (λ c, is_Some (call_window c)) (over_window_calls tmp wam).
Proof.
  revert tmp. induction wam as [|[w aggs] wam IH]; intros tmp; cbn.
  - constructor.
  - constructor; [by eexists|apply IH].
Qed.

Lemma temporal_join_calls_no_window tbn rt tmp w :
  filter (λ c, call_window c = Some w) (temporal_join_calls tbn tmp rt) = [].
Proof.
  revert tmp. induction rt as [|[[tn ks] fds] rt IH]; intros tmp; [done|].
  cbn [temporal_join_calls]. destruct (dict_get tbn tn); [|done].
  rewrite filter_cons. cbn [call_window]. rewrite decide_False by done.
  apply IH.
Qed.

(** The helper calls of one derived view, once its source and joined
    tables are compiled: the over-window batches, then the join batches,
    one call per entry of [right_tables]. *)
Lemma derived_view_calls rec view view_source st src st1 dbn tbn st2 t st' :
  source view = Some view_source →
  rec (DescriptorInput view_source) st = (Return src, st1) →
  compile_join_tables rec
    (remove_dups (join_table_names (get_resolved_features view))) st1
  = (Return (dbn, tbn), st2) →
  _get_table_from_derived_feature_view rec view st = (Return t, st') →
  ∃ s,
    for_each (derived_dispatch view src dbn) (mkDerivedLoopState src [] [])
      (_get_dependent_features (get_resolved_features view)) = Return s
    ∧ let window_calls :=
        over_window_calls (tmp_table s) (window_agg_map s) in
      let join_calls :=
        temporal_join_calls tbn (List.last window_calls (tmp_table s))
          (right_tables s) in
      _built_tables st' = _built_tables st2
      ∧ helper_calls st'
        = helper_calls st2 ++ window_calls ++ join_calls
      ∧ Forall2
          (λ call '((table_name, join_keys), fds),
             ∃ input right,
               dict_get tbn table_name = Some right
               ∧ call = temporal_join input (select right (dict_keys fds))
                          join_keys fds)
          join_calls (right_tables s).
Proof.
  intros Hsource Hsrc Hjoin.
  rewrite (derived_view_phases _ _ _ _ _ _ _ _ _ Hsource Hsrc Hjoin).
  destruct (for_each _ _ _) as [e|s]; [discriminate|].
  intros (t1 & st3 & Hwin & (t2 & st4 & Hjoins & [= _ <-])%bind_Return)
    %bind_Return.
  rewrite evaluate_over_windows_calls in Hwin. injection Hwin as <- <-.
  apply evaluate_temporal_joins_calls in Hjoins as (-> & _ & Hall).
  exists s. split; [done|]. cbn zeta. cbn [_built_tables helper_calls].
  split_and!; [done|by rewrite <-app_assoc|done].
Qed.

(** C6 (amended).  Take a derived view that compiles, and the features its
    dispatch loop does not skip, a feature being skipped when its name is
    already a column of the accumulating table.  Among the helper calls the
    view issues once its source and joined tables are compiled, every
    window descriptor that some of these features has is served by exactly
    one over-window aggregation, which receives the aggregation descriptors
    of all of them, in order; a descriptor that none of them has gets no
    call. *)
Theorem over_window_batching rec view view_source st src st1 dbn tbn st2 t
    st' :
  source view = Some view_source →
  rec (DescriptorInput view_source) st = (Return src, st1) →
  compile_join_tables rec
    (remove_dups (join_table_names (get_resolved_features view))) st1
  = (Return (dbn, tbn), st2) →
  _get_table_from_derived_feature_view rec view st = (Return t, st') →
  let D := dispatched view src dbn (mkDerivedLoopState src [] [])
             (_get_dependent_features (get_resolved_features view)) in
  ∃ calls,
    helper_calls st' = helper_calls st2 ++ calls
    ∧ ∀ w,
        match filter (λ f, over_window_of f = Some w) D with
        | [] => filter (λ c, call_window c = Some w) calls = []
        | batch =>
            ∃ input,
              filter (λ c, call_window c = Some w) calls
              = [evaluate_over_window_transform input w
                   (AggregationFieldDescriptor_from_feature <$> batch)]
        end.
Proof.
  intros Hsource Hsrc Hjoin Hcompiled D. subst D.
  destruct (derived_view_calls _ _ _ _ _ _ _ _ _ _ _ Hsource Hsrc Hjoin
              Hcompiled) as (s & Hloop & _ & Hcalls & _).
  eexists. split; [exact Hcalls|]. intros w.
  rewrite filter_app, temporal_join_calls_no_window, app_nil_r.
  apply (proj2 (dispatch_over_window_batches _ _ _ _ _ Hloop)).
Qed.

(** C5 (amended).  Take a derived view that compiles, and the features its
    dispatch loop does not skip, a feature being skipped when its name is
    already a column of the accumulating table.  The helper calls the view
    issues once its source and joined tables are compiled are its
    over-window aggregations followed by its temporal joins, one join per
    batch, the batches having distinct pairs [(table_name, keys)]; the
    right table of the join of a batch is the table compiled for
    [table_name], projected on the fields of the batch's field-descriptor
    map.  The join features among them that share a pair share one batch,
    whose fields are distinct and are exactly the join keys, the right
    timestamp field, the event-time column and the requested field of each
    of these features; a pair that none of them has gets no batch. *)
Theorem join_batching rec view view_source st src st1 dbn tbn st2 t st' :
  source view = Some view_source →
  rec (DescriptorInput view_source) st = (Return src, st1) →
  compile_join_tables rec
    (remove_dups (join_table_names (get_resolved_features view))) st1
  = (Return (dbn, tbn), st2) →
  _get_table_from_derived_feature_view rec view st = (Return t, st') →
  let D := dispatched view src dbn (mkDerivedLoopState src [] [])
             (_get_dependent_features (get_resolved_features view)) in
  ∃ window_calls join_calls batches,
    helper_calls st' = helper_calls st2 ++ window_calls ++ join_calls
    ∧ Forall (λ c, is_Some (call_window c)) window_calls
    ∧ NoDup (dict_keys batches)
    ∧ Forall2
        (λ call '((table_name, join_keys), fds),
           ∃ input right,
             dict_get tbn table_name = Some right
             ∧ call = temporal_join input (select right (dict_keys fds))
                        join_keys fds)
        join_calls batches
    ∧ ∀ table_name join_keys,
        match filter (λ f, join_batch_of f = Some (table_name, join_keys)) D
        with
        | [] => dict_get batches (table_name, join_keys) = None
        | batch =>
            ∃ fds,
              dict_get batches (table_name, join_keys) = Some fds
              ∧ NoDup (dict_keys fds)
              ∧ ∀ x, x ∈ dict_keys fds
                     ↔ batch_field dbn table_name join_keys batch x
        end.
Proof.
  intros Hsource Hsrc Hjoin Hcompiled D. subst D.
  destruct (derived_view_calls _ _ _ _ _ _ _ _ _ _ _ Hsource Hsrc Hjoin
              Hcompiled) as (s & Hloop & _ & Hcalls & Hall).
  destruct (dispatch_join_batches _ _ _ _ _ Hloop) as [Hnodup Hbatches].
  eexists _, _, (right_tables s).
  split_and!; [exact Hcalls|apply over_window_calls_windows|done..].
Qed.
End BatchProperties.

Lemma over_window_batching_witness :
  let w := mkOverWindowDescriptor ["user_id"] "time" in
  ∃ t st' calls input,
    _get_table_from_derived_feature_view (env := Examples.env)
      (_get_table (env := Examples.env) 1) Examples.user_view __init__
    = (Return t, st')
    ∧ helper_calls st'
      = [get_table_from_source Examples.users;
         get_table_from_source Examples.profiles] ++ calls
    ∧ filter (λ c, call_window c = Some w) calls
      = [evaluate_over_window_transform input w
           (AggregationFieldDescriptor_from_feature
              <$> [Examples.total_spend; Examples.max_spend])].
Proof.
  intros w.
  set (src := get_table_from_source Examples.users).
  set (st1 := stored Examples.users src (logged src __init__)).
  set (right := get_table_from_source Examples.profiles).
  set (st2 := stored Examples.profiles right (logged right st1)).
  assert (Hrun : ∃ t st',
    _get_table_from_derived_feature_view (env := Examples.env)
      (_get_table (env := Examples.env) 1) Examples.user_view __init__
    = (Return t, st')) by (eexists _, _; vm_compute; reflexivity).
  destruct Hrun as (t & st' & Hrun).
  destruct (over_window_batching (env := Examples.env)
              (_get_table (env := Examples.env) 1) Examples.user_view
              Examples.users __init__ src st1
              [("profiles", Examples.profiles)] [("profiles", right)] st2
              t st' eq_refl eq_refl eq_refl Hrun) as (calls & Hcalls & Hbatch).
  specialize (Hbatch w).
  assert (Hfilter :
    filter (λ f, over_window_of f = Some w)
      (dispatched (env := Examples.env) Examples.user_view src
         [("profiles", Examples.profiles)] (mkDerivedLoopState src [] [])
         (_get_dependent_features
            (get_resolved_features Examples.user_view)))
    = [Examples.total_spend; Examples.max_spend])
    by (vm_compute; reflexivity).
  rewrite Hfilter in Hbatch. destruct Hbatch as [input Hone].
  exists t, st', calls, input. split_and!; [exact Hrun|exact Hcalls|exact Hone].
Defined.

(** C6 (counterexample).  The view [window_view] declares two over-window
    features on one window descriptor, [total_spend] and [spend_sum]; the
    second is named like the column [spend] of the source and is skipped by
    the dispatch loop.  The one over-window call of the compilation
    receives the aggregation descriptor of [total_spend] alone. *)
Lemma over_window_feature_named_like_column :
  let w := mkOverWindowDescriptor ["user_id"] "time" in
  filter (λ f, over_window_of f = Some w)
    (get_resolved_features Examples.window_view)
  = [Examples.total_spend; Examples.spend_sum]
  ∧ ∃ t st',
      _get_table_from_derived_feature_view (env := Examples.env)
        (_get_table (env := Examples.env) 1) Examples.window_view __init__
      = (Return t, st')
      ∧ filter (λ c, call_window c = Some w) (helper_calls st')
        = [evaluate_over_window_transform
             (get_table_from_source Examples.users) w
             [AggregationFieldDescriptor_from_feature Examples.total_spend]].
Proof.
  intros w. split; [vm_compute; reflexivity|].
  eexists _, _. split; vm_compute; reflexivity.
Qed.

Lemma join_batching_witness :
  ∃ t st' window_calls join_calls batches
    (fds : list (string * JoinFieldDescriptor)),
    _get_table_from_derived_feature_view (env := Examples.env)
      (_get_table (env := Examples.env) 1) Examples.user_view __init__
    = (Return t, st')
    ∧ helper_calls st'
      = [get_table_from_source Examples.users;
         get_table_from_source Examples.profiles]
        ++ window_calls ++ join_calls
    ∧ length join_calls = length batches
    ∧ dict_get batches ("profiles", ["user_id"]) = Some fds
    ∧ NoDup (dict_keys fds)
    ∧ "city" ∈ dict_keys fds.
Proof.
  set (src := get_table_from_source Examples.users).
  set (st1 := stored Examples.users src (logged src __init__)).
  set (right := get_table_from_source Examples.profiles).
  set (st2 := stored Examples.profiles right (logged right st1)).
  assert (Hrun : ∃ t st',
    _get_table_from_derived_feature_view (env := Examples.env)
      (_get_table (env := Examples.env) 1) Examples.user_view __init__
    = (Return t, st')) by (eexists _, _; vm_compute; reflexivity).
  destruct Hrun as (t & st' & Hrun).
  destruct (join_batching (env := Examples.env)
              (_get_table (env := Examples.env) 1) Examples.user_view
              Examples.users __init__ src st1
              [("profiles", Examples.profiles)] [("profiles", right)] st2
              t st' eq_refl eq_refl eq_refl Hrun)
    as (window_calls & join_calls & batches & Hcalls & _ & _ & Hall & Hbatch).
  specialize (Hbatch "profiles" ["user_id"]).
  assert (Hfilter :
    filter (λ f, join_batch_of f = Some ("profiles", ["user_id"]))
      (dispatched (env := Examples.env) Examples.user_view src
         [("profiles", Examples.profiles)] (mkDerivedLoopState src [] [])
         (_get_dependent_features
            (get_resolved_features Examples.user_view)))
    = [Examples.age; Examples.city])
    by (vm_compute; reflexivity).
  rewrite Hfilter in Hbatch. destruct Hbatch as (fds & Hfds & Hnd & Hin).
  exists t, st', window_calls, join_calls, batches, fds.
  split_and!; [exact Hrun|exact Hcalls|by apply Forall2_length in Hall
              |exact Hfds|exact Hnd|].
  apply Hin. right. right. right. exists Examples.city.
  split; [|reflexivity]. apply list_elem_of_further, list_elem_of_here.
Defined.

(** C5 (counterexample).  The view [join_view] declares two join features
    of the pair [("profiles", ["user_id"])], [age] and [spend_city]; the
    second, which requests the field [city], is named like the column
    [spend] of the source and is skipped by the dispatch loop.  The one
    temporal join of the compilation projects the right table on the keys,
    the timestamp field, the event-time column and [age]: the requested
    field [city] is not selected. *)
Lemma join_feature_named_like_column :
  let scan_users := get_table_from_source Examples.users in
  let scan_profiles := get_table_from_source Examples.profiles in
  let fds :=
    [("user_id", JoinFieldDescriptor_from_field_name "user_id");
     ("time", JoinFieldDescriptor_from_field_name "time");
     (Examples.event_time,
      JoinFieldDescriptor_from_field_name Examples.event_time);
     ("age",
      JoinFieldDescriptor_from_table_descriptor_and_field_name
        Examples.profiles "age")] in
  filter (λ f, join_batch_of f = Some ("profiles", ["user_id"]))
    (get_resolved_features Examples.join_view)
  = [Examples.age; Examples.spend_city]
  ∧ joined_field_of Examples.spend_city = Some "city"
  ∧ "city" ∉ dict_keys fds
  ∧ ∃ t st',
      _get_table_from_derived_feature_view (env := Examples.env)
        (_get_table (env := Examples.env) 1) Examples.join_view __init__
      = (Return t, st')
      ∧ helper_calls st'
        = [scan_users; scan_profiles;
           temporal_join scan_users (select scan_profiles (dict_keys fds))
             ["user_id"] fds].
Proof.
  intros scan_users scan_profiles fds.
  split; [vm_compute; reflexivity|]. split; [reflexivity|].
  split; [apply (bool_decide_unpack _); vm_compute; exact I|].
  eexists _, _. split; vm_compute; reflexivity.
Qed.

(** ** Relations kept along a session *)

Lemma call_helper_logged t st : call_helper t st = (Return t, logged t st).
Proof. reflexivity. Qed.

Section ViewShape.
Context `{env : Collaborators}.

Lemma _get_output_fields_event_time view source_fields :
  EVENT_TIME_ATTRIBUTE_NAME ∈ _get_output_fields view source_fields.
Proof.
  unfold _get_output_fields. case_decide; [done|].
  apply elem_of_app. right. apply list_elem_of_here.
Qed.

(** What the compilation of a view returns: a projection on the output
    fields of the view, computed from the fields of its source table. *)
Lemma compiled_view_shape rec view st t st' :
  _get_table_from_derived_feature_view rec view st = (Return t, st')
  ∨ _get_table_from_sliding_feature_view rec view st = (Return t, st') →
  ∃ view_source source_table st1 tmp,
    source view = Some view_source
    ∧ rec (DescriptorInput view_source) st = (Return source_table, st1)
    ∧ t = select tmp
            (_get_output_fields view (get_field_names source_table)).
Proof.
  intros [Hcompiled|Hcompiled].
  - unfold _get_table_from_derived_feature_view in Hcompiled.
    destruct (source view) as [view_source|]; [|discriminate].
    apply bind_Return in Hcompiled as (t1 & st1 & Hsrc & Hcompiled).
    apply bind_Return in Hcompiled as ([dbn tbn] & st2 & _ & Hcompiled).
    apply bind_Return in Hcompiled as (s & st3 & _ & Hcompiled).
    apply bind_Return in Hcompiled as (t4 & st4 & _ & Hcompiled).
    apply bind_Return in Hcompiled as (t5 & st5 & _ & [= <- _]).
    by exists view_source, t1, st1, t5.
  - unfold _get_table_from_sliding_feature_view in Hcompiled.
    destruct (source view) as [view_source|]; [|discriminate].
    apply bind_Return in Hcompiled as (t1 & st1 & Hsrc & Hcompiled).
    apply bind_Return in Hcompiled as (s & st2 & _ & Hcompiled).
    apply bind_Return in Hcompiled as (m & st3 & _ & Hcompiled).
    apply bind_Return in Hcompiled as (t4 & st4 & _ & [= <- _]).
    by eexists view_source, t1, st1, _.
Qed.
End ViewShape.

Section RespectsProperties.
Context `{env : Collaborators}.
Context (R : relation BuilderState) `{!PreOrder R}.

(** What the relation has to allow: a helper call other than a source scan,
    the cache write of a view with the projection compiled for it, and the
    scan of a source whose name is not cached followed by its cache
    write. *)
Hypothesis R_helper : ∀ t st, scanned_name t = None → R st (logged t st).
Hypothesis R_store :
  ∀ d tmp fields st,
    is_Some (source d) → EVENT_TIME_ATTRIBUTE_NAME ∈ fields →
    R st (stored d (select tmp fields) st).
Hypothesis R_scan :
  ∀ d st, source d = None → is_compilable d = true →
    _built_tables st !! descriptor_name d = None →
    R st (stored d (get_table_from_source d)
            (logged (get_table_from_source d) st)).

Lemma respects_ret {A} (a : A) : respects R (ret a).
Proof using PreOrder0. intros st r st' [= _ <-]. reflexivity. Qed.

Lemma respects_raise {A} e : respects R (raise (A := A) e).
Proof using PreOrder0. intros st r st' [= _ <-]. reflexivity. Qed.

Lemma respects_lift {A} (x : result A) : respects R (lift x).
Proof using PreOrder0. intros st r st' [= _ <-]. reflexivity. Qed.

Lemma respects_call_helper t :
  scanned_name t = None → respects R (call_helper t).
Proof using R_helper. intros Ht st r st' [= _ <-]. by apply R_helper. Qed.

Lemma respects_bind {A B} (m : M A) (k : A → M B) :
  respects R m → (∀ a, respects R (k a)) → respects R (bind m k).
Proof using PreOrder0.
  intros Hm Hk st r st'. unfold bind.
  destruct (m st) as [[e|a] st1] eqn:Em.
  - intros [= _ <-]. eauto.
  - intros Ek. etrans; [eapply Hm|eapply Hk]; eauto.
Qed.

Lemma respects_for_each_M {S A} (body : S → A → M S) l :
  (∀ s a, respects R (body s a)) → ∀ s, respects R (for_each_M body s l).
Proof using PreOrder0.
  intros Hbody. induction l as [|a l IH]; intros s; cbn.
  - apply respects_ret.
  - apply respects_bind; auto.
Qed.

Ltac respects_step :=
  first
    [ apply respects_bind; [|intros ?]
    | apply respects_for_each_M; intros ? ?
    | apply respects_ret
    | apply respects_raise
    | apply respects_lift
    | apply respects_call_helper; reflexivity
    | progress auto
    | match goal with
      | |- respects _ (match ?x with _ => _ end) => destruct x
      | |- respects _ (let '(_, _) := ?x in _) => destruct x
      | |- respects _ ((let '(_, _) := ?x in _) _) => destruct x
      | |- respects _ (if ?b then _ else _) => destruct b
      end ].

Lemma respects_derived rec feature_view :
  (∀ f, respects R (rec f)) →
  respects R (_get_table_from_derived_feature_view rec feature_view).
Proof using PreOrder0 R_helper.
  intros Hrec.
  unfold _get_table_from_derived_feature_view, compile_join_tables,
    evaluate_over_windows, evaluate_temporal_joins.
  repeat respects_step.
Qed.

Lemma respects_sliding rec feature_view :
  (∀ f, respects R (rec f)) →
  respects R (_get_table_from_sliding_feature_view rec feature_view).
Proof using PreOrder0 R_helper.
  intros Hrec.
  unfold _get_table_from_sliding_feature_view, evaluate_sliding_windows.
  repeat respects_step.
Qed.

Lemma respects__get_table fuel features :
  respects R (_get_table fuel features).
Proof using All.
  revert features. induction fuel as [|fuel IH]; intros [df|d] st r st';
    cbn; try (by apply respects_call_helper).
  - destruct (_built_tables st !! descriptor_name d) as [[cached table]|];
      [case_decide|]; intros [= _ <-]; reflexivity.
  - destruct (_built_tables st !! descriptor_name d) as [[cached table]|]
      eqn:Hlook; [case_decide; intros [= _ <-]; reflexivity|].
    assert (Hview : ∀ (m : M Table),
      respects R m → is_Some (source d) →
      (∀ t st1, m st = (Return t, st1) →
         ∃ tmp fields,
           t = select tmp fields ∧ EVENT_TIME_ATTRIBUTE_NAME ∈ fields) →
      (t ←M m; _ ←M cache_store d t; ret t) st = (r, st') → R st st').
    { intros m Hm Hsrc Hshape. unfold bind at 1.
      destruct (m st) as [[e|t] st1] eqn:Em; [intros [= _ <-]; eauto|].
      unfold bind, ret. cbn. intros [= _ <-].
      etrans; [by eapply Hm|].
      destruct (Hshape _ _ eq_refl) as (tmp & fields & -> & Hevent).
      by apply (R_store d tmp fields st1). }
    assert (Hshape : ∀ m t st1,
      m = _get_table_from_derived_feature_view (_get_table fuel) d
      ∨ m = _get_table_from_sliding_feature_view (_get_table fuel) d →
      m st = (Return t, st1) →
      ∃ tmp fields,
        t = select tmp fields ∧ EVENT_TIME_ATTRIBUTE_NAME ∈ fields).
    { intros m t st1 Hm Hrun.
      assert (Hcompiled :
        _get_table_from_derived_feature_view (_get_table fuel) d st
          = (Return t, st1)
        ∨ _get_table_from_sliding_feature_view (_get_table fuel) d st
          = (Return t, st1)) by (destruct Hm as [->| ->]; auto).
      apply compiled_view_shape in Hcompiled
        as (vs & src & st2 & tmp & _ & _ & ->).
      eexists _, _. split; [done|]. apply _get_output_fields_event_time. }
    destruct d.
    + intros [= _ <-]. by apply (R_scan (FeatureTable _ _ _ _)).
    + apply Hview; [by apply respects_derived|by eexists|].
      intros t st1. apply Hshape. by left.
    + apply Hview; [by apply respects_sliding|by eexists|].
      intros t st1. apply Hshape. by right.
    + intros [= _ <-]. reflexivity.
Qed.

Lemma respects__filter_table_by_keys fuel table keys :
  respects R (_filter_table_by_keys fuel table keys).
Proof using All.
  unfold _filter_table_by_keys.
  repeat first [ apply respects__get_table | respects_step ].
Qed.

Lemma respects_build fuel features keys start_datetime end_datetime :
  respects R (build fuel features keys start_datetime end_datetime).
Proof using All.
  unfold build.
  destruct (is_feature_view features && is_unresolved features);
    [apply respects_raise|].
  repeat first [ apply respects__get_table
               | apply respects__filter_table_by_keys | respects_step ].
Qed.

Lemma later_in_session_respects st st' :
  later_in_session st st' → R st st'.
Proof using All.
  induction 1 as [st|st st1 st2 fuel features r _ IH Hcall
                    |st st1 st2 fuel features ks s e r _ IH Hcall].
  - reflexivity.
  - etrans; [exact IH|]. eapply respects__get_table, Hcall.
  - etrans; [exact IH|]. eapply respects_build, Hcall.
Qed.
End RespectsProperties.

(** ** Session invariants *)

Section SessionInvariants.
Context `{env : Collaborators}.

#[global] Instance log_extended_preorder : PreOrder log_extended.
Proof.
  split; [intros st; by unfold log_extended|].
  intros st1 st2 st3. unfold log_extended. by etrans.
Qed.

#[global] Instance keeps_preorder I : PreOrder (keeps I).
Proof.
  split; [by intros st Hst|]. intros st1 st2 st3 H12 H23 H1. by apply H23, H12.
Qed.

Lemma scans_of_name_snoc n calls t :
  scans_of_name n (calls ++ [t])
  = scans_of_name n calls
    ++ (if decide (scanned_name t = Some n) then [t] else []).
Proof.
  unfold scans_of_name. by rewrite filter_app.
Qed.

Lemma scanned_once_helper t st :
  scanned_name t = None → keeps scanned_once st (logged t st).
Proof.
  intros Ht Hst n. unfold logged. cbn [helper_calls _built_tables].
  rewrite scans_of_name_snoc.
  rewrite decide_False by congruence. rewrite app_nil_r. apply Hst.
Qed.

Lemma scanned_once_store d t st : keeps scanned_once st (stored d t st).
Proof.
  intros Hst n. unfold stored. cbn [helper_calls _built_tables].
  split; [apply Hst|].
  intros [Hn _]%lookup_insert_None. by apply Hst.
Qed.

Lemma scanned_once_scan d st :
  _built_tables st !! descriptor_name d = None →
  keeps scanned_once st
    (stored d (get_table_from_source d)
       (logged (get_table_from_source d) st)).
Proof.
  intros Hfresh Hst n. unfold stored, logged.
  cbn [helper_calls _built_tables]. rewrite scans_of_name_snoc.
  cbn [scanned_name].
  destruct (decide (descriptor_name d = n)) as [<-|Hne].
  - rewrite decide_True by done.
    rewrite (proj2 (Hst _) Hfresh). cbn. split; [lia|].
    by rewrite lookup_insert_eq.
  - rewrite decide_False by congruence. rewrite app_nil_r.
    split; [apply Hst|]. intros [Hn _]%lookup_insert_None. by apply Hst.
Qed.

Lemma cache_well_formed_store d t st :
  is_compilable d = true → keeps cache_well_formed st (stored d t st).
Proof.
  intros Hd Hst n d' t'. unfold stored. cbn [helper_calls _built_tables].
  destruct (decide (descriptor_name d = n)) as [<-|Hne].
  - rewrite lookup_insert_eq. by intros [= <- <-].
  - rewrite lookup_insert_ne by done. apply Hst.
Qed.

Lemma is_compilable_view d : is_Some (source d) → is_compilable d = true.
Proof. by destruct d; intros [? [=]]. Qed.

(** X1.  Between the start of a call of [_get_table] or [build] and the end
    of that call or of any later call of the session, whether the calls
    return or raise: every entry that was in the cache at the start is
    still there with the same descriptor and table, and the log of helper
    calls has only been extended. *)
Theorem session_only_grows st st' :
  later_in_session st st' →
  cache_preserved st st' ∧ log_extended st st'.
Proof.
  intros Hlater. split; [by apply later_in_session_preserved|].
  revert Hlater. apply (later_in_session_respects log_extended).
  - intros t st0 _. unfold log_extended, logged. cbn. by apply prefix_app_r.
  - intros d tmp fields st0 _ _. by unfold log_extended, stored.
  - intros d st0 _ _ _. unfold log_extended, stored, logged. cbn.
    by apply prefix_app_r.
Qed.

(** X2.  The cache stays well formed along a session: every entry sits
    under the name of its own descriptor, and only feature tables and
    derived or sliding views are ever stored. *)
Theorem cache_stays_well_formed st st' :
  cache_well_formed st → later_in_session st st' → cache_well_formed st'.
Proof.
  intros Hst Hlater. revert Hlater Hst.
  apply (later_in_session_respects (keeps cache_well_formed)).
  - by intros t st0 _ H0.
  - intros d tmp fields st0 Hd _.
    by apply cache_well_formed_store, is_compilable_view.
  - intros d st0 _ Hd _ H0. by apply (cache_well_formed_store d).
Qed.

(** X3.  In a session that starts with a new builder, no source name is
    scanned twice: the log holds at most one [get_table_from_source] call
    per descriptor name, whatever calls were made and however they
    ended. *)
Theorem source_scanned_once st n :
  later_in_session __init__ st →
  (length (scans_of_name n (helper_calls st)) ≤ 1)%nat.
Proof.
  intros Hlater.
  assert (Hinit : scanned_once __init__).
  { intros m. cbn. split; [lia|done]. }
  assert (Hst : scanned_once st); [|apply Hst].
  revert Hlater Hinit.
  apply (later_in_session_respects (keeps scanned_once)).
  - intros t st0 Ht. by apply scanned_once_helper.
  - intros d tmp fields st0 _ _. apply scanned_once_store.
  - intros d st0 _ _ Hfresh. by apply scanned_once_scan.
Qed.
End SessionInvariants.

(** ** Which errors a method can raise *)

Section RaisesOnly.
Context `{env : Collaborators}.
Context (P : Error → Prop).

Lemma raises_only_ret {A} (a : A) : raises_only P (ret a).
Proof. intros st e st'. discriminate. Qed.

Lemma raises_only_raise {A} e : P e → raises_only P (raise (A := A) e).
Proof. by intros He st e' st' [= <- _]. Qed.

Lemma raises_only_lift {A} (x : result A) :
  (∀ e, x = Raise e → P e) → raises_only P (lift x).
Proof. intros Hx st e st' [= -> _]. by apply Hx. Qed.

Lemma raises_only_call_helper t : raises_only P (call_helper t).
Proof. intros st e st'. discriminate. Qed.

Lemma raises_only_cache_store d t : raises_only P (cache_store d t).
Proof. intros st e st'. discriminate. Qed.

Lemma raises_only_bind {A B} (m : M A) (k : A → M B) :
  raises_only P m → (∀ a, raises_only P (k a)) → raises_only P (bind m k).
Proof.
  intros Hm Hk st e st'. unfold bind.
  destruct (m st) as [[e1|a] st1] eqn:Em.
  - intros [= <- _]. eauto.
  - intros Ek. eapply Hk; eauto.
Qed.

Lemma raises_only_for_each_M {S A} (body : S → A → M S) l :
  (∀ s a, raises_only P (body s a)) →
  ∀ s, raises_only P (for_each_M body s l).
Proof.
  intros Hbody. induction l as [|a l IH]; intros s; cbn.
  - apply raises_only_ret.
  - apply raises_only_bind; auto.
Qed.

Lemma for_each_Raise {S A} (body : S → A → result S) l s e :
  for_each body s l = Raise e → ∃ s' a, a ∈ l ∧ body s' a = Raise e.
Proof.
  revert s. induction l as [|a l IH]; intros s; cbn; [discriminate|].
  destruct (body s a) as [e'|s1] eqn:Hbody.
  - intros [= ->]. exists s, a. split; [apply list_elem_of_here|done].
  - intros (s' & b & Hb & Hraise)%IH. exists s', b.
    split; [by apply list_elem_of_further|done].
Qed.
End RaisesOnly.

Section ErrorProvenance.
Context `{env : Collaborators}.

Notation compilation_error :=
  (λ e, raised_outside_compilation e = false).

Lemma derived_dispatch_errors view src dbn s f e :
  derived_dispatch view src dbn s f = Raise e →
  raised_outside_compilation e = false.
Proof.
  unfold derived_dispatch.
  repeat case_match; try discriminate; by intros [= <-].
Qed.

Lemma sliding_dispatch_errors view s f e :
  sliding_dispatch view s f = Raise e →
  raised_outside_compilation e = false.
Proof.
  unfold sliding_dispatch.
  repeat case_match; try discriminate; by intros [= <-].
Qed.

Ltac raises_step :=
  first
    [ apply raises_only_bind; [|intros ?]
    | apply raises_only_for_each_M; intros ? ?
    | apply raises_only_ret
    | apply raises_only_call_helper
    | apply raises_only_cache_store
    | apply raises_only_raise; reflexivity
    | progress auto
    | match goal with
      | |- raises_only _ (match ?x with _ => _ end) => destruct x
      | |- raises_only _ (let '(_, _) := ?x in _) => destruct x
      | |- raises_only _ ((let '(_, _) := ?x in _) _) => destruct x
      | |- raises_only _ (if ?b then _ else _) => destruct b
      end ].

Lemma compilation_errors_derived rec feature_view :
  (∀ f, raises_only compilation_error (rec f)) →
  raises_only compilation_error
    (_get_table_from_derived_feature_view rec feature_view).
Proof.
  intros Hrec.
  unfold _get_table_from_derived_feature_view, compile_join_tables,
    evaluate_over_windows, evaluate_temporal_joins.
  repeat first
    [ apply raises_only_lift; intros e (? & ? & _ & Hraise)%for_each_Raise;
      by apply derived_dispatch_errors in Hraise
    | raises_step ].
Qed.

Lemma add_timestamp_field_errors view tmp e :
  add_timestamp_field view tmp = Raise e →
  raised_outside_compilation e = false.
Proof.
  unfold add_timestamp_field, Table_add_columns.
  repeat case_match; try discriminate; by intros [= <-].
Qed.

Lemma compilation_errors_sliding rec feature_view :
  (∀ f, raises_only compilation_error (rec f)) →
  raises_only compilation_error
    (_get_table_from_sliding_feature_view rec feature_view).
Proof.
  intros Hrec.
  unfold _get_table_from_sliding_feature_view, evaluate_sliding_windows.
  repeat first
    [ apply raises_only_lift; intros e (? & ? & _ & Hraise)%for_each_Raise;
      by apply sliding_dispatch_errors in Hraise
    | apply raises_only_lift; intros e Hraise;
      by apply add_timestamp_field_errors in Hraise
    | raises_step ].
Qed.

Lemma compilation_errors__get_table fuel features :
  raises_only compilation_error (_get_table fuel features).
Proof.
  revert features. induction fuel as [|fuel IH]; intros [df|d] st e st';
    cbn; try discriminate.
  - destruct (_built_tables st !! descriptor_name d) as [[cached table]|];
      [case_decide|]; try discriminate; by intros [= <- _].
  - destruct (_built_tables st !! descriptor_name d) as [[cached table]|];
      [case_decide; try discriminate; by intros [= <- _]|].
    revert st e st'.
    change (raises_only compilation_error
      match d with
      | FeatureTable _ _ _ _ =>
          t ←M call_helper (get_table_from_source d);
          _ ←M cache_store d t; ret t
      | DerivedFeatureView _ _ _ _ _ _ _ =>
          t ←M _get_table_from_derived_feature_view (_get_table fuel) d;
          _ ←M cache_store d t; ret t
      | SlidingFeatureView _ _ _ _ _ _ _ =>
          t ←M _get_table_from_sliding_feature_view (_get_table fuel) d;
          _ ←M cache_store d t; ret t
      | OtherTableDescriptor type_name _ _ _ _ =>
          raise (UnsupportedType type_name)
      end).
    destruct d;
      repeat first [ by apply compilation_errors_derived
                   | by apply compilation_errors_sliding | raises_step ].
Qed.
Lemma bind_Raise {A B} (m : M A) (k : A → M B) st e st' :
  bind m k st = (Raise e, st') →
  m st = (Raise e, st')
  ∨ ∃ a st1, m st = (Return a, st1) ∧ k a st1 = (Raise e, st').
Proof.
  unfold bind. destruct (m st) as [[e1|a] st1]; [intros [= <- <-]|]; eauto.
Qed.

Lemma _filter_table_by_keys_errors fuel table keys st e st' :
  _filter_table_by_keys fuel table keys st = (Raise e, st') →
  e ≠ UnresolvedFeatureView ∧ e ≠ MissingTimestampField.
Proof.
  unfold _filter_table_by_keys. destruct keys as [keys|]; [|discriminate].
  intros [Hraise|(key_table & st1 & _ & Hraise)]%bind_Raise.
  - apply compilation_errors__get_table in Hraise. by destruct e.
  - destruct (list_find _ _) as [[i field_name]|]; [|discriminate].
    by injection Hraise as <- _.
Qed.

(** X4.  [build] raises the unresolved-view error exactly when the
    descriptor it is given is itself an unresolved feature view. *)
Theorem build_unresolved_only_top_level fuel features keys start_datetime
    end_datetime st :
  (∃ st', build fuel features keys start_datetime end_datetime st
          = (Raise UnresolvedFeatureView, st'))
  ↔ is_feature_view features && is_unresolved features = true.
Proof.
  unfold build. destruct (is_feature_view features && is_unresolved features).
  { split; [done|]. intros _. by exists st. }
  split; [|done]. intros [st' Hbuild]. exfalso.
  apply bind_Raise in Hbuild as [Hraise|(t1 & st1 & _ & Hbuild)].
  { by apply compilation_errors__get_table in Hraise. }
  apply bind_Raise in Hbuild as [Hraise|(t2 & st2 & _ & Hbuild)].
  { destruct keys; [|discriminate].
    by apply _filter_table_by_keys_errors in Hraise as [? _]. }
  apply bind_Raise in Hbuild as [Hraise|(t3 & st3 & _ & Hbuild)];
    [|discriminate].
  case_bool_decide; [|discriminate].
  by destruct (timestamp_field features).
Qed.

(** X5.  When [build] raises the missing-timestamp-field error, a start or
    end bound was given for a descriptor without timestamp field, and the
    error comes after the compilation: the table compiled for the
    descriptor is in the cache of the builder the failed call leaves
    behind. *)
Theorem build_missing_timestamp_field fuel features keys start_datetime
    end_datetime st st' :
  build fuel features keys start_datetime end_datetime st
  = (Raise MissingTimestampField, st') →
  timestamp_field features = None
  ∧ (start_datetime ≠ None ∨ end_datetime ≠ None)
  ∧ ∃ table,
      _built_tables st' !! descriptor_name features = Some (features, table).
Proof.
  unfold build. destruct (is_feature_view features && is_unresolved features);
    [discriminate|].
  intros [Hraise|(t1 & st1 & Hget & Hbuild)]%bind_Raise.
  { by apply compilation_errors__get_table in Hraise. }
  apply _get_table_cached in Hget.
  apply bind_Raise in Hbuild as [Hraise|(t2 & st2 & Hfilter & Hbuild)].
  { destruct keys; [|discriminate].
    by apply _filter_table_by_keys_errors in Hraise as [_ ?]. }
  assert (Hkept : cache_preserved st1 st2).
  { destruct keys; [|injection Hfilter as _ <-; apply cache_preserved_refl].
    revert Hfilter. unfold _filter_table_by_keys.
    apply preserving_bind; [apply preserving__get_table|].
    intros key_table. destruct (list_find _ _) as [[i field_name]|].
    - apply preserving_raise.
    - apply preserving_call_helper. }
  apply bind_Raise in Hbuild as [Hraise|(t3 & st3 & _ & Hbuild)];
    [|discriminate].
  case_bool_decide as Hgiven; [|discriminate].
  destruct (timestamp_field features); [discriminate|].
  injection Hraise as <-. split_and!; [done..|]. exists t1. by apply Hkept.
Qed.

(** X6.  Conversely, with a start or end bound and a descriptor without
    timestamp field, [build] never returns a table, whatever the state of
    the builder and the keys. *)
Theorem build_range_needs_timestamp_field fuel features keys start_datetime
    end_datetime st :
  timestamp_field features = None →
  start_datetime ≠ None ∨ end_datetime ≠ None →
  ∃ e st', build fuel features keys start_datetime end_datetime st
           = (Raise e, st').
Proof.
  intros Hts Hgiven. unfold build.
  destruct (is_feature_view features && is_unresolved features);
    [by eexists _, _|].
  unfold bind at 1.
  destruct (_get_table _ _ _) as [[e|t1] st1]; [by eexists _, _|].
  assert (Hrange : ∀ t2 st2,
    ∃ e st',
      (table ←M (if bool_decide (start_datetime ≠ None ∨ end_datetime ≠ None)
                 then match timestamp_field features with
                      | None => raise MissingTimestampField
                      | Some _ =>
                          ret (_range_table_by_time t2 start_datetime
                                 end_datetime)
                      end
                 else ret t2);
       ret (if decide (EVENT_TIME_ATTRIBUTE_NAME ∈ get_field_names table)
            then drop_columns table EVENT_TIME_ATTRIBUTE_NAME
            else table)) st2 = (Raise e, st')).
  { intros t2 st2. rewrite bool_decide_eq_true_2 by done. rewrite Hts.
    by eexists _, _. }
  destruct keys as [k|]; unfold bind at 1.
  - destruct (_filter_table_by_keys fuel t1 (Some k) st1) as [[e|t2] st2];
      [by eexists _, _|apply Hrange].
  - apply Hrange.
Qed.
End ErrorProvenance.

(** ** Filtering by keys *)

Lemma list_find_first {A} (P : A → Prop) `{∀ x, Decision (P x)} pre x post :
  Forall (λ y, ¬ P y) pre → P x →
  list_find P (pre ++ x :: post) = Some (length pre, x).
Proof.
  intros Hpre Hx. induction Hpre as [|y pre Hy _ IH]; cbn.
  - by rewrite decide_True.
  - rewrite decide_False by done. by rewrite IH.
Qed.

Section KeyFilter.
Context `{env : Collaborators}.

(** X7.  Once the key table is compiled, [_filter_table_by_keys] joins it
    with the table on all the fields of the key table, by one
    [join_table_on_key] call, when the table has every one of these fields;
    otherwise it raises for the first field of the key table that the
    table lacks, and calls no join. *)
Theorem _filter_table_by_keys_checks fuel table keys key_table st st1 :
  _get_table fuel keys st = (Return key_table, st1) →
  let key_fields := get_field_names key_table in
  let joined := join_table_on_key key_table table key_fields in
  ((∀ f, f ∈ key_fields → f ∈ get_field_names table) →
   _filter_table_by_keys fuel table (Some keys) st
   = (Return joined, logged joined st1))
  ∧ (∀ pre f post,
       key_fields = pre ++ f :: post →
       (∀ g, g ∈ pre → g ∈ get_field_names table) →
       f ∉ get_field_names table →
       _filter_table_by_keys fuel table (Some keys) st
       = (Raise (KeyNotInTableFields f), st1)).
Proof.
  intros Hkeys key_fields joined. subst key_fields joined.
  unfold _filter_table_by_keys, bind. rewrite Hkeys. split.
  - intros Hall.
    assert (list_find (λ f, f ∉ get_field_names table)
              (get_field_names key_table) = None) as ->; [|done].
    apply list_find_None, Forall_forall. intros f Hf Hout. by apply Hout, Hall.
  - intros pre f post -> Hpre Hf.
    rewrite (list_find_first _ pre f post); [done| |done].
    apply Forall_forall. intros g Hg Hout. by apply Hout, Hpre.
Qed.
End KeyFilter.

(** ** The dispatch loop of derived views, continued *)

Section DerivedLoop.
Context `{env : Collaborators}.
Implicit Types (s : DerivedLoopState) (f : Feature).

Lemma dispatch_tmp_table view src dbn s f s1 :
  derived_dispatch view src dbn s f = Return s1 →
  tmp_table s1
  = if decide (name f ∈ get_field_names (tmp_table s)) then tmp_table s
    else table_step (tmp_table s) f.
Proof.
  unfold derived_dispatch, table_step. case_decide; [by intros [= <-]|].
  repeat case_match; try discriminate; by intros [= <-].
Qed.

Lemma table_step_fields tmp f :
  name f ∉ get_field_names tmp →
  get_field_names (table_step tmp f)
  = get_field_names tmp
    ++ (if decide (is_Some (expression_of f)) then [name f] else []).
Proof.
  intros Hfresh. unfold table_step, expression_of.
  destruct (transform f); cbn [get_field_names _evaluate_expression_transform];
    rewrite ?decide_False by (by intros [? [=]]);
    rewrite ?app_nil_r; try done.
  rewrite decide_False by done. by rewrite decide_True by eauto.
Qed.

Lemma loop_tmp_table view src dbn l s s' :
  for_each (derived_dispatch view src dbn) s l = Return s' →
  let D := dispatched view src dbn s l in
  tmp_table s' = foldl table_step (tmp_table s) D
  ∧ get_field_names (tmp_table s')
    = get_field_names (tmp_table s)
      ++ (name <$> filter (λ f, is_Some (expression_of f)) D)
  ∧ (NoDup (get_field_names (tmp_table s)) →
     NoDup (get_field_names (tmp_table s'))).
Proof.
  revert s. induction l as [|f l IH]; intros s; cbn [for_each dispatched].
  - intros [= <-]. cbn. by rewrite app_nil_r.
  - destruct (derived_dispatch view src dbn s f) as [e|s1] eqn:Hstep;
      [discriminate|].
    intros Hrest. destruct (IH _ Hrest) as (Htmp & Hfields & Hnodup).
    apply dispatch_tmp_table in Hstep. cbn zeta. case_decide as Hskip.
    + rewrite Hstep in *. by split_and!.
    + cbn [app foldl]. rewrite Hstep in *. split_and!; [done| |].
      * rewrite Hfields, table_step_fields by done. rewrite filter_cons.
        case_decide; cbn; [|by rewrite app_nil_r].
        by rewrite <-app_assoc.
      * intros Hs. apply Hnodup. rewrite table_step_fields by done.
        case_decide; [|by rewrite app_nil_r].
        apply NoDup_app. split_and!; [done| |apply NoDup_singleton].
        by intros x Hx ->%list_elem_of_singleton.
Qed.

(** X8.  The dispatch loop of a derived view changes the accumulating
    table only through the expression features it does not skip: the table
    after the loop is the source table with these expressions evaluated in
    order, each of them adds one new column at the end of the schema and
    none replaces a column, so a duplicate-free schema stays so. *)
Theorem dispatch_loop_table view src dbn deps s :
  for_each (derived_dispatch view src dbn) (mkDerivedLoopState src [] [])
    deps = Return s →
  let D := dispatched view src dbn (mkDerivedLoopState src [] []) deps in
  tmp_table s = foldl table_step src D
  ∧ get_field_names (tmp_table s)
    = get_field_names src
      ++ (name <$> filter (λ f, is_Some (expression_of f)) D)
  ∧ (NoDup (get_field_names src) → NoDup (get_field_names (tmp_table s))).
Proof. apply loop_tmp_table. Qed.

Lemma dispatch_accepts view src dbn s f s1 :
  derived_dispatch view src dbn s f = Return s1 →
  name f ∈ get_field_names (tmp_table s1)
  ∨ (is_Some (over_window_of f) ∧ is_Some (timestamp_field view))
  ∨ join_accepted src dbn f.
Proof.
  unfold derived_dispatch, over_window_of, join_accepted.
  case_decide as Hskip; [intros [= <-]; by left|].
  destruct (transform f) as [e|e a w|e a w|tn fn|ty]; try discriminate.
  - intros [= <-]. left. cbn. rewrite decide_False by done.
    apply elem_of_app. right. apply list_elem_of_here.
  - destruct (timestamp_field view); [|discriminate]. intros _. right. left.
    eauto.
  - destruct (keys f) as [ks|]; [|discriminate].
    destruct (forallb _ ks) eqn:Hall; [|discriminate].
    destruct (dict_get dbn tn) as [d|] eqn:Hd; [|discriminate].
    destruct (timestamp_field d) as [ts|] eqn:Hts; [|discriminate].
    intros _. right. right. exists tn, fn, ks, d. split_and!; try done.
    intros k Hk. rewrite forallb_forall in Hall.
    by apply list_elem_of_In, Hall, bool_decide_eq_true in Hk.
Qed.

(** X9.  When the dispatch loop of a derived view completes, every
    dependent feature is accounted for in one of three ways: its name is a
    column of the accumulating table (it was there already, or it is an
    expression feature the loop evaluated); or it is an over-window feature
    and the view has a timestamp field; or it is a join feature that
    declares keys, all of them fields of the source table, on a joined
    table that has a timestamp field.  A feature with any other transform
    that is not already a column makes the loop fail. *)
Theorem dispatch_loop_accepts view src dbn deps s0 s :
  for_each (derived_dispatch view src dbn) s0 deps = Return s →
  ∀ f, f ∈ deps →
    name f ∈ get_field_names (tmp_table s)
    ∨ (is_Some (over_window_of f) ∧ is_Some (timestamp_field view))
    ∨ join_accepted src dbn f.
Proof.
  revert s0. induction deps as [|g deps IH]; intros s0; cbn [for_each].
  { intros _ f []%elem_of_nil. }
  destruct (derived_dispatch view src dbn s0 g) as [e|s1] eqn:Hstep;
    [discriminate|].
  intros Hrest f [->|Hf]%elem_of_cons; [|by eapply IH].
  apply dispatch_accepts in Hstep as [Hcol|Hother]; [left|by right].
  destruct (loop_tmp_table _ _ _ _ _ _ Hrest) as (_ & -> & _).
  apply elem_of_app. by left.
Qed.
End DerivedLoop.

(** ** The joined tables of a derived view *)

Section JoinTables.
Context `{env : Collaborators}.

Lemma compile_join_tables_loop (rec : Features → M Table) names acc st acc'
    st' :
  for_each_M
    (λ '(descriptors_by_names, table_by_names) table_name,
       match registry_get_features table_name with
       | None => raise (RegistryLookupError table_name)
       | Some descriptor =>
           t ←M rec (DescriptorInput descriptor);
           ret (dict_set descriptors_by_names table_name descriptor,
                dict_set table_by_names table_name t)
       end)
    acc names st = (Return acc', st') →
  (∀ n, dict_get acc'.1 n
        = if decide (n ∈ names) then registry_get_features n
          else dict_get acc.1 n)
  ∧ (∀ n, n ∈ names → is_Some (registry_get_features n))
  ∧ (∀ n, is_Some (dict_get acc'.2 n)
          ↔ n ∈ names ∨ is_Some (dict_get acc.2 n)).
Proof.
  revert acc st. induction names as [|m names IH]; intros [dbn tbn] st.
  - intros [= <- _]. split_and!.
    + intros n. by rewrite decide_False by apply not_elem_of_nil.
    + by intros n ?%elem_of_nil.
    + intros n. rewrite elem_of_nil. tauto.
  - cbn [for_each_M].
    intros (acc1 & st1 & Hbody & Hrest)%bind_Return.
    destruct (registry_get_features m) as [d|] eqn:Hreg; [|discriminate].
    apply bind_Return in Hbody as (t & st2 & _ & [= <- _]).
    apply IH in Hrest as (Hdbn & Hreg' & Htbn). cbn [fst snd] in *.
    split_and!.
    + intros n. rewrite Hdbn, dict_get_set.
      destruct (decide (n = m)) as [->|Hne].
      * rewrite (decide_True (P := m ∈ m :: names))
          by apply list_elem_of_here.
        by case_decide.
      * destruct (decide (n ∈ names)) as [Hin|Hout].
        -- by rewrite decide_True by by apply list_elem_of_further.
        -- rewrite decide_False; [done|].
           by intros [?|?]%elem_of_cons.
    + intros n [->|Hn]%elem_of_cons; [by rewrite Hreg|by apply Hreg'].
    + intros n. rewrite Htbn, dict_get_set, elem_of_cons.
      destruct (decide (n = m)) as [->|Hne]; [by intuition eauto|].
      intuition congruence.
Qed.

(** X10.  The joined tables a derived view compiles are those named by the
    join transforms of its declared features, each looked up in the
    registry under its name; a name the registry does not know stops the
    compilation.  A join feature of the dependency list on a table that no
    declared feature names therefore finds no descriptor, and once its keys
    are accepted the dispatch fails on the dictionary lookup with a
    [KeyError], which is not a Feathub exception. *)
Theorem join_tables_from_declared_features rec view st dbn tbn st' :
  compile_join_tables rec
    (remove_dups (join_table_names (get_resolved_features view))) st
  = (Return (dbn, tbn), st') →
  (∀ n, dict_get dbn n
        = if decide (n ∈ join_table_names (get_resolved_features view))
          then registry_get_features n else None)
  ∧ (∀ n, n ∈ join_table_names (get_resolved_features view) →
          is_Some (registry_get_features n) ∧ is_Some (dict_get tbn n))
  ∧ (∀ src s f table_name feature_name feature_keys,
       transform f = JoinTransform table_name feature_name →
       keys f = Some feature_keys →
       name f ∉ get_field_names (tmp_table s) →
       (∀ key, key ∈ feature_keys → key ∈ get_field_names src) →
       table_name ∉ join_table_names (get_resolved_features view) →
       derived_dispatch view src dbn s f = Raise (KeyError table_name)
       ∧ exception_class (KeyError table_name) = PythonBuiltinException).
Proof.
  intros Hcompile. unfold compile_join_tables in Hcompile.
  apply compile_join_tables_loop in Hcompile as (Hdbn & Hreg & Htbn).
  cbn [fst snd] in *.
  assert (Hget : ∀ n, dict_get dbn n
    = if decide (n ∈ join_table_names (get_resolved_features view))
      then registry_get_features n else None).
  { intros n. rewrite Hdbn. cbn [dict_get].
    destruct (decide (n ∈ remove_dups _)) as [Hin|Hout].
    - by rewrite decide_True by by apply elem_of_remove_dups.
    - rewrite decide_False; [done|]. by rewrite <-elem_of_remove_dups. }
  split_and!; [done| |].
  - intros n Hn%elem_of_remove_dups. split; [by apply Hreg|].
    apply Htbn. by left.
  - intros src s f tn fn ks Htr Hkeys Hfresh Hall Hundeclared.
    split; [|done]. unfold derived_dispatch.
    rewrite decide_False by done. rewrite Htr, Hkeys.
    assert (forallb (λ key, bool_decide (key ∈ get_field_names src)) ks
            = true) as ->.
    { apply forallb_forall. intros k Hk%list_elem_of_In.
      by apply bool_decide_eq_true, Hall. }
    by rewrite Hget, decide_False.
Qed.
End JoinTables.

(** ** Sliding feature views *)

Section SlidingViews.
Context `{env : Collaborators}.
Implicit Types (s : SlidingLoopState) (f : Feature).

Lemma sliding_dispatch_Return view s f s1 :
  sliding_dispatch view s f = Return s1 →
  if decide (name f ∈ get_field_names (sliding_tmp_table s)) then s1 = s
  else sliding_tmp_table s1 = table_step (sliding_tmp_table s) f
       ∧ sliding_window_agg_map s1
         = sliding_window_step (sliding_window_agg_map s) f
       ∧ (is_Some (expression_of f)
          ∨ is_Some (sliding_window_of f) ∧ is_Some (timestamp_field view)).
Proof.
  unfold sliding_dispatch, table_step, sliding_window_step, expression_of,
    sliding_window_of.
  case_decide; [by intros [= <-]|].
  destruct (transform f) as [e|e a w|e a w|tn fn|ty]; try discriminate.
  - intros [= <-]. split_and!; eauto.
  - destruct (timestamp_field view); [|discriminate].
    intros [= <-]. split_and!; eauto.
Qed.

Lemma sliding_loop_fold view l s s' :
  for_each (sliding_dispatch view) s l = Return s' →
  let D := sliding_dispatched view s l in
  sliding_tmp_table s' = foldl table_step (sliding_tmp_table s) D
  ∧ sliding_window_agg_map s'
    = foldl sliding_window_step (sliding_window_agg_map s) D
  ∧ get_field_names (sliding_tmp_table s')
    = get_field_names (sliding_tmp_table s)
      ++ (name <$> filter (λ f, is_Some (expression_of f)) D)
  ∧ Forall (λ f, is_Some (expression_of f)
                 ∨ is_Some (sliding_window_of f)
                   ∧ is_Some (timestamp_field view)) D.
Proof.
  revert s. induction l as [|f l IH]; intros s;
    cbn [for_each sliding_dispatched].
  - intros [= <-]. cbn. by rewrite app_nil_r.
  - destruct (sliding_dispatch view s f) as [e|s1] eqn:Hstep;
      [discriminate|].
    intros Hrest. destruct (IH _ Hrest) as (Htmp & Hmap & Hfields & Hall).
    apply sliding_dispatch_Return in Hstep. cbn zeta.
    case_decide as Hskip.
    + subst s1. by split_and!.
    + destruct Hstep as (Htmp1 & Hmap1 & Hok). cbn [app foldl].
      rewrite <-Htmp1, <-Hmap1. split_and!; [done..| |by constructor].
      rewrite Hfields, Htmp1, table_step_fields by done.
      rewrite filter_cons. case_decide; cbn; [|by rewrite app_nil_r].
      by rewrite <-app_assoc.
Qed.

Lemma sliding_window_step_get m f w :
  dict_get (sliding_window_step m f) w
  = if decide (sliding_window_of f = Some w)
    then Some (default [] (dict_get m w)
               ++ [AggregationFieldDescriptor_from_feature f])
    else dict_get m w.
Proof.
  unfold sliding_window_step, sliding_window_of,
    from_sliding_window_transform.
  destruct (transform f) as [e|e a w0|e a w0|tn fn|ty];
    try by rewrite decide_False.
  cbn zeta. rewrite dict_get_set. destruct (decide (w = w0)) as [->|Hne].
  - by rewrite decide_True.
  - rewrite decide_False; [done|]. by intros [= ->].
Qed.

Lemma foldl_sliding_window_step_get D m w :
  dict_get (foldl sliding_window_step m D) w
  = match filter (λ f, sliding_window_of f = Some w) D with
    | [] => dict_get m w
    | batch =>
        Some (default [] (dict_get m w)
              ++ (AggregationFieldDescriptor_from_feature <$> batch))
    end.
Proof.
  revert m. induction D as [|f D IH]; intros m; cbn [foldl]; [done|].
  rewrite IH, sliding_window_step_get, filter_cons. case_decide as Hf.
  - destruct (filter _ D) as [|g batch]; [done|].
    rewrite (fmap_cons _ f). f_equal.
    change (default [] (Some ?x)) with x. by rewrite <-app_assoc.
  - done.
Qed.

Lemma NoDup_foldl_sliding_window_step D m :
  NoDup (dict_keys m) → NoDup (dict_keys (foldl sliding_window_step m D)).
Proof.
  revert m. induction D as [|f D IH]; intros m Hm; cbn [foldl]; [done|].
  apply IH. unfold sliding_window_step.
  destruct (transform f); try done. by apply NoDup_dict_keys_set.
Qed.

Lemma foldl_defaults_get (g : AggregationFieldDescriptor → string * string)
    aggs fdv k :
  is_Some (dict_get
             (foldl (λ d a, dict_set d (field_name a) (g a)) fdv aggs) k)
  ↔ is_Some (dict_get fdv k) ∨ k ∈ field_name <$> aggs.
Proof.
  revert fdv. induction aggs as [|a aggs IH]; intros fdv; cbn [foldl].
  - rewrite fmap_nil, elem_of_nil. tauto.
  - rewrite IH, dict_get_set, fmap_cons, elem_of_cons.
    destruct (decide (k = field_name a)); [by intuition eauto|tauto].
Qed.

Lemma for_each_M_ext {S A} (body1 body2 : S → A → M S) l acc st :
  (∀ acc a st, body1 acc a st = body2 acc a st) →
  for_each_M body1 acc l st = for_each_M body2 acc l st.
Proof.
  intros Hext. revert acc st.
  induction l as [|a l IH]; intros acc st; [done|].
  cbn [for_each_M]. unfold bind. rewrite Hext.
  destruct (body2 acc a st) as [[e|acc1] st1]; [done|apply IH].
Qed.

Lemma evaluate_sliding_windows_merge_step tmp m st :
  evaluate_sliding_windows tmp m st
  = for_each_M (merge_step tmp) (None, []) m st.
Proof.
  unfold evaluate_sliding_windows. apply for_each_M_ext.
  by intros [agg fdv] [w aggs] st'.
Qed.

Lemma merge_step_eq tmp agg fdv w aggs st :
  merge_step tmp (agg, fdv) (w, aggs) st
  = let fdv1 := foldl (λ d a, dict_set d (field_name a)
                                (get_default_value_and_type a)) fdv aggs in
    let call := evaluate_sliding_window_transform tmp w aggs in
    match agg with
    | None => (Return (Some call, fdv1), logged call st)
    | Some agg_table =>
        let joined :=
          full_outer_join_on_key_with_default_value agg_table call
            (group_by_keys w ++ [EVENT_TIME_ATTRIBUTE_NAME]) fdv1 in
        (Return (Some joined, fdv1), logged joined (logged call st))
    end.
Proof. by destruct agg. Qed.

(** The merge loop of a sliding view, started with the aggregate table
    [agg] and the defaults [fdv] that cover the aggregations [covered]. *)
Lemma evaluate_sliding_windows_loop tmp m agg fdv covered st :
  (∀ a, a ∈ covered → is_Some (dict_get fdv (field_name a))) →
  ∃ agg' fdv' calls,
    for_each_M (merge_step tmp) (agg, fdv) m st
    = (Return (agg', fdv'),
       mkBuilderState (_built_tables st) (helper_calls st ++ calls))
    ∧ filter (λ c, is_sliding_window_call c) calls
      = (λ '(w, aggs), evaluate_sliding_window_transform tmp w aggs) <$> m
    ∧ length calls
      = (2 * length m - (if agg then 0 else 1))%nat
    ∧ (agg' = None ↔ agg = None ∧ m = [])
    ∧ (∀ a, a ∈ covered ++ batch_aggregations m →
            is_Some (dict_get fdv' (field_name a)))
    ∧ Forall
        (λ c, is_sliding_window_call c = false →
              ∃ left pre w aggs post defaults,
                m = pre ++ (w, aggs) :: post
                ∧ c = full_outer_join_on_key_with_default_value left
                        (evaluate_sliding_window_transform tmp w aggs)
                        (group_by_keys w ++ [EVENT_TIME_ATTRIBUTE_NAME])
                        defaults
                ∧ ∀ a, a ∈ covered ++ batch_aggregations (pre ++ [(w, aggs)])
                       → is_Some (dict_get defaults (field_name a)))
        calls.
Proof.
  revert agg fdv covered st.
  induction m as [|[w aggs] m IH]; intros agg fdv covered st Hcovered.
  { exists agg, fdv, []. cbn. rewrite !app_nil_r. split_and!; try done.
    - by destruct st.
    - tauto. }
  set (fdv1 := foldl (λ d a, dict_set d (field_name a)
                               (get_default_value_and_type a)) fdv aggs).
  assert (Hcovered1 : ∀ a, a ∈ covered ++ aggs →
            is_Some (dict_get fdv1 (field_name a))).
  { intros a [Ha|Ha]%elem_of_app; apply foldl_defaults_get.
    - left. by apply Hcovered.
    - right. by apply list_elem_of_fmap_2. }
  set (call := evaluate_sliding_window_transform tmp w aggs).
  assert (Hlift : ∀ c pre' w' aggs' post' defaults left,
    m = pre' ++ (w', aggs') :: post' →
    (∀ a, a ∈ (covered ++ aggs) ++ batch_aggregations (pre' ++ [(w', aggs')])
          → is_Some (dict_get defaults (field_name a))) →
    c = full_outer_join_on_key_with_default_value left
          (evaluate_sliding_window_transform tmp w' aggs')
          (group_by_keys w' ++ [EVENT_TIME_ATTRIBUTE_NAME]) defaults →
    ∃ left pre w0 aggs0 post defaults,
      (w, aggs) :: m = pre ++ (w0, aggs0) :: post
      ∧ c = full_outer_join_on_key_with_default_value left
              (evaluate_sliding_window_transform tmp w0 aggs0)
              (group_by_keys w0 ++ [EVENT_TIME_ATTRIBUTE_NAME]) defaults
      ∧ ∀ a, a ∈ covered ++ batch_aggregations (pre ++ [(w0, aggs0)])
             → is_Some (dict_get defaults (field_name a))).
  { intros c pre' w' aggs' post' defaults left -> Hdef ->.
    exists left, ((w, aggs) :: pre'), w', aggs', post', defaults.
    split_and!; [done..|]. intros a Ha. apply Hdef.
    unfold batch_aggregations in *. cbn [app mbind list_bind snd] in Ha.
    by rewrite <-!app_assoc. }
  destruct agg as [agg|].
  - set (joined := full_outer_join_on_key_with_default_value agg call
                     (group_by_keys w ++ [EVENT_TIME_ATTRIBUTE_NAME]) fdv1).
    destruct (IH (Some joined) fdv1 (covered ++ aggs)
                (logged joined (logged call st)) Hcovered1)
      as (agg' & fdv' & calls & Hrun & Hfilter & Hlen & Hnone & Hcov & Hall).
    exists agg', fdv', (call :: joined :: calls).
    split_and!.
    + cbn [for_each_M]. unfold bind at 1. rewrite merge_step_eq.
      cbv beta iota zeta. fold fdv1 call joined. rewrite Hrun. unfold logged. cbn.
      by rewrite <-!app_assoc.
    + rewrite !filter_cons. cbn. by rewrite Hfilter.
    + cbn [length]. rewrite Hlen. lia.
    + rewrite Hnone. split; [by intros [[=] _]|by intros [[=] _]].
    + intros a Ha. apply Hcov. unfold batch_aggregations in *.
      cbn [mbind list_bind snd] in Ha. by rewrite <-app_assoc.
    + constructor; [done|]. constructor.
      * intros _. exists agg, [], w, aggs, m, fdv1. split_and!; [done..|].
        intros a Ha. apply Hcovered1. unfold batch_aggregations in Ha.
        cbn in Ha. by rewrite app_nil_r in Ha.
      * eapply Forall_impl; [exact Hall|]. intros c Hc Hjoin.
        destruct (Hc Hjoin) as (l & pre' & w' & aggs' & post' & d' & Hm & Hc'
                                  & Hd').
        by eapply Hlift.
  - destruct (IH (Some call) fdv1 (covered ++ aggs) (logged call st)
                Hcovered1)
      as (agg' & fdv' & calls & Hrun & Hfilter & Hlen & Hnone & Hcov & Hall).
    exists agg', fdv', (call :: calls).
    split_and!.
    + cbn [for_each_M]. unfold bind at 1. rewrite merge_step_eq.
      cbv beta iota zeta. fold fdv1 call. rewrite Hrun. unfold logged. cbn.
      by rewrite <-!app_assoc.
    + rewrite !filter_cons. cbn. by rewrite Hfilter.
    + cbn [length]. rewrite Hlen. lia.
    + rewrite Hnone. split; [by intros [[=] _]|by intros [_ [=]]].
    + intros a Ha. apply Hcov. unfold batch_aggregations in *.
      cbn [mbind list_bind snd] in Ha. by rewrite <-app_assoc.
    + constructor; [done|].
      eapply Forall_impl; [exact Hall|]. intros c Hc Hjoin.
      destruct (Hc Hjoin) as (l & pre' & w' & aggs' & post' & d' & Hm & Hc'
                                & Hd').
      by eapply Hlift.
Qed.
(** X11.  The merge loop of a sliding view never raises.  It issues one
    [evaluate_sliding_window_transform] per entry of
    [sliding_window_agg_map], every one of them on the same table; from the
    second entry on, one full outer join merges the new aggregate into the
    result so far, on the grouping keys of the entry it has just aggregated
    followed by the event-time column.  So [n] entries give [n]
    aggregations and [n - 1] joins, and without entries there is no call
    and no aggregate table.  The defaults handed to each join, and those
    left at the end, cover every field aggregated up to that point. *)
Theorem sliding_windows_merged tmp m st :
  ∃ merged defaults calls,
    evaluate_sliding_windows tmp m st
    = (Return (merged, defaults),
       mkBuilderState (_built_tables st) (helper_calls st ++ calls))
    ∧ filter (λ c, is_sliding_window_call c) calls
      = (λ '(w, aggs), evaluate_sliding_window_transform tmp w aggs) <$> m
    ∧ length calls = (2 * length m - 1)%nat
    ∧ (merged = None ↔ m = [])
    ∧ (∀ a, a ∈ batch_aggregations m →
            is_Some (dict_get defaults (field_name a)))
    ∧ Forall
        (λ c, is_sliding_window_call c = false →
              ∃ left pre w aggs post join_defaults,
                m = pre ++ (w, aggs) :: post
                ∧ c = full_outer_join_on_key_with_default_value left
                        (evaluate_sliding_window_transform tmp w aggs)
                        (group_by_keys w ++ [EVENT_TIME_ATTRIBUTE_NAME])
                        join_defaults
                ∧ ∀ a, a ∈ batch_aggregations (pre ++ [(w, aggs)]) →
                       is_Some (dict_get join_defaults (field_name a)))
        calls.
Proof.
  destruct (evaluate_sliding_windows_loop tmp m None [] [] st)
    as (merged & defaults & calls & Hrun & Hfilter & Hlen & Hnone & Hcov
        & Hall); [by intros a ?%elem_of_nil|].
  exists merged, defaults, calls.
  rewrite evaluate_sliding_windows_merge_step.
  split_and!; [done..|tauto|done|done].
Qed.

Lemma sliding_calls_of_window tmp m w :
  NoDup (dict_keys m) →
  filter (λ c, call_sliding_window c = Some w)
    ((λ '(w, aggs), evaluate_sliding_window_transform tmp w aggs) <$> m)
  = match dict_get m w with
    | Some aggs => [evaluate_sliding_window_transform tmp w aggs]
    | None => []
    end.
Proof.
  induction m as [|[w0 aggs0] m IH]; [done|].
  unfold dict_keys. cbn [fmap list_fmap fst dict_get].
  intros [Hout Hnodup]%NoDup_cons. rewrite filter_cons.
  cbn [call_sliding_window].
  destruct (decide (w = w0)) as [->|Hne].
  - rewrite decide_True by done. f_equal.
    fold (dict_keys m) in Hout. apply dict_get_None in Hout.
    rewrite IH by done. by rewrite Hout.
  - rewrite decide_False by congruence. by apply IH.
Qed.

Lemma filter_sliding_window_calls w (calls : list Table) :
  filter (λ c, call_sliding_window c = Some w) calls
  = filter (λ c, call_sliding_window c = Some w)
      (filter (λ c, is_sliding_window_call c) calls).
Proof.
  induction calls as [|c calls IH]; [done|].
  rewrite (filter_cons (λ c, is_sliding_window_call c)).
  destruct (decide (is_sliding_window_call c)) as [Hc|Hc].
  - rewrite !filter_cons. by rewrite IH.
  - rewrite filter_cons, decide_False; [exact IH|].
    by destruct c.
Qed.

(** X12.  After the dispatch loop of a sliding view, the keys of
    [sliding_window_agg_map] are distinct and each descriptor maps to the
    aggregation descriptors of the sliding-window features the loop
    dispatched with it, in order.  The merge loop then issues, for every
    window descriptor, exactly one [evaluate_sliding_window_transform] call
    that receives all of them, on the table the loop left; a descriptor
    of no dispatched feature gets no call. *)
Theorem sliding_window_batching view src deps s st :
  for_each (sliding_dispatch view) (mkSlidingLoopState src []) deps
  = Return s →
  let D := sliding_dispatched view (mkSlidingLoopState src []) deps in
  NoDup (dict_keys (sliding_window_agg_map s))
  ∧ ∃ merged defaults calls,
      evaluate_sliding_windows (sliding_tmp_table s)
        (sliding_window_agg_map s) st
      = (Return (merged, defaults),
         mkBuilderState (_built_tables st) (helper_calls st ++ calls))
      ∧ ∀ w,
          filter (λ c, call_sliding_window c = Some w) calls
          = match filter (λ f, sliding_window_of f = Some w) D with
            | [] => []
            | batch =>
                [evaluate_sliding_window_transform (sliding_tmp_table s) w
                   (AggregationFieldDescriptor_from_feature <$> batch)]
            end.
Proof.
  intros Hloop D. subst D.
  destruct (sliding_loop_fold _ _ _ _ Hloop) as (_ & Hmap & _ & _).
  cbn [sliding_window_agg_map] in Hmap.
  assert (Hnodup : NoDup (dict_keys (sliding_window_agg_map s))).
  { rewrite Hmap. apply NoDup_foldl_sliding_window_step, NoDup_nil_2. }
  split; [done|].
  destruct (evaluate_sliding_windows_loop (sliding_tmp_table s)
              (sliding_window_agg_map s) None [] [] st)
    as (merged & defaults & calls & Hrun & Hfilter & _);
    [by intros a ?%elem_of_nil|].
  rewrite <-evaluate_sliding_windows_merge_step in Hrun.
  exists merged, defaults, calls. split; [done|]. intros w.
  rewrite filter_sliding_window_calls, Hfilter.
  rewrite sliding_calls_of_window by done.
  rewrite Hmap, foldl_sliding_window_step_get.
  by destruct (filter _ (sliding_dispatched _ _ _)).
Qed.

(** X13.  When the dispatch loop of a sliding view completes, every
    dependent feature either is a column of the accumulating table (it was
    there already, or it is an expression feature the loop evaluated) or is
    a sliding-window feature, and then the view has a timestamp field.  The
    table the loop leaves is the source table with the dispatched
    expressions evaluated in order, each adding one column.  An over-window
    or join feature that is not already a column makes the loop fail. *)
Theorem sliding_loop_accepts view src deps s :
  for_each (sliding_dispatch view) (mkSlidingLoopState src []) deps
  = Return s →
  let D := sliding_dispatched view (mkSlidingLoopState src []) deps in
  sliding_tmp_table s = foldl table_step src D
  ∧ get_field_names (sliding_tmp_table s)
    = get_field_names src
      ++ (name <$> filter (λ f, is_Some (expression_of f)) D)
  ∧ ∀ f, f ∈ deps →
      name f ∈ get_field_names (sliding_tmp_table s)
      ∨ (is_Some (sliding_window_of f) ∧ is_Some (timestamp_field view)).
Proof.
  intros Hloop D. subst D.
  destruct (sliding_loop_fold _ _ _ _ Hloop) as (Htmp & _ & Hfields & _).
  split_and!; [done..|]. clear Htmp Hfields.
  revert Hloop. generalize (mkSlidingLoopState src []).
  induction deps as [|g deps IH]; intros s0; cbn [for_each].
  { intros _ f []%elem_of_nil. }
  destruct (sliding_dispatch view s0 g) as [e|s1] eqn:Hstep; [discriminate|].
  intros Hrest f [->|Hf]%elem_of_cons; [|by eapply IH].
  destruct (sliding_loop_fold _ _ _ _ Hrest) as (_ & _ & Hfields & _).
  apply sliding_dispatch_Return in Hstep.
  case_decide as Hskip.
  - subst s1. left. rewrite Hfields. apply elem_of_app. by left.
  - destruct Hstep as (Htmp1 & _ & [Hexpr|Hwin]); [left|by right].
    rewrite Hfields, Htmp1, table_step_fields by done.
    rewrite decide_True by done. apply elem_of_app. left.
    apply elem_of_app. right. apply list_elem_of_here.
Qed.
End SlidingViews.

(** ** Ranges that keep no row *)

Lemma lex_compare_antisym a b :
  lex_compare a b = CompOpp (lex_compare b a).
Proof.
  revert b. induction a as [|x a IH]; intros [|y b]; cbn; try done.
  rewrite (Nat.compare_antisym y x).
  destruct (Nat.compare y x); cbn; [apply IH|done..].
Qed.

Lemma lex_compare_lt_le_trans a b c :
  lex_compare a b = Lt → lex_compare b c ≠ Gt → lex_compare a c = Lt.
Proof.
  revert b c. induction a as [|x a IH]; intros [|y b] [|z c]; cbn;
    try done.
  destruct (Nat.compare_spec x y) as [->|Hxy|Hxy]; [|intros _|done].
  - destruct (Nat.compare_spec y z) as [->|Hyz|Hyz]; [|done..].
    apply IH.
  - destruct (Nat.compare_spec y z) as [->|Hyz|Hyz]; [| |done]; intros _.
    + by rewrite (proj2 (Nat.compare_lt_iff _ _)).
    + rewrite (proj2 (Nat.compare_lt_iff x z)); [done|]. by etrans.
Qed.

Lemma datetime_range_empty s t e :
  datetime_le e s = true → datetime_le s t = true → datetime_lt t e = false.
Proof.
  unfold datetime_le, datetime_lt. intros Hes Hst.
  destruct (lex_compare (datetime_fields t) (datetime_fields e)) eqn:Hte;
    try done.
  assert (Hts : lex_compare (datetime_fields t) (datetime_fields s) = Lt).
  { eapply lex_compare_lt_le_trans; [exact Hte|].
    by destruct (lex_compare (datetime_fields e) (datetime_fields s)). }
  rewrite lex_compare_antisym, Hts in Hst. done.
Qed.

Lemma filter_none {A} (f : A → bool) l :
  (∀ x, f x = false) → List.filter f l = [].
Proof.
  intros Hf. induction l as [|x l IH]; [done|]. cbn. by rewrite Hf.
Qed.

Section EmptyRange.
Context `{env : Collaborators}.

(** X14.  For bounds with a year of four digits, a range whose end bound,
    truncated to the second, is not after its start bound, truncated to the
    second, keeps no row at all: in particular a start and an end within
    the same second give an empty table, whatever their microseconds. *)
Theorem _range_table_by_time_empty engine_rows table start_datetime
    end_datetime :
  valid_datetime start_datetime →
  valid_datetime end_datetime →
  datetime_le (truncate_to_second end_datetime)
    (truncate_to_second start_datetime) = true →
  table_rows engine_rows
    (_range_table_by_time table (Some start_datetime) (Some end_datetime))
  = [].
Proof.
  intros Hstart Hend Hle. unfold _range_table_by_time. cbn [table_rows].
  rewrite filter_twice. apply filter_none. intros row.
  rewrite passes_ge_bound, passes_lt_bound by done.
  unfold not_before, before.
  destruct (event_time_of row) as [t|]; [|done].
  destruct (datetime_le (truncate_to_second start_datetime) t) eqn:Hst;
    [|done].
  cbn. by eapply datetime_range_empty.
Qed.
End EmptyRange.

(** ** Dependency resolution, continued *)

Lemma append_if_absent_present l x : x ∈ l → append_if_absent l x = l.
Proof. intros Hx. unfold append_if_absent. by rewrite decide_True. Qed.

Lemma foldl_append_if_absent_present xs l :
  (∀ x, x ∈ xs → x ∈ l) → foldl append_if_absent l xs = l.
Proof.
  induction xs as [|x xs IH]; intros Hxs; cbn [foldl]; [done|].
  rewrite append_if_absent_present by (apply Hxs, list_elem_of_here).
  apply IH. intros y Hy. by apply Hxs, list_elem_of_further.
Qed.

Lemma add_feature_present l f :
  f ∈ l → (∀ g, g ∈ input_features f → g ∈ l) → add_feature l f = l.
Proof.
  intros Hf Hin. unfold add_feature.
  rewrite foldl_append_if_absent_present by done.
  by apply append_if_absent_present.
Qed.

Lemma foldl_append_if_absent_fresh xs l :
  NoDup (l ++ xs) → foldl append_if_absent l xs = l ++ xs.
Proof.
  revert l. induction xs as [|x xs IH]; intros l Hnodup; cbn [foldl].
  - by rewrite app_nil_r.
  - assert (Hx : x ∉ l).
    { apply NoDup_app in Hnodup as (_ & Hdisj & _). intros Hx.
      apply (Hdisj x Hx), list_elem_of_here. }
    unfold append_if_absent at 2. rewrite decide_False by done.
    rewrite IH; rewrite <-app_assoc; done.
Qed.

(** X15.  Declaring a feature again changes nothing: when every feature of
    [again] is already declared in [fs], the dependent features of
    [fs ++ again] are those of [fs], in the same order. *)
Theorem _get_dependent_features_redeclared (fs again : list Feature) :
  (∀ f, f ∈ again → f ∈ fs) →
  _get_dependent_features (fs ++ again) = _get_dependent_features fs.
Proof.
  intros Hagain. unfold _get_dependent_features. rewrite foldl_app.
  assert (Hin : ∀ x, x ∈ fs ∨ (∃ f, f ∈ fs ∧ x ∈ input_features f) →
                     x ∈ foldl add_feature [] fs).
  { intros x Hx. apply elem_of_foldl_add_feature. tauto. }
  induction again as [|f again IH]; cbn [foldl]; [done|].
  rewrite add_feature_present.
  - apply IH. intros g Hg. by apply Hagain, list_elem_of_further.
  - apply Hin. left. apply Hagain, list_elem_of_here.
  - intros g Hg. apply Hin. right. exists f.
    split; [apply Hagain, list_elem_of_here|done].
Qed.

Lemma add_feature_foldl l f :
  add_feature l f = foldl append_if_absent l (input_features f ++ [f]).
Proof. unfold add_feature. by rewrite foldl_app. Qed.

Lemma foldl_add_feature_fresh fs l :
  NoDup (l ++ (fs ≫= λ f, input_features f ++ [f])) →
  foldl add_feature l fs = l ++ (fs ≫= λ f, input_features f ++ [f]).
Proof.
  revert l. induction fs as [|f fs IH]; intros l.
  - cbn. by rewrite app_nil_r.
  - cbn [foldl]. rewrite bind_cons. intros Hnodup.
    rewrite app_assoc in Hnodup.
    rewrite add_feature_foldl, foldl_append_if_absent_fresh
      by (by apply NoDup_app in Hnodup as (? & _ & _)).
    rewrite IH by done. by rewrite <-app_assoc.
Qed.

(** X16.  When the inputs of the declared features followed by the
    features themselves, taken in declaration order, hold no feature twice,
    the dependent features are exactly this sequence: every feature comes
    right after its own inputs, and nothing is reordered or dropped. *)
Theorem _get_dependent_features_fresh (fs : list Feature) :
  NoDup (fs ≫= λ f, input_features f ++ [f]) →
  _get_dependent_features fs = fs ≫= λ f, input_features f ++ [f].
Proof. intros Hnodup. by apply (foldl_add_feature_fresh fs []). Qed.

(** ** Field descriptors of the join batches, and the schema of a view *)

Lemma elem_of_dict_set {K V} `{EqDecision K} (d : list (K * V)) k v x :
  x ∈ dict_set d k v → x = (k, v) ∨ x ∈ d.
Proof.
  induction d as [|[k0 v0] d IH]; cbn.
  - intros ->%list_elem_of_singleton. by left.
  - case_decide as Hk.
    + intros [->|Hx]%elem_of_cons; [by left|].
      right. by apply list_elem_of_further.
    + intros [->|Hx]%elem_of_cons; [right; apply list_elem_of_here|].
      destruct (IH Hx) as [->|Hd]; [by left|].
      right. by apply list_elem_of_further.
Qed.

Section JoinFields.
Context `{env : Collaborators}.

Notation keyed := keyed_by_name.

Lemma keyed_dict_set fds field fd :
  keyed fds → join_field_name fd = field → keyed (dict_set fds field fd).
Proof.
  intros Hfds Hfd field' fd' [[= -> ->]|Hin]%elem_of_dict_set; [done|].
  by apply Hfds.
Qed.

Lemma keyed_add_join_fields rt ks tn fn d ts :
  (∀ batch fds, (batch, fds) ∈ rt → keyed fds) →
  ∀ batch fds, (batch, fds) ∈ add_join_fields rt ks tn fn d ts → keyed fds.
Proof.
  intros Hrt batch fds. unfold add_join_fields.
  intros [[= -> ->]|Hin]%elem_of_dict_set; [|by eapply Hrt].
  repeat apply keyed_dict_set; try done.
  assert (Hstart : keyed (default [] (dict_get rt (tn, ks)))).
  { destruct (dict_get rt (tn, ks)) as [fds|] eqn:Hget.
    - apply dict_get_Some_elem_of in Hget. by eapply Hrt.
    - by intros field fd ?%elem_of_nil. }
  revert Hstart. generalize (default [] (dict_get rt (tn, ks))).
  induction ks as [|k ks' IH]; intros fds Hfds; cbn [foldl]; [done|].
  apply IH. by apply keyed_dict_set.
Qed.

(** X17.  In every join batch the dispatch loop of a derived view builds,
    each field descriptor is stored under the name of the field it
    describes: the keys of the map handed to [temporal_join], which are
    also the fields its right table is projected on, are the field names
    of its descriptors. *)
Theorem join_fields_keyed_by_name view src dbn deps s :
  for_each (derived_dispatch view src dbn) (mkDerivedLoopState src [] [])
    deps = Return s →
  ∀ batch fds field fd,
    (batch, fds) ∈ right_tables s → (field, fd) ∈ fds →
    join_field_name fd = field.
Proof.
  intros Hloop. destruct (loop_fold _ _ _ _ _ _ Hloop) as (_ & Hrt & _).
  cbn [right_tables] in Hrt. rewrite Hrt. clear Hrt Hloop.
  set (D := dispatched view src dbn (mkDerivedLoopState src [] []) deps).
  clearbody D.
  assert (Hnil : ∀ batch fds,
    (batch, fds) ∈ @nil ((string * list string)
                         * list (string * JoinFieldDescriptor)) → keyed fds)
    by (by intros batch fds ?%elem_of_nil).
  revert Hnil. generalize (@nil ((string * list string)
                                 * list (string * JoinFieldDescriptor))).
  induction D as [|f D IH]; intros rt Hrt; cbn [foldl].
  { intros batch fds field fd Hbatch. exact (Hrt batch fds Hbatch field fd). }
  apply IH. unfold join_step.
  destruct (transform f); try done. destruct (keys f); [|done].
  destruct (dict_get dbn _) as [d|]; [|done].
  destruct (timestamp_field d); [|done].
  by apply keyed_add_join_fields.
Qed.

(** X18.  The table compiled for a derived or a sliding view is a
    projection whose schema depends only on the view and on the schema of
    its compiled source: it is [_get_output_fields] of the view on the
    fields of the source table, whatever the dispatch loop, the
    aggregations and the joins produced. *)
Theorem view_schema rec view st t st' :
  _get_table_from_derived_feature_view rec view st = (Return t, st')
  ∨ _get_table_from_sliding_feature_view rec view st = (Return t, st') →
  ∃ view_source source_table st1,
    source view = Some view_source
    ∧ rec (DescriptorInput view_source) st = (Return source_table, st1)
    ∧ get_field_names t
      = _get_output_fields view (get_field_names source_table).
Proof.
  intros (view_source & source_table & st1 & tmp & Hsource & Hsrc & ->)
    %compiled_view_shape.
  by exists view_source, source_table, st1.
Qed.
End JoinFields.

(** ** What the cache holds, and repeated builds *)

Section CacheContentsProperties.
Context `{env : Collaborators}.

Lemma cache_contents_session st :
  later_in_session __init__ st → cache_contents st.
Proof.
  intros Hlater.
  assert (Hinit : cache_contents __init__) by (by intros n d t).
  revert Hlater Hinit.
  apply (later_in_session_respects (keeps cache_contents)).
  - by intros t st0 _ H0.
  - intros d tmp fields st0 [vs Hvs] Hevent H0 n d' t'. unfold stored.
    cbn [_built_tables].
    destruct (decide (descriptor_name d = n)) as [<-|Hne].
    + rewrite lookup_insert_eq. intros [= <- <-]. unfold compiled_shape.
      rewrite Hvs. eauto.
    + rewrite lookup_insert_ne by done. apply H0.
  - intros d st0 Hsrc _ _ H0 n d' t'. unfold stored, logged.
    cbn [_built_tables].
    destruct (decide (descriptor_name d = n)) as [<-|Hne].
    + rewrite lookup_insert_eq. intros [= <- <-]. unfold compiled_shape.
      by rewrite Hsrc.
    + rewrite lookup_insert_ne by done. apply H0.
Qed.

Lemma _get_table_compiled_shape fuel d st t st' :
  later_in_session __init__ st →
  _get_table fuel (DescriptorInput d) st = (Return t, st') →
  compiled_shape d t.
Proof.
  intros Hlater Hget.
  assert (Hlater' : later_in_session __init__ st')
    by (by eapply session_get_table).
  apply cache_contents_session in Hlater'.
  apply _get_table_cached in Hget. by eapply Hlater'.
Qed.

(** X19.  In a session that starts with a new builder, whatever was
    compiled before, the table [_get_table] returns for a source
    descriptor is the scan of that very descriptor, and the table it
    returns for a view is a projection that keeps the event-time column;
    this holds for cache hits as well. *)
Theorem _get_table_shape fuel d st t st' :
  later_in_session __init__ st →
  _get_table fuel (DescriptorInput d) st = (Return t, st') →
  match source d with
  | None => t = get_table_from_source d
  | Some _ =>
      ∃ tmp fields,
        t = select tmp fields ∧ EVENT_TIME_ATTRIBUTE_NAME ∈ fields
  end.
Proof. apply _get_table_compiled_shape. Qed.

(** X20.  Keys given as a feature view are joined on every output field of
    that view, the internal event-time column included: when
    [_filter_table_by_keys] returns, the join it issued has the event-time
    column among its key fields, and the filtered table had that column
    too. *)
Theorem keys_view_joins_on_event_time fuel table key_view st t st' :
  later_in_session __init__ st →
  is_Some (source key_view) →
  _filter_table_by_keys fuel table (Some (DescriptorInput key_view)) st
  = (Return t, st') →
  ∃ key_table,
    t = join_table_on_key key_table table (get_field_names key_table)
    ∧ EVENT_TIME_ATTRIBUTE_NAME ∈ get_field_names key_table
    ∧ EVENT_TIME_ATTRIBUTE_NAME ∈ get_field_names table.
Proof.
  intros Hlater [vs Hvs] Hfilter. unfold _filter_table_by_keys in Hfilter.
  apply bind_Return in Hfilter as (key_table & st1 & Hget & Hjoin).
  destruct (list_find _ _) as [[i f]|] eqn:Hfind; [discriminate|].
  injection Hjoin as <- _.
  apply (_get_table_compiled_shape _ _ _ _ _ Hlater) in Hget.
  unfold compiled_shape in Hget. rewrite Hvs in Hget.
  destruct Hget as (tmp & fields & -> & Hevent).
  exists (select tmp fields). split_and!; [done..|].
  apply list_find_None in Hfind. rewrite Forall_forall in Hfind.
  destruct (decide (EVENT_TIME_ATTRIBUTE_NAME ∈ get_field_names table))
    as [Hin|Hout]; [done|].
  by destruct (Hfind _ Hevent).
Qed.

Lemma _get_table_DataFrame fuel df st :
  _get_table fuel (DataFrameInput df) st
  = (Return (from_pandas df), logged (from_pandas df) st).
Proof. by destruct fuel. Qed.

Lemma _filter_table_by_keys_preserving fuel table keys :
  preserving (_filter_table_by_keys fuel table keys).
Proof.
  unfold _filter_table_by_keys. destruct keys as [keys|];
    [|apply preserving_ret].
  apply preserving_bind; [apply preserving__get_table|].
  intros key_table. destruct (list_find _ _) as [[i field_name]|].
  - apply preserving_raise.
  - apply preserving_call_helper.
Qed.

(** X21.  [build] can be repeated: once it has returned a table, the same
    call made again at any later point of the session returns the same
    table and leaves the cache as it is.  Without keys the whole state is
    untouched; with keys the key table is looked up again (a data frame is
    converted again) and the key join is issued again. *)
Theorem build_repeatable fuel fuel' features keys start_datetime
    end_datetime st t st1 st2 :
  build fuel features keys start_datetime end_datetime st
  = (Return t, st1) →
  later_in_session st1 st2 →
  ∃ st3,
    build fuel' features keys start_datetime end_datetime st2
    = (Return t, st3)
    ∧ _built_tables st3 = _built_tables st2
    ∧ (keys = None → st3 = st2).
Proof.
  unfold build. destruct (is_feature_view features && is_unresolved features);
    [discriminate|].
  intros (t1 & sta & Hget & Hrest)%bind_Return Hlater.
  apply bind_Return in Hrest as (t2 & stb & Hfilter & Hrest).
  assert (Hpure : ∀ st0,
    (table ←M (if bool_decide (start_datetime ≠ None ∨ end_datetime ≠ None)
               then match timestamp_field features with
                    | None => raise MissingTimestampField
                    | Some _ =>
                        ret (_range_table_by_time t2 start_datetime
                               end_datetime)
                    end
               else ret t2);
     ret (if decide (EVENT_TIME_ATTRIBUTE_NAME ∈ get_field_names table)
          then drop_columns table EVENT_TIME_ATTRIBUTE_NAME
          else table)) st0 = (Return t, st0) ∧ st1 = stb).
  { intros st0. revert Hrest. unfold bind, ret, raise.
    case_bool_decide; [destruct (timestamp_field features)|];
      try discriminate; by intros [= <- <-]. }
  destruct (Hpure st) as [_ ->].
  assert (Hkept : cache_preserved sta st2).
  { eapply cache_preserved_trans; [|by apply later_in_session_preserved].
    destruct keys; [|injection Hfilter as _ <-; apply cache_preserved_refl].
    eapply _filter_table_by_keys_preserving, Hfilter. }
  apply _get_table_cached in Hget. apply Hkept in Hget.
  unfold bind at 1. rewrite (_get_table_hit _ _ _ _ _ Hget).
  rewrite decide_True by done.
  destruct keys as [keys|].
  - unfold _filter_table_by_keys in Hfilter.
    apply bind_Return in Hfilter as (key_table & stk & Hkey & Hjoin).
    destruct (list_find _ _) as [[i f]|] eqn:Hfind; [discriminate|].
    injection Hjoin as <- <-.
    assert (Hkey2 : ∃ stk2,
      _get_table fuel' keys st2 = (Return key_table, stk2)
      ∧ _built_tables stk2 = _built_tables st2).
    { destruct keys as [df|kd].
      - rewrite _get_table_DataFrame in Hkey. injection Hkey as <- _.
        rewrite _get_table_DataFrame. by eexists.
      - apply _get_table_cached in Hkey.
        assert (Hk2 : cache_preserved stk st2).
        { eapply cache_preserved_trans;
            [|by apply later_in_session_preserved].
          intros n v Hn. done. }
        apply Hk2 in Hkey. rewrite (_get_table_hit _ _ _ _ _ Hkey).
        rewrite decide_True by done. by eexists. }
    destruct Hkey2 as (stk2 & Hkey2 & Hcache).
    unfold bind at 1, _filter_table_by_keys, bind at 1. rewrite Hkey2, Hfind.
    rewrite call_helper_logged. rewrite (proj1 (Hpure _)).
    eexists. split_and!; [done|done|discriminate].
  - injection Hfilter as <- <-. unfold bind at 1, ret at 1.
    rewrite (proj1 (Hpure _)). by eexists.
Qed.
End CacheContentsProperties.

(** ** The phases of a derived view, and descriptors that share a name *)

Section ViewCalls.
Context `{env : Collaborators}.

Lemma over_window_calls_length tmp wam :
  length (over_window_calls tmp wam) = length wam.
Proof.
  revert tmp. induction wam as [|[w aggs] wam IH]; intros tmp; [done|].
  cbn. by rewrite IH.
Qed.

(** X22.  Once its source and its joined tables are compiled, a derived
    view writes nothing to the cache and calls the helpers in this order:
    one over-window aggregation per window batch, then one temporal join
    per join batch, each call taking the result of the previous one as its
    input.  What it returns is the projection of the last result on the
    output fields of the view. *)
Theorem derived_view_own_calls rec view view_source st src st1 dbn tbn st2 t
    st' :
  source view = Some view_source →
  rec (DescriptorInput view_source) st = (Return src, st1) →
  compile_join_tables rec
    (remove_dups (join_table_names (get_resolved_features view))) st1
  = (Return (dbn, tbn), st2) →
  _get_table_from_derived_feature_view rec view st = (Return t, st') →
  ∃ s,
    for_each (derived_dispatch view src dbn) (mkDerivedLoopState src [] [])
      (_get_dependent_features (get_resolved_features view)) = Return s
    ∧ let window_calls :=
        over_window_calls (tmp_table s) (window_agg_map s) in
      let join_calls :=
        temporal_join_calls tbn (List.last window_calls (tmp_table s))
          (right_tables s) in
      _built_tables st' = _built_tables st2
      ∧ helper_calls st' = helper_calls st2 ++ window_calls ++ join_calls
      ∧ length window_calls = length (window_agg_map s)
      ∧ length join_calls = length (right_tables s)
      ∧ t = select
              (List.last join_calls (List.last window_calls (tmp_table s)))
              (_get_output_fields view (get_field_names src)).
Proof.
  intros Hsource Hsrc Hjoin.
  rewrite (derived_view_phases _ _ _ _ _ _ _ _ _ Hsource Hsrc Hjoin).
  destruct (for_each _ _ _) as [e|s]; [discriminate|].
  intros (t1 & st3 & Hwin & (t2 & st4 & Hjoins & [= <- <-])%bind_Return)
    %bind_Return.
  rewrite evaluate_over_windows_calls in Hwin. injection Hwin as <- <-.
  apply evaluate_temporal_joins_calls in Hjoins as (-> & -> & Hall).
  exists s. split; [done|]. cbn zeta. cbn [_built_tables helper_calls].
  split_and!; [done|by rewrite <-app_assoc|apply over_window_calls_length
              |by apply Forall2_length in Hall|done].
Qed.

Lemma source_depth_source d view_source :
  source d = Some view_source → view_source ≠ d.
Proof.
  intros Hsource Heq.
  assert (source_depth view_source < source_depth d)%nat
    by (destruct d; try discriminate; injection Hsource as ->; cbn; lia).
  subst. lia.
Qed.

(** X23.  A view that bears the name of its own source takes the place of
    the source in the cache: once [_get_table] has returned for the view,
    asking for the source itself at any later point of the session raises
    the same-name conflict, although the source was compiled in this
    session. *)
Theorem view_shadows_same_named_source fuel fuel' d view_source t st st1 st2 :
  source d = Some view_source →
  descriptor_name view_source = descriptor_name d →
  _get_table fuel (DescriptorInput d) st = (Return t, st1) →
  later_in_session st1 st2 →
  _get_table fuel' (DescriptorInput view_source) st2
  = (Raise (DifferentTableDescriptorSameName (descriptor_name view_source)),
     st2).
Proof.
  intros Hsource Hname Hget Hlater.
  apply _get_table_cached in Hget.
  apply later_in_session_preserved in Hlater. apply Hlater in Hget.
  rewrite <-Hname in Hget. rewrite (_get_table_hit _ _ _ _ _ Hget).
  rewrite decide_False; [done|]. by apply source_depth_source.
Qed.

(** X24.  A descriptor that is neither a feature table nor a derived or
    sliding view is never compiled: with a well-formed cache, [_get_table]
    raises for it, either the unsupported-type error or, when another
    descriptor holds its name, the same-name conflict, and leaves the
    builder as it was. *)
Theorem unsupported_descriptor_rejected fuel d st :
  cache_well_formed st →
  is_compilable d = false →
  ∃ e,
    _get_table (S fuel) (DescriptorInput d) st = (Raise e, st)
    ∧ exception_class e = FeathubException
    ∧ (_built_tables st !! descriptor_name d = None →
       ∃ type_name, e = UnsupportedType type_name).
Proof.
  intros Hwf Hd. cbn [_get_table].
  destruct (_built_tables st !! descriptor_name d) as [[cached table]|]
    eqn:Hlook.
  - destruct (Hwf _ _ _ Hlook) as [_ Hcached].
    rewrite decide_False by (intros ->; congruence).
    eexists. split_and!; [done..|discriminate].
  - destruct d; try discriminate. eexists. split_and!; [done..|].
    intros _. by eexists.
Qed.
End ViewCalls.

(** ** The phases of a sliding view *)

Section SlidingViewCalls.
Context `{env : Collaborators}.

End SlidingViewCalls.

(** ** The properties above on the example descriptors *)

Lemma later_after_build_user_view :
  later_in_session (env := Examples.env) __init__
    (build (env := Examples.env) 3 Examples.user_view None None None
       __init__).2.
Proof.
  eapply (session_build _ _ _ 3 Examples.user_view None None None);
    [apply session_now|apply surjective_pairing].
Defined.

Lemma cache_well_formed_init : cache_well_formed __init__.
Proof. by intros n d t. Defined.

Lemma session_only_grows_witness :
  let scan := get_table_from_source Examples.users in
  let st := (build (env := Examples.env) 1 Examples.users None None None
               __init__).2 in
  let st' := (build (env := Examples.env) 3 Examples.user_view None None None
                st).2 in
  _built_tables st !! "users" = Some (Examples.users, scan)
  ∧ helper_calls st = [scan]
  ∧ cache_preserved st st'
  ∧ log_extended st st'
  ∧ _built_tables st' !! "users" = Some (Examples.users, scan).
Proof.
  intros scan st st'.
  assert (Hlater : later_in_session (env := Examples.env) st st').
  { eapply (session_build _ _ _ 3 Examples.user_view None None None);
      [apply session_now|apply surjective_pairing]. }
  assert (Hcached : _built_tables st !! "users" = Some (Examples.users, scan))
    by (vm_compute; reflexivity).
  destruct (session_only_grows (env := Examples.env) st st' Hlater)
    as [Hcache Hlog].
  split_and!; [exact Hcached|vm_compute; reflexivity|exact Hcache|exact Hlog|].
  exact (Hcache _ _ Hcached).
Defined.

Lemma cache_stays_well_formed_witness :
  cache_well_formed
    (build (env := Examples.env) 3 Examples.user_view None None None
       __init__).2.
Proof.
  exact (cache_stays_well_formed (env := Examples.env) __init__ _
           cache_well_formed_init later_after_build_user_view).
Defined.

Lemma source_scanned_once_witness :
  (length (scans_of_name "users"
             (helper_calls
                (build (env := Examples.env) 3 Examples.user_view None None
                   None __init__).2)) ≤ 1)%nat.
Proof.
  exact (source_scanned_once (env := Examples.env) _ "users"
           later_after_build_user_view).
Defined.

Lemma build_missing_timestamp_field_witness :
  let st' := (build (env := Examples.env) 1 Examples.untimed None
                (Some RangeExamples.start) None __init__).2 in
  timestamp_field Examples.untimed = None
  ∧ (Some RangeExamples.start ≠ None ∨ @None datetime ≠ None)
  ∧ ∃ table, _built_tables st' !! "untimed" = Some (Examples.untimed, table).
Proof.
  intros st'.
  apply (build_missing_timestamp_field (env := Examples.env) 1
           Examples.untimed None (Some RangeExamples.start) None __init__ st').
  reflexivity.
Defined.

Lemma build_range_needs_timestamp_field_witness :
  ∃ e st', build (env := Examples.env) 1 Examples.untimed None
             (Some RangeExamples.start) None __init__ = (Raise e, st').
Proof.
  apply (build_range_needs_timestamp_field (env := Examples.env));
    [reflexivity|left; discriminate].
Defined.

Lemma _filter_table_by_keys_checks_witness :
  let table := get_table_from_source Examples.users in
  let key_table := from_pandas Examples.key_frame in
  let joined := join_table_on_key key_table table ["user_id"] in
  _filter_table_by_keys (env := Examples.env) 1 table
    (Some (DataFrameInput Examples.key_frame)) __init__
  = (Return joined, logged joined (logged key_table __init__)).
Proof.
  intros table key_table joined.
  apply (proj1 (_filter_table_by_keys_checks (env := Examples.env) 1 table
                  (DataFrameInput Examples.key_frame) key_table __init__
                  (logged key_table __init__) eq_refl)).
  intros f ->%list_elem_of_singleton.
  apply (bool_decide_unpack _). vm_compute. exact I.
Defined.

Lemma dispatch_loop_table_witness :
  let src := get_table_from_source Examples.users in
  let dbn := [("profiles", Examples.profiles)] in
  let deps :=
    _get_dependent_features (get_resolved_features Examples.user_view) in
  ∃ s,
    for_each (derived_dispatch (env := Examples.env) Examples.user_view src
                dbn) (mkDerivedLoopState src [] []) deps = Return s
    ∧ get_field_names (env := Examples.env) (tmp_table s)
      = get_field_names (env := Examples.env) src ++ ["double_spend"].
Proof.
  intros src dbn deps.
  assert (Hloop : ∃ s,
    for_each (derived_dispatch (env := Examples.env) Examples.user_view src
                dbn) (mkDerivedLoopState src [] []) deps = Return s)
    by (eexists; vm_compute; reflexivity).
  destruct Hloop as [s Hloop]. exists s. split; [exact Hloop|].
  rewrite (proj1 (proj2 (dispatch_loop_table (env := Examples.env)
                           Examples.user_view src dbn deps s Hloop))).
  reflexivity.
Defined.

Lemma dispatch_loop_accepts_witness :
  let src := get_table_from_source Examples.users in
  let dbn := [("profiles", Examples.profiles)] in
  let deps :=
    _get_dependent_features (get_resolved_features Examples.user_view) in
  ∃ s,
    for_each (derived_dispatch (env := Examples.env) Examples.user_view src
                dbn) (mkDerivedLoopState src [] []) deps = Return s
    ∧ ("age" ∈ get_field_names (env := Examples.env) (tmp_table s)
       ∨ (is_Some (over_window_of Examples.age)
          ∧ is_Some (timestamp_field Examples.user_view))
       ∨ join_accepted (env := Examples.env) src dbn Examples.age).
Proof.
  intros src dbn deps.
  assert (Hloop : ∃ s,
    for_each (derived_dispatch (env := Examples.env) Examples.user_view src
                dbn) (mkDerivedLoopState src [] []) deps = Return s)
    by (eexists; vm_compute; reflexivity).
  destruct Hloop as [s Hloop]. exists s. split; [exact Hloop|].
  apply (dispatch_loop_accepts (env := Examples.env) Examples.user_view src
           dbn deps _ s Hloop Examples.age).
  apply (bool_decide_unpack _). vm_compute. exact I.
Defined.

Lemma join_tables_from_declared_features_witness :
  ∃ dbn tbn st',
    compile_join_tables (env := Examples.env)
      (_get_table (env := Examples.env) 1)
      (remove_dups (join_table_names (get_resolved_features Examples.user_view)))
      __init__ = (Return (dbn, tbn), st')
    ∧ dict_get dbn "profiles" = Some Examples.profiles.
Proof.
  assert (Hrun : ∃ dbn tbn st',
    compile_join_tables (env := Examples.env)
      (_get_table (env := Examples.env) 1)
      (remove_dups (join_table_names (get_resolved_features Examples.user_view)))
      __init__ = (Return (dbn, tbn), st'))
    by (eexists _, _, _; vm_compute; reflexivity).
  destruct Hrun as (dbn & tbn & st' & Hrun). exists dbn, tbn, st'.
  split; [exact Hrun|].
  rewrite (proj1 (join_tables_from_declared_features (env := Examples.env)
                    _ Examples.user_view __init__ dbn tbn st' Hrun)).
  reflexivity.
Defined.

Lemma sliding_window_batching_witness :
  let src := get_table_from_source Examples.users in
  let deps :=
    _get_dependent_features (get_resolved_features Examples.sliding_view) in
  ∃ s,
    for_each (sliding_dispatch (env := Examples.env) Examples.sliding_view)
      (mkSlidingLoopState src []) deps = Return s
    ∧ NoDup (dict_keys (sliding_window_agg_map s)).
Proof.
  intros src deps.
  assert (Hloop : ∃ s,
    for_each (sliding_dispatch (env := Examples.env) Examples.sliding_view)
      (mkSlidingLoopState src []) deps = Return s)
    by (eexists; vm_compute; reflexivity).
  destruct Hloop as [s Hloop]. exists s. split; [exact Hloop|].
  exact (proj1 (sliding_window_batching (env := Examples.env)
                  Examples.sliding_view src deps s __init__ Hloop)).
Defined.

Lemma sliding_loop_accepts_witness :
  let src := get_table_from_source Examples.users in
  let deps :=
    _get_dependent_features (get_resolved_features Examples.sliding_view) in
  ∃ s,
    for_each (sliding_dispatch (env := Examples.env) Examples.sliding_view)
      (mkSlidingLoopState src []) deps = Return s
    ∧ get_field_names (env := Examples.env) (sliding_tmp_table s)
      = get_field_names (env := Examples.env) src ++ ["double_spend"].
Proof.
  intros src deps.
  assert (Hloop : ∃ s,
    for_each (sliding_dispatch (env := Examples.env) Examples.sliding_view)
      (mkSlidingLoopState src []) deps = Return s)
    by (eexists; vm_compute; reflexivity).
  destruct Hloop as [s Hloop]. exists s. split; [exact Hloop|].
  rewrite (proj1 (proj2 (sliding_loop_accepts (env := Examples.env)
                           Examples.sliding_view src deps s Hloop))).
  reflexivity.
Defined.

Lemma valid_same_second : valid_datetime RangeExamples.same_second.
Proof.
  unfold valid_datetime, RangeExamples.same_second.
  cbn [year month day hour minute second microsecond]. lia.
Defined.

Lemma _range_table_by_time_empty_witness :
  table_rows RangeExamples.engine_rows
    (_range_table_by_time (env := Examples.env) RangeExamples.scan
       (Some RangeExamples.start) (Some RangeExamples.same_second))
  = [].
Proof.
  apply (_range_table_by_time_empty (env := Examples.env)
           RangeExamples.engine_rows RangeExamples.scan RangeExamples.start
           RangeExamples.same_second valid_start valid_same_second).
  reflexivity.
Defined.

Lemma _get_dependent_features_redeclared_witness :
  _get_dependent_features
    ([DependencyExamples.e; DependencyExamples.f] ++ [DependencyExamples.e])
  = _get_dependent_features [DependencyExamples.e; DependencyExamples.f].
Proof.
  apply _get_dependent_features_redeclared.
  intros f ->%list_elem_of_singleton. apply list_elem_of_here.
Defined.

Lemma _get_dependent_features_fresh_witness :
  _get_dependent_features [DependencyExamples.f; DependencyExamples.h]
  = [DependencyExamples.g; DependencyExamples.f; DependencyExamples.h].
Proof.
  apply (_get_dependent_features_fresh
           [DependencyExamples.f; DependencyExamples.h]).
  apply (bool_decide_unpack _). vm_compute. exact I.
Defined.

Lemma join_fields_keyed_by_name_witness :
  let src := get_table_from_source Examples.users in
  let dbn := [("profiles", Examples.profiles)] in
  let deps :=
    _get_dependent_features (get_resolved_features Examples.user_view) in
  ∃ s,
    for_each (derived_dispatch (env := Examples.env) Examples.user_view src
                dbn) (mkDerivedLoopState src [] []) deps = Return s
    ∧ ∀ batch fds field fd,
        (batch, fds) ∈ right_tables s → (field, fd) ∈ fds →
        join_field_name fd = field.
Proof.
  intros src dbn deps.
  assert (Hloop : ∃ s,
    for_each (derived_dispatch (env := Examples.env) Examples.user_view src
                dbn) (mkDerivedLoopState src [] []) deps = Return s)
    by (eexists; vm_compute; reflexivity).
  destruct Hloop as [s Hloop]. exists s. split; [exact Hloop|].
  exact (join_fields_keyed_by_name (env := Examples.env) Examples.user_view
           src dbn deps s Hloop).
Defined.

Lemma view_schema_witness :
  ∃ t st',
    _get_table_from_derived_feature_view (env := Examples.env)
      (_get_table (env := Examples.env) 1) Examples.user_view __init__
    = (Return t, st')
    ∧ ∃ view_source source_table st1,
        source Examples.user_view = Some view_source
        ∧ _get_table (env := Examples.env) 1 (DescriptorInput view_source)
            __init__ = (Return source_table, st1)
        ∧ get_field_names (env := Examples.env) t
          = _get_output_fields (env := Examples.env) Examples.user_view
              (get_field_names (env := Examples.env) source_table).
Proof.
  assert (Hrun : ∃ t st',
    _get_table_from_derived_feature_view (env := Examples.env)
      (_get_table (env := Examples.env) 1) Examples.user_view __init__
    = (Return t, st')) by (eexists _, _; vm_compute; reflexivity).
  destruct Hrun as (t & st' & Hrun). exists t, st'. split; [exact Hrun|].
  exact (view_schema (env := Examples.env) _ Examples.user_view __init__ t st'
           (or_introl Hrun)).
Defined.

Lemma _get_table_shape_witness :
  ∃ t st',
    _get_table (env := Examples.env) 3 (DescriptorInput Examples.user_view)
      __init__ = (Return t, st')
    ∧ ∃ tmp fields, t = select tmp fields ∧ Examples.event_time ∈ fields.
Proof.
  assert (Hrun : ∃ t st',
    _get_table (env := Examples.env) 3 (DescriptorInput Examples.user_view)
      __init__ = (Return t, st')) by (eexists _, _; vm_compute; reflexivity).
  destruct Hrun as (t & st' & Hrun). exists t, st'. split; [exact Hrun|].
  exact (_get_table_shape (env := Examples.env) 3 Examples.user_view __init__
           t st' (session_now __init__) Hrun).
Defined.

Lemma keys_view_joins_on_event_time_witness :
  ∃ t st' key_table,
    _filter_table_by_keys (env := Examples.env) 2
      (get_table_from_source Examples.users)
      (Some (DescriptorInput Examples.key_view)) __init__ = (Return t, st')
    ∧ t = join_table_on_key key_table (get_table_from_source Examples.users)
            (get_field_names (env := Examples.env) key_table)
    ∧ Examples.event_time ∈ get_field_names (env := Examples.env) key_table.
Proof.
  assert (Hrun : ∃ t st',
    _filter_table_by_keys (env := Examples.env) 2
      (get_table_from_source Examples.users)
      (Some (DescriptorInput Examples.key_view)) __init__ = (Return t, st'))
    by (eexists _, _; vm_compute; reflexivity).
  destruct Hrun as (t & st' & Hrun).
  destruct (keys_view_joins_on_event_time (env := Examples.env) 2
              (get_table_from_source Examples.users) Examples.key_view
              __init__ t st' (session_now __init__)
              (ex_intro _ Examples.users eq_refl) Hrun)
    as (key_table & Ht & Hkey & _).
  by exists t, st', key_table.
Defined.

Lemma build_repeatable_witness :
  ∃ t st1 st3,
    build (env := Examples.env) 3 Examples.user_view None None None __init__
    = (Return t, st1)
    ∧ build (env := Examples.env) 0 Examples.user_view None None None st1
      = (Return t, st3)
    ∧ st3 = st1.
Proof.
  assert (Hrun : ∃ t st1,
    build (env := Examples.env) 3 Examples.user_view None None None __init__
    = (Return t, st1)) by (eexists _, _; vm_compute; reflexivity).
  destruct Hrun as (t & st1 & Hrun).
  destruct (build_repeatable (env := Examples.env) 3 0 Examples.user_view
              None None None __init__ t st1 st1 Hrun (session_now st1))
    as (st3 & Hagain & _ & Hsame).
  exists t, st1, st3. split_and!; [exact Hrun|exact Hagain|by apply Hsame].
Defined.

Lemma derived_view_own_calls_witness :
  ∃ t st',
    _get_table_from_derived_feature_view (env := Examples.env)
      (_get_table (env := Examples.env) 1) Examples.user_view __init__
    = (Return t, st')
    ∧ length (helper_calls st') = 4.
Proof.
  set (src := get_table_from_source Examples.users).
  set (st1 := stored Examples.users src (logged src __init__)).
  set (right := get_table_from_source Examples.profiles).
  set (st2 := stored Examples.profiles right (logged right st1)).
  assert (Hrun : ∃ t st',
    _get_table_from_derived_feature_view (env := Examples.env)
      (_get_table (env := Examples.env) 1) Examples.user_view __init__
    = (Return t, st')) by (eexists _, _; vm_compute; reflexivity).
  destruct Hrun as (t & st' & Hrun). exists t, st'. split; [exact Hrun|].
  destruct (derived_view_own_calls (env := Examples.env)
              (_get_table (env := Examples.env) 1) Examples.user_view
              Examples.users __init__ src st1
              [("profiles", Examples.profiles)] [("profiles", right)] st2
              t st' eq_refl eq_refl eq_refl Hrun)
    as (s & Hloop & _ & Hcalls & Hwindows & Hjoins & _).
  rewrite Hcalls, !length_app, Hwindows, Hjoins.
  assert (Hs : ∃ s0,
    for_each
      (derived_dispatch (env := Examples.env) Examples.user_view src
         [("profiles", Examples.profiles)]) (mkDerivedLoopState src [] [])
      (_get_dependent_features (get_resolved_features Examples.user_view))
    = Return s0
    ∧ length (window_agg_map s0) = 1 ∧ length (right_tables s0) = 1)
    by (eexists; split; [vm_compute; reflexivity|];
        split; vm_compute; reflexivity).
  destruct Hs as (s0 & Hs & Hw & Hj).
  rewrite Hs in Hloop. injection Hloop as <-. by rewrite Hw, Hj.
Defined.

Lemma view_shadows_same_named_source_witness :
  ∃ t st1,
    _get_table (env := Examples.env) 2 (DescriptorInput Examples.users_view)
      __init__ = (Return t, st1)
    ∧ _get_table (env := Examples.env) 0 (DescriptorInput Examples.users) st1
      = (Raise (DifferentTableDescriptorSameName "users"), st1).
Proof.
  assert (Hrun : ∃ t st1,
    _get_table (env := Examples.env) 2 (DescriptorInput Examples.users_view)
      __init__ = (Return t, st1)) by (eexists _, _; vm_compute; reflexivity).
  destruct Hrun as (t & st1 & Hrun). exists t, st1. split; [exact Hrun|].
  exact (view_shadows_same_named_source (env := Examples.env) 2 0
           Examples.users_view Examples.users t __init__ st1 st1 eq_refl
           eq_refl Hrun (session_now st1)).
Defined.

Lemma unsupported_descriptor_rejected_witness :
  ∃ e,
    _get_table (env := Examples.env) 1
      (DescriptorInput Examples.other_descriptor) __init__
    = (Raise e, __init__)
    ∧ exception_class e = FeathubException.
Proof.
  destruct (unsupported_descriptor_rejected (env := Examples.env) 0
              Examples.other_descriptor __init__ cache_well_formed_init
              eq_refl) as (e & Hraise & Hclass & _).
  by exists e.
Defined.

